(** * VIP-python-client: a shallow embedding of [VipLauncher] and [VipSession]

    The development follows the two classes of the client:
    - [Py]        exceptions, results and the state-and-exception monad in
                  which the methods are written;
    - [PurePath]  the fragment of [pathlib] the classes rely on;
    - [Settings]  the path virtualizer ([_parse_input_settings],
                  [_get_input_settings]);
    - [Sync]      the directory synchronizer ([_mkdirs], [_upload_dir]);
    - [Client]    the state of a session and of its environment, then the
                  methods of [VipLauncher] and [VipSession]: properties,
                  registry, lifecycle, download and session backup;
    - [Html]      the cleaning of the descriptions ([_clean_html]);
    - [Inputs]    the checks of the input settings against the descriptor
                  of the pipeline.
    The remote service (module [vip]) is not part of the sources: it is
    represented by the interface of section 6 of the specification. *)

From Stdlib Require Import Ascii ZArith Lia Bool.
From stdpp Require Import base option list strings gmap.


Set Warnings "-register-all".

(** ** Python results *)

Module Py.

(** The exceptions raised by the two classes or by the library calls they make. *)
Inductive exn : Type :=
  | TypeError
  | ValueError
  | AttributeError
  | KeyError
  | IndexError
  | JSONDecodeError
  | AssertionError
  | NotImplementedError
  | RuntimeError (msg : string)
  | FileNotFoundError
  | IsADirectoryError
  | NotADirectoryError
  | FileExistsError
  | OSError.

(** Outcome of a call: a value, an exception, or a loop that was still
    iterating when the unrolling bound of the model was reached. *)
Inductive result (A : Type) : Type :=
  | Ok (a : A)
  | Raise (e : exn)
  | Unfinished.
Arguments Ok {A} a.
Arguments Raise {A} e.
Arguments Unfinished {A}.

Definition is_ok {A} (r : result A) : bool :=
  match r with Ok _ => true | _ => false end.

Definition is_raise {A} (r : result A) : bool :=
  match r with Raise _ => true | _ => false end.

(** State and exceptions: the state reached when an exception is raised is
    kept, as mutations of Python objects are. *)
Definition M (S A : Type) : Type := S -> S * result A.

Definition ret {S A} (a : A) : M S A := fun s => (s, Ok a).
Definition raise {S A} (e : exn) : M S A := fun s => (s, Raise e).
Definition bind {S A B} (m : M S A) (f : A -> M S B) : M S B :=
  fun s => match m s with
           | (s', Ok a) => f a s'
           | (s', Raise e) => (s', Raise e)
           | (s', Unfinished) => (s', Unfinished)
           end.
Definition get {S} : M S S := fun s => (s, Ok s).
Definition gets {S A} (f : S -> A) : M S A := fun s => (s, Ok (f s)).
Definition modify {S} (f : S -> S) : M S unit := fun s => (f s, Ok tt).
Definition lift {S A} (r : result A) : M S A := fun s => (s, r).

(** [try: m except RuntimeError as e: h e] *)
Definition catch_runtime {S A} (m : M S A) (h : string -> M S A) : M S A :=
  fun s => match m s with
           | (s', Raise (RuntimeError msg)) => h msg s'
           | r => r
           end.

(** [for x in l: body x] *)
Fixpoint for_each {S A} (l : list A) (body : A -> M S unit) : M S unit :=
  match l with
  | [] => ret tt
  | x :: l' => bind (body x) (fun _ => for_each l' body)
  end.

(** [for x in l: failures += body x] *)
Fixpoint collect {S A B} (l : list A) (body : A -> M S (list B)) : M S (list B) :=
  match l with
  | [] => ret []
  | x :: l' =>
      bind (body x) (fun ys => bind (collect l' body) (fun zs => ret (ys ++ zs)))
  end.

(** [while cond: body], unrolled at most [fuel] times. *)
Fixpoint while {S} (fuel : nat) (cond : M S bool) (body : M S unit) : M S unit :=
  bind cond (fun c =>
    if c then
      match fuel with
      | 0 => lift Unfinished
      | S fuel' => bind body (fun _ => while fuel' cond body)
      end
    else ret tt).

(** A Python [dict] with string keys, in insertion order. *)
Definition dict (V : Type) : Type := list (string * V).

(** [d.get(k)] *)
Fixpoint dict_get {V} (d : dict V) (k : string) : option V :=
  match d with
  | [] => None
  | (k', v) :: d' => if String.eqb k k' then Some v else dict_get d' k
  end.

(** [d[k] = v]: the value of an existing key is replaced in place, a new key
    is appended. *)
Fixpoint dict_set {V} (d : dict V) (k : string) (v : V) : dict V :=
  match d with
  | [] => [(k, v)]
  | (k', v') :: d' =>
      if String.eqb k k' then (k', v) :: d' else (k', v') :: dict_set d' k v
  end.

(** [list(d)]: the keys *)
Definition dict_keys {V} (d : dict V) : list string := map fst d.

(** [d1 == d2], which does not look at the order of the keys *)
Definition dict_eqb {V} (veqb : V -> V -> bool) (d1 d2 : dict V) : bool :=
  Nat.eqb (length d1) (length d2)
  && forallb (fun kv => match dict_get d2 kv.1 with
                        | Some v' => veqb kv.2 v'
                        | None => false
                        end) d1.

(** Binding of the arguments of a call against the parameters of a [def]:
    [params] are the parameters after [self], the first [required] of them
    have no default; a call gives [npos] positional arguments and the
    keyword arguments [kws]. *)
Record signature : Type := Sig { params : list string; required : nat }.

Definition bind_args (sg : signature) (npos : nat) (kws : list string) : result unit :=
  if bool_decide (length (params sg) < npos) then Raise TypeError
  else if negb (forallb (fun k => bool_decide (k ∈ drop npos (params sg))) kws)
       then Raise TypeError
  else if negb (bool_decide (NoDup kws)) then Raise TypeError
  else if negb (forallb (fun p => bool_decide (p ∈ kws))
                        (drop npos (take (required sg) (params sg))))
       then Raise TypeError
  else Ok tt.

End Py.

Export Py.

Declare Scope py_scope.
Delimit Scope py_scope with py.
Notation "'let*' x ':=' m 'in' k" := (bind m (fun x => k))
  (at level 10, x pattern, m at level 100, k at level 200) : py_scope.
Notation "m '>>' k" := (bind m (fun _ => k))
  (at level 100, k at level 200, right associativity) : py_scope.
Open Scope py_scope.

(** ** pathlib *)

Module PurePath.

Definition slash : ascii := "/"%char.

(** [s.split("/")] *)
Fixpoint split_slash (s : string) : list string :=
  match s with
  | EmptyString => [""]
  | String c s' =>
      if Ascii.eqb c slash then "" :: split_slash s'
      else match split_slash s' with
           | [] => [String c ""]
           | w :: ws => String c w :: ws
           end
  end.

(** ["/".join(parts)] *)
Fixpoint join_slash (parts : list string) : string :=
  match parts with
  | [] => ""
  | [w] => w
  | w :: ws => w +:+ String slash (join_slash ws)
  end.

(** [len(s) - len(s.lstrip("/"))] and [s.lstrip("/")] *)
Fixpoint lstrip_slash (s : string) : nat * string :=
  match s with
  | String c s' =>
      if Ascii.eqb c slash then let '(n, r) := lstrip_slash s' in (S n, r)
      else (0, s)
  | EmptyString => (0, s)
  end.

(** A parsed POSIX path: the root is [""], ["/"] or ["//"], the parts are the
    components after the root. *)
Record ppath : Type := PPath { proot : string; pparts : list string }.

Global Instance ppath_eq_dec : EqDecision ppath.
Proof. solve_decision. Defined.

Global Instance ppath_countable : Countable ppath.
Proof.
  refine (inj_countable' (fun p => (proot p, pparts p))
                         (fun x => PPath x.1 x.2) _).
  by intros [].
Defined.

Definition keep_part (x : string) : bool :=
  negb (String.eqb x "") && negb (String.eqb x ".").

(** [PurePosixPath(s)]: exactly two leading slashes are kept as a root of
    their own, empty and ["."] components are dropped, [".."] is kept. *)
Definition PurePosixPath (s : string) : ppath :=
  let '(n, rest) := lstrip_slash s in
  {| proot := match n with 0 => "" | 2 => "//" | _ => "/" end;
     pparts := List.filter keep_part (split_slash rest) |}.

(** [str(p)] *)
Definition str (p : ppath) : string :=
  match proot p, pparts p with
  | EmptyString, [] => "."
  | r, ps => r +:+ join_slash ps
  end.

Definition is_absolute (p : ppath) : bool := negb (String.eqb (proot p) "").

(** [p / q] *)
Definition joinpath (p q : ppath) : ppath :=
  if is_absolute q then q
  else {| proot := proot p; pparts := pparts p ++ pparts q |}.

(** [p / name] for a string [name] *)
Definition child (p : ppath) (name : string) : ppath :=
  joinpath p (PurePosixPath name).

(** [l] without the prefix [pre], when it starts with it *)
Fixpoint strip_prefix (pre l : list string) : option (list string) :=
  match pre, l with
  | [], _ => Some l
  | x :: pre', y :: l' => if String.eqb x y then strip_prefix pre' l' else None
  | _ :: _, [] => None
  end.

(** [p.relative_to(other)] *)
Definition relative_to (p other : ppath) : result ppath :=
  if String.eqb (proot p) (proot other) then
    match strip_prefix (pparts other) (pparts p) with
    | Some rest => Ok {| proot := ""; pparts := rest |}
    | None => Raise ValueError
    end
  else Raise ValueError.

(** [p.parent] *)
Definition parent (p : ppath) : ppath :=
  {| proot := proot p; pparts := removelast (pparts p) |}.

(** [p.name] *)
Definition name (p : ppath) : string := List.last (pparts p) "".

(** [p.parts[0]] of a relative path *)
Definition first_part (p : ppath) : result string :=
  match pparts p with
  | x :: _ => Ok x
  | [] => Raise IndexError
  end.

(** [Path(p).resolve()] on a file system without symbolic links, the current
    directory being [cwd]: the path is made absolute and [".."] steps are
    taken, staying at the root when there is nothing left to leave. *)
Definition dotdot (acc : list string) (x : string) : list string :=
  if String.eqb x ".." then removelast acc else acc ++ [x].

Definition resolve (cwd p : ppath) : ppath :=
  {| proot := "/";
     pparts := fold_left dotdot
                 (if is_absolute p then pparts p else pparts cwd ++ pparts p) [] |}.

(** [dir.iterdir()] yields [dir] extended by the name of each entry. *)
Definition entry (dir : ppath) (n : string) : ppath :=
  {| proot := proot dir; pparts := pparts dir ++ [n] |}.

(** A name that [pathlib] reads as one component: not empty, not ["."], and
    without a slash. *)
Definition valid_name (n : string) : Prop :=
  PurePosixPath n = {| proot := ""; pparts := [n] |}.

Definition wf_path (p : ppath) : Prop := Forall valid_name (pparts p).

Global Instance valid_name_dec n : Decision (valid_name n).
Proof. unfold valid_name. apply _. Defined.

End PurePath.

Export PurePath.

(** ** Path virtualizer (VipSession, section D.1) *)

Module Settings.

(** Values found in [input_settings]: strings, path objects, lists of
    values; [VOther] stands for an object of any other type, two of them
    being equal when they carry the same number. *)
Inductive value : Type :=
  | VStr (s : string)
  | VPath (p : ppath)
  | VList (l : list value)
  | VOther (id : Z).

(** [a == b] *)
Fixpoint value_eqb (a b : value) : bool :=
  match a, b with
  | VStr s, VStr t => String.eqb s t
  | VPath p, VPath q => bool_decide (p = q)
  | VList l, VList m =>
      (fix all2 (l m : list value) : bool :=
         match l, m with
         | [], [] => true
         | x :: l', y :: m' => value_eqb x y && all2 l' m'
         | _, _ => false
         end) l m
  | VOther i, VOther j => Z.eqb i j
  | _, _ => false
  end.

(** The attributes of the session read by the virtualizer. *)
Record dirs : Type := Dirs {
  _local_input_dir : option ppath;
  _vip_input_dir : option ppath;
  _input_settings : option (dict value)
}.

(** [[f(x) for x in l]] where [f] may raise *)
Definition comprehension {A B} (f : A -> result B) : list A -> result (list B) :=
  fix go l :=
    match l with
    | [] => Ok []
    | x :: l' =>
        match f x with
        | Ok y => match go l' with
                  | Ok ys => Ok (y :: ys)
                  | Raise e => Raise e
                  | Unfinished => Unfinished
                  end
        | Raise e => Raise e
        | Unfinished => Unfinished
        end
    end.

Section Virtualizer.

(** Modelled from the spec: the class attribute [_SERVER_PATH_PREFIX] is read
    by [_parse_input_settings] but declared in neither class; it is the
    "configured remote-namespace prefix" of section 4.1. *)
Variable _SERVER_PATH_PREFIX : string.

(** The current working directory, against which [Path.resolve] works. *)
Variable cwd : ppath.

Variable self : dirs.

(** The string and the path denoted by a [str] or [os.PathLike] input. *)
Definition parse_single (input : value) (input_str : string) (input_path : ppath) : value :=
  if String.prefix _SERVER_PATH_PREFIX input_str then
    match _vip_input_dir self with
    | Some input_dir =>
        match relative_to input_path input_dir with
        | Ok rel => VPath rel
        | _ => input
        end
    | None => input
    end
  else
    match _local_input_dir self with
    | Some input_dir =>
        match relative_to (resolve cwd input_path) (resolve cwd input_dir) with
        | Ok rel => VPath rel
        | _ => input
        end
    | None => input
    end.

(** [parse_value] of [_parse_input_settings] *)
Fixpoint parse_value (input : value) : result value :=
  match input with
  | VList l =>
      match comprehension parse_value l with
      | Ok l' => Ok (VList l')
      | Raise e => Raise e
      | Unfinished => Unfinished
      end
  | VStr s => Ok (parse_single input s (PurePosixPath s))
  | VPath p => Ok (parse_single input (str p) p)
  | VOther _ => Raise TypeError
  end.

Definition _parse_input_settings (input_settings : dict value) : result (dict value) :=
  comprehension
    (fun kv => match parse_value kv.2 with
               | Ok v => Ok (kv.1, v)
               | Raise e => Raise e
               | Unfinished => Unfinished
               end)
    input_settings.

(** [get_input] of [_get_input_settings] *)
Fixpoint get_input (target : string) (value0 : value) : value :=
  match value0 with
  | VList l => VList (map (get_input target) l)
  | VPath p =>
      match (if String.eqb target "vip" then _vip_input_dir self else None) with
      | Some d => VStr (str (joinpath d p))
      | None =>
          match (if String.eqb target "local" then _local_input_dir self else None) with
          | Some d => VStr (str (joinpath d p))
          | None => VStr (str p)
          end
      end
  | _ => value0
  end.

Definition _get_input_settings (target : string) : result (dict value) :=
  if negb (String.eqb target "vip" || String.eqb target "local")
  then Raise NotImplementedError
  else match _input_settings self with
       | Some settings => Ok (map (fun kv => (kv.1, get_input target kv.2)) settings)
       | None => Raise AttributeError
       end.

End Virtualizer.

End Settings.

(** ** Creation of a directory and of its missing ancestors *)

Module Dirs.

Section Mkdirs.

Context {St : Type}.
(** [cls._exists(path, location)] and [cls._create_dir(path, location)] *)
Variable exists_ : ppath -> M St bool.
Variable create_dir : ppath -> M St unit.

(** [while not cls._exists(first_node.parent): first_node = first_node.parent] *)
Fixpoint walk_up (fuel : nat) (first_node : ppath) : M St ppath :=
  let* e := exists_ (parent first_node) in
  if (e : bool) then ret first_node
  else match fuel with
       | 0 => lift Unfinished
       | S fuel' => walk_up fuel' (parent first_node)
       end.

(** [while dir_to_make != path: ...] *)
Fixpoint make_down (fuel : nat) (path dir_to_make : ppath) : M St unit :=
  if bool_decide (dir_to_make = path) then ret tt
  else match fuel with
       | 0 => lift Unfinished
       | S fuel' =>
           let* rel := lift (relative_to path dir_to_make) in
           let* x := lift (first_part rel) in
           let d := child dir_to_make x in
           create_dir d >> make_down fuel' path d
       end.

(** [_mkdirs]: the two loops are unrolled as many times as [path] has parts. *)
Definition _mkdirs (path : ppath) : M St string :=
  let* e := exists_ path in
  if (e : bool) then ret ""
  else
    let* first_node := walk_up (length (pparts path)) path in
    create_dir first_node >>
    make_down (length (pparts path)) path first_node >>
    let* rel := lift (relative_to path (parent first_node)) in
    ret (str rel).

End Mkdirs.

(** Truth value of a Python string *)
Definition truthy (s : string) : bool := negb (String.eqb s "").

End Dirs.

Export Dirs.

(** ** Directory synchronizer (VipSession, section A.2) *)

Module Sync.

(** A local directory tree as [iterdir], [is_dir] and [is_file] see it;
    [LOther] is an entry that is neither a file nor a directory. *)
Inductive ltree : Type :=
  | LFile
  | LOther
  | LDir (entries : list (string * ltree)).

Definition is_dir (t : ltree) : bool :=
  match t with LDir _ => true | _ => false end.

Definition is_file (t : ltree) : bool :=
  match t with LFile => true | _ => false end.

(** The remote store: the paths that exist, and the uploads attempted so far
    (local file, remote path), oldest first. *)
Record remote : Type := Remote {
  rfs : gset ppath;
  attempts : list (ppath * ppath)
}.

Section Upload.

(** Whether the store accepts an upload; it may depend on everything that
    happened before. *)
Variable upload_ok : remote -> ppath -> ppath -> bool.

(** Modelled from the spec: [exists(path) -> bool] of the remote storage
    backend (module [vip]); the root of the store always exists. *)
Definition vip_exists (p : ppath) : M remote bool :=
  gets (fun r => bool_decide (pparts p = [] ∨ p ∈ rfs r)).

(** Modelled from the spec: [createDirectory(path) -> bool] of the backend. *)
Definition vip_create_dir (p : ppath) : M remote unit :=
  modify (fun r => Remote ({[p]} ∪ rfs r) (attempts r)).

(** Modelled from the spec: [listEntries(path) -> [{name}]] of the backend:
    the parsed ["path"] of each element directly below [p]. *)
Definition vip_list_elements (p : ppath) : M remote (list ppath) :=
  gets (fun r => List.filter
                   (fun q => bool_decide (parent q = p ∧ pparts q ≠ []))
                   (elements (rfs r))).

(** Modelled from the spec: [uploadFile(localPath, remotePath) -> bool] of the
    backend; an accepted upload makes the remote path exist. *)
Definition vip_upload (local_path vip_path : ppath) : M remote bool :=
  fun r =>
    if upload_ok r local_path vip_path
    then (Remote ({[vip_path]} ∪ rfs r) (attempts r ++ [(local_path, vip_path)]), Ok true)
    else (Remote (rfs r) (attempts r ++ [(local_path, vip_path)]), Ok false).

(** [_upload_file] *)
Definition _upload_file (local_path vip_path : ppath) : M remote bool :=
  vip_upload local_path vip_path.

(** The loop [for local_file in files_to_upload] of [_upload_dir] *)
Fixpoint upload_files (vip_path : ppath) (files_to_upload : list ppath)
  : M remote (list string) :=
  match files_to_upload with
  | [] => ret []
  | local_file :: rest =>
      let vip_file := child vip_path (name local_file) in
      let* done := _upload_file local_file vip_file in
      let* failures := upload_files vip_path rest in
      ret (if (done : bool) then failures else str local_file :: failures)
  end.

(** [[elem for elem in local_path.iterdir() if elem.is_file()]] *)
Definition local_files (local_path : ppath) (entries : list (string * ltree)) : list ppath :=
  map (fun e => entry local_path e.1) (List.filter (fun e => is_file e.2) entries).

(** [_upload_dir]; a [local_path] that is not a directory fails in [iterdir]. *)
Fixpoint _upload_dir (t : ltree) (local_path vip_path : ppath) {struct t}
  : M remote (list string) :=
  match t with
  | LDir entries =>
      let* created := _mkdirs vip_exists vip_create_dir vip_path in
      let* files_to_upload :=
        (if truthy created then ret (local_files local_path entries)
         else
           let* elements := vip_list_elements vip_path in
           let vip_filenames := map name elements in
           ret (List.filter (fun f => negb (bool_decide (name f ∈ vip_filenames)))
                            (local_files local_path entries))) in
      let* failures := upload_files vip_path files_to_upload in
      let* below :=
        (fix subdirs (es : list (string * ltree)) : M remote (list string) :=
           match es with
           | [] => ret []
           | (n, t') :: es' =>
               if is_dir t' then
                 let* f := _upload_dir t' (entry local_path n) (child vip_path n) in
                 let* fs := subdirs es' in
                 ret (f ++ fs)
               else subdirs es'
           end) entries in
      ret (failures ++ below)
  | _ => raise NotADirectoryError
  end.

End Upload.

(** Entry names that are names of directory entries, at every depth *)
Fixpoint wf_tree (t : ltree) : Prop :=
  match t with
  | LDir entries =>
      (fix all (es : list (string * ltree)) : Prop :=
         match es with
         | [] => True
         | (n, t') :: es' => valid_name n ∧ wf_tree t' ∧ all es'
         end) entries
  | _ => True
  end.

End Sync.

(** ** The two classes *)

Module Client.

Import Settings.

(** *** Data *)

(** One element of [outputs]: the keys kept by [_get_exec_infos], each of
    them present or not. *)
Record output : Type := Output {
  o_path : option string;
  o_isDirectory : option bool;
  o_size : option Z;
  o_mimeType : option string
}.

(** One entry of the workflow inventory *)
Record workflow : Type := Workflow {
  status : string;
  start : string;
  outputs : list output
}.

Definition registry : Type := dict workflow.

Global Instance output_eq_dec : EqDecision output.
Proof. solve_decision. Defined.

Global Instance workflow_eq_dec : EqDecision workflow.
Proof. solve_decision. Defined.

(** JSON documents *)
Inductive json : Type :=
  | JNull
  | JBool (b : bool)
  | JNum (z : Z)
  | JStr (s : string)
  | JList (l : list json)
  | JObj (o : list (string * json)).

(** What a local file holds: a JSON document, a gzip archive with its
    members (paths relative to the extraction directory; [sound] tells
    whether [extractall] gets to the end), or other data. *)
Inductive content : Type :=
  | Text (doc : json)
  | Tarball (members : list (ppath * string)) (sound : bool)
  | Data (tag : string).

Inductive lnode : Type :=
  | Dir
  | File (c : content).

(** Python objects that session data are made of *)
Inductive pyobj : Type :=
  | PNone
  | PBool (b : bool)
  | PInt (z : Z)
  | PStr (s : string)
  | PPathObj (p : ppath)
  | PList (l : list pyobj)
  | PDict (d : list (string * pyobj)).

(** The requests sent to the remote service, the pauses of the client, and
    the lines it displays about workflows whose data were removed *)
Inductive event : Type :=
  | EvExists (path : string)
  | EvCreateDir (path : string)
  | EvDeletePath (path : string)
  | EvInitExec
  | EvExecutionInfo (wid : string)
  | EvExecResults (wid : string)
  | EvDownload (vip_path local_path : string)
  | EvReportRemoved (wid : string)
  | EvSleep (seconds : Z).

Inductive klass : Type := VipLauncher | VipSession.

(** The attributes of a session ([None]: the attribute is not defined), the
    two class attributes, and the environment: clock in seconds, requests
    made so far (oldest first), local file system by resolved path. *)
Record state : Type := State {
  _session_name : option string;
  _pipeline_id : option string;
  _vip_output_dir : option ppath;
  _input_settings : option (dict value);
  _workflows : option registry;
  _local_input_dir : option ppath;
  _local_output_dir : option ppath;
  _vip_input_dir : option ppath;
  _PIPELINES : list string;
  _VERBOSE : bool;
  now : Z;
  hist : list event;
  lfs : gmap ppath lnode
}.

Definition set_session_name (v : option string) (st : state) : state :=
  State v (_pipeline_id st) (_vip_output_dir st) (_input_settings st) (_workflows st)
        (_local_input_dir st) (_local_output_dir st) (_vip_input_dir st)
        (_PIPELINES st) (_VERBOSE st) (now st) (hist st) (lfs st).

Definition set_pipeline_id (v : option string) (st : state) : state :=
  State (_session_name st) v (_vip_output_dir st) (_input_settings st) (_workflows st)
        (_local_input_dir st) (_local_output_dir st) (_vip_input_dir st)
        (_PIPELINES st) (_VERBOSE st) (now st) (hist st) (lfs st).

Definition set_vip_output_dir (v : option ppath) (st : state) : state :=
  State (_session_name st) (_pipeline_id st) v (_input_settings st) (_workflows st)
        (_local_input_dir st) (_local_output_dir st) (_vip_input_dir st)
        (_PIPELINES st) (_VERBOSE st) (now st) (hist st) (lfs st).

Definition set_input_settings (v : option (dict value)) (st : state) : state :=
  State (_session_name st) (_pipeline_id st) (_vip_output_dir st) v (_workflows st)
        (_local_input_dir st) (_local_output_dir st) (_vip_input_dir st)
        (_PIPELINES st) (_VERBOSE st) (now st) (hist st) (lfs st).

Definition set_workflows (v : option registry) (st : state) : state :=
  State (_session_name st) (_pipeline_id st) (_vip_output_dir st) (_input_settings st) v
        (_local_input_dir st) (_local_output_dir st) (_vip_input_dir st)
        (_PIPELINES st) (_VERBOSE st) (now st) (hist st) (lfs st).

Definition set_local_input_dir (v : option ppath) (st : state) : state :=
  State (_session_name st) (_pipeline_id st) (_vip_output_dir st) (_input_settings st)
        (_workflows st) v (_local_output_dir st) (_vip_input_dir st)
        (_PIPELINES st) (_VERBOSE st) (now st) (hist st) (lfs st).

Definition set_local_output_dir (v : option ppath) (st : state) : state :=
  State (_session_name st) (_pipeline_id st) (_vip_output_dir st) (_input_settings st)
        (_workflows st) (_local_input_dir st) v (_vip_input_dir st)
        (_PIPELINES st) (_VERBOSE st) (now st) (hist st) (lfs st).

Definition set_vip_input_dir (v : option ppath) (st : state) : state :=
  State (_session_name st) (_pipeline_id st) (_vip_output_dir st) (_input_settings st)
        (_workflows st) (_local_input_dir st) (_local_output_dir st) v
        (_PIPELINES st) (_VERBOSE st) (now st) (hist st) (lfs st).

Definition set_VERBOSE (v : bool) (st : state) : state :=
  State (_session_name st) (_pipeline_id st) (_vip_output_dir st) (_input_settings st)
        (_workflows st) (_local_input_dir st) (_local_output_dir st) (_vip_input_dir st)
        (_PIPELINES st) v (now st) (hist st) (lfs st).

Definition set_now (v : Z) (st : state) : state :=
  State (_session_name st) (_pipeline_id st) (_vip_output_dir st) (_input_settings st)
        (_workflows st) (_local_input_dir st) (_local_output_dir st) (_vip_input_dir st)
        (_PIPELINES st) (_VERBOSE st) v (hist st) (lfs st).

Definition set_hist (v : list event) (st : state) : state :=
  State (_session_name st) (_pipeline_id st) (_vip_output_dir st) (_input_settings st)
        (_workflows st) (_local_input_dir st) (_local_output_dir st) (_vip_input_dir st)
        (_PIPELINES st) (_VERBOSE st) (now st) v (lfs st).

Definition set_lfs (v : gmap ppath lnode) (st : state) : state :=
  State (_session_name st) (_pipeline_id st) (_vip_output_dir st) (_input_settings st)
        (_workflows st) (_local_input_dir st) (_local_output_dir st) (_vip_input_dir st)
        (_PIPELINES st) (_VERBOSE st) (now st) (hist st) v.

(** The attributes read by the path virtualizer *)
Definition dirs_of (st : state) : dirs :=
  Dirs (_local_input_dir st) (_vip_input_dir st) (_input_settings st).

(** Modelled from the spec: the remote storage and execution backend of
    section 6 (module [vip], which is not in the sources). Each answer may
    depend on the whole state, requests made so far and clock included.
    [vip_download] gives the content written at the local path, or [None]
    when the transfer fails; [strftime fmt t] renders the time [t]. *)
Record backend : Type := Backend {
  vip_exists : state -> string -> result bool;
  vip_create_dir : state -> string -> result bool;
  vip_delete_path : state -> string -> bool;
  vip_init_exec : state -> result string;
  vip_execution_info : state -> string -> result (string * Z);
  vip_get_exec_results : state -> string -> result (list output);
  vip_download : state -> string -> string -> option content;
  strftime : string -> Z -> string
}.

(** A string or a path object, as the directory properties accept *)
Inductive pathlike : Type :=
  | AStr (s : string)
  | APath (p : ppath).

(** [PurePosixPath(x)] and [Path(x)] *)
Definition to_path (x : pathlike) : ppath :=
  match x with
  | AStr s => PurePosixPath s
  | APath p => p
  end.

(** [x != s] for a string [s]: a path object never equals a string. *)
Definition differs_from_str (x : pathlike) (s : string) : bool :=
  match x with
  | AStr s' => negb (String.eqb s' s)
  | APath _ => true
  end.

Definition class_name (cls : klass) : string :=
  match cls with
  | VipLauncher => "VipLauncher"
  | VipSession => "VipSession"
  end.

(** Modelled from the spec: [_SAVE_FILE] is read by [_save_session] and
    [_load_session] but declared in neither class; the constructor's
    docstring and section 6 name the file. *)
Definition _SAVE_FILE : string := "session_data.json".

Definition _SERVER_DEFAULT_PATH : ppath := PurePosixPath "/vip/Home/API/".
Definition _LOCAL_DEFAULT_PATH : ppath := PurePosixPath "./vip_outputs".

(** [c.isalnum()] for the characters of ASCII names *)
Definition isalnum (c : ascii) : bool :=
  let n := nat_of_ascii c in
  ((48 <=? n) && (n <=? 57)) || ((65 <=? n) && (n <=? 90))
  || ((97 <=? n) && (n <=? 122)).

Fixpoint string_forallb (f : ascii -> bool) (s : string) : bool :=
  match s with
  | EmptyString => true
  | String c s' => f c && string_forallb f s'
  end.

(** [self.x] for an attribute that may be undefined *)
Definition attr {A} (f : state -> option A) : M state A :=
  fun st => match f st with
            | Some v => (st, Ok v)
            | None => (st, Raise AttributeError)
            end.

(** *** Properties of VipLauncher *)

(** [_check_session_name] *)
Definition _check_session_name (name0 : string) : M state unit :=
  let* name1 := (if String.eqb name0 "" then attr _session_name else ret name0) in
  if string_forallb
       (fun letter => isalnum letter
                      || bool_decide (letter ∈ ["_"; "-"; " "]%char))
       name1
  then ret tt
  else raise ValueError.

(** [session_name.setter] *)
Definition session_name_setter (name0 : string) : M state unit :=
  let* cur := gets _session_name in
  match cur with
  | Some c =>
      if negb (String.eqb name0 c) then raise ValueError
      else _check_session_name name0 >> modify (set_session_name (Some name0))
  | None => _check_session_name name0 >> modify (set_session_name (Some name0))
  end.

(** [_check_pipeline_id]; the error messages read [self._session_name]. *)
Definition _check_pipeline_id (pipeline_id : string) : M state bool :=
  let* pid :=
    (if String.eqb pipeline_id "" then
       let* cur := gets _pipeline_id in
       match cur with
       | Some p => ret p
       | None => attr _session_name >> raise TypeError
       end
     else ret pipeline_id) in
  let* pipelines := gets _PIPELINES in
  match pipelines with
  | [] => ret false
  | _ => if bool_decide (pid ∈ pipelines) then ret true else raise ValueError
  end.

(** [pipeline_id.setter] *)
Definition pipeline_id_setter (pId : string) : M state unit :=
  let* cur := gets _pipeline_id in
  match cur with
  | Some c =>
      if negb (String.eqb pId c) then attr _session_name >> raise ValueError
      else _check_pipeline_id pId >> modify (set_pipeline_id (Some pId))
  | None => _check_pipeline_id pId >> modify (set_pipeline_id (Some pId))
  end.

(** [input_settings.setter] *)
Definition input_settings_setter (new_settings : dict value) : M state unit :=
  let* cur := gets _input_settings in
  match cur with
  | Some c =>
      if negb (dict_eqb value_eqb new_settings c)
      then attr _session_name >> raise ValueError
      else modify (set_input_settings (Some new_settings))
  | None => modify (set_input_settings (Some new_settings))
  end.

(** [vip_output_dir.setter]: the new value is compared with the string
    given by the property. *)
Definition vip_output_dir_setter (new_dir : pathlike) : M state unit :=
  let* cur := gets _vip_output_dir in
  match cur with
  | Some c =>
      if differs_from_str new_dir (str c)
      then attr _session_name >> raise ValueError
      else modify (set_vip_output_dir (Some (to_path new_dir)))
  | None => modify (set_vip_output_dir (Some (to_path new_dir)))
  end.

(** [workflows.setter] *)
Definition workflows_setter (workflows : registry) : M state unit :=
  let* cur := gets _workflows in
  match cur with
  | Some c =>
      if negb (dict_eqb (fun a b => bool_decide (a = b)) workflows c)
      then attr _session_name >> raise ValueError
      else modify (set_workflows (Some workflows))
  | None => modify (set_workflows (Some workflows))
  end.

Section Methods.

Variable B : backend.

(** The current working directory of the process *)
Variable cwd : ppath.

(** Modelled from the spec: [_SERVER_PATH_PREFIX] is read by
    [_parse_input_settings] but declared in neither class; it is the
    "configured remote-namespace prefix" of section 4.1. *)
Variable _SERVER_PATH_PREFIX : string.

(** *** Requests and errors *)

Definition request (e : event) : M state unit :=
  modify (fun st => set_hist (hist st ++ [e]) st).

Definition nl : string := String (ascii_of_nat 10) EmptyString.
Definition tab : string := String (ascii_of_nat 9) EmptyString.

(** The message built by [_handle_vip_error] *)
Definition interpret (cls : klass) (message : string) : string :=
  if String.prefix "Error 8002" message || String.prefix "Error 8003" message
     || String.prefix "Error 8004" message
  then "Unable to communicate with VIP."
       +:+ nl +:+ "Run " +:+ class_name cls
       +:+ ".init() with a valid API key to handshake with VIP servers."
       +:+ nl +:+ "(" +:+ message +:+ ")"
  else if String.prefix "Error 8000" message
  then nl +:+ tab +:+ "'" +:+ message +:+ "'"
       +:+ nl +:+ "Please carefully check that session_name / pipeline_id / input_parameters "
       +:+ "are valid and do not contain any forbidden character."
       +:+ nl +:+ "If this cannot be fixed, contact VIP support (vip-support@creatis.insa-lyon.fr)."
  else if String.prefix "Error 2000" message || String.prefix "Error 2001" message
  then nl +:+ tab +:+ "'" +:+ message +:+ "'"
       +:+ nl +:+ "Please wait until current executions are over, "
       +:+ "or contact VIP support (vip-support@creatis.insa-lyon.fr) to increase this limit."
  else nl +:+ tab +:+ message
       +:+ nl +:+ "If this cannot be fixed, contact VIP support (vip-support@creatis.insa-lyon.fr).".

(** [_handle_vip_error]: always raises. *)
Definition _handle_vip_error {A} (cls : klass) (message : string) : M state A :=
  raise (RuntimeError (interpret cls message)).

(** [try: ... except RuntimeError as vip_error: cls._handle_vip_error(vip_error)]
    around an answer of the service *)
Definition answered {A} (cls : klass) (r : result A) : M state A :=
  match r with
  | Raise (RuntimeError m) => _handle_vip_error cls m
  | _ => lift r
  end.

(** The same with [except json.decoder.JSONDecodeError: raise ValueError] *)
Definition answered_json {A} (cls : klass) (r : result A) : M state A :=
  match r with
  | Raise (RuntimeError m) => _handle_vip_error cls m
  | Raise JSONDecodeError => raise ValueError
  | _ => lift r
  end.

(** *** Local file system *)

Definition local_lookup (st : state) (p : ppath) : option lnode :=
  match pparts (resolve cwd p) with
  | [] => Some Dir
  | _ => lfs st !! resolve cwd p
  end.

Definition local_exists (st : state) (p : ppath) : bool :=
  bool_decide (is_Some (local_lookup st p)).

Definition local_is_dir (st : state) (p : ppath) : bool :=
  match local_lookup st p with Some Dir => true | _ => false end.

Definition local_is_file (st : state) (p : ppath) : bool :=
  match local_lookup st p with Some (File _) => true | _ => false end.

Definition local_write (p : ppath) (n : lnode) : M state unit :=
  modify (fun st => set_lfs (<[resolve cwd p := n]> (lfs st)) st).

(** [path.mkdir()] *)
Definition local_mkdir (p : ppath) : M state unit :=
  let* st := get in
  if local_exists st p then raise FileExistsError
  else if negb (local_is_dir st (parent (resolve cwd p))) then raise FileNotFoundError
  else local_write p Dir.

(** The key of an entry after the directory [src] has become [dst] *)
Definition rekey (src dst k : ppath) : ppath :=
  match strip_prefix (pparts src) (pparts k) with
  | Some rest => {| proot := "/"; pparts := pparts dst ++ rest |}
  | None => k
  end.

Definition below (dir k : ppath) : bool :=
  match strip_prefix (pparts dir) (pparts k) with
  | Some (_ :: _) => true
  | _ => false
  end.

(** [os.rename(src, dst)] *)
Definition os_rename (src dst : ppath) : M state unit :=
  let* st := get in
  let s := resolve cwd src in
  let d := resolve cwd dst in
  match local_lookup st src with
  | Some (File c) =>
      match local_lookup st dst with
      | Some Dir => raise IsADirectoryError
      | _ =>
          if negb (local_is_dir st (parent d)) then raise FileNotFoundError
          else if bool_decide (s = d) then ret tt
          else modify (fun st => set_lfs (<[d := File c]> (delete s (lfs st))) st)
      end
  | Some Dir =>
      match local_lookup st dst with
      | Some (File _) => raise NotADirectoryError
      | _ =>
          if negb (local_is_dir st (parent d)) then raise FileNotFoundError
          else if bool_decide (s = d) then ret tt
          else if below s d || bool_decide (pparts s = []) then raise OSError
          else if existsb (fun k => below d k) (elements (dom (lfs st)))
          then raise OSError
          else modify (fun st =>
                 set_lfs (list_to_map (map (fun kn => (rekey s d kn.1, kn.2))
                                           (map_to_list (lfs st)))) st)
      end
  | None => raise FileNotFoundError
  end.

(** [os.remove(path)] *)
Definition os_remove (p : ppath) : M state unit :=
  let* st := get in
  match local_lookup st p with
  | Some (File _) => modify (fun st => set_lfs (delete (resolve cwd p) (lfs st)) st)
  | Some Dir => raise IsADirectoryError
  | None => raise FileNotFoundError
  end.

(** *** Overridable methods: [_exists], [_create_dir], [_path_to_delete] *)

(** [VipLauncher._exists] *)
Definition launcher_exists (cls : klass) (path : ppath) (location : string) : M state bool :=
  if negb (String.eqb location "vip") then raise NotImplementedError
  else request (EvExists (str path)) >>
       let* st := get in
       answered_json cls (vip_exists B st (str path)).

(** [cls._exists]: [VipSession] answers for the local file system itself. *)
Definition _exists (cls : klass) (path : ppath) (location : string) : M state bool :=
  match cls with
  | VipLauncher => launcher_exists cls path location
  | VipSession =>
      if String.eqb location "local" then gets (fun st => local_exists st path)
      else launcher_exists cls path location
  end.

(** [VipLauncher._create_dir] *)
Definition launcher_create_dir (cls : klass) (path : ppath) (location : string) : M state unit :=
  if negb (String.eqb location "vip") then raise NotImplementedError
  else request (EvCreateDir (str path)) >>
       let* st := get in
       let* created := answered_json cls (vip_create_dir B st (str path)) in
       if (created : bool) then ret tt else raise AssertionError.

(** [cls._create_dir] *)
Definition _create_dir (cls : klass) (path : ppath) (location : string) : M state unit :=
  match cls with
  | VipLauncher => launcher_create_dir cls path location
  | VipSession =>
      if String.eqb location "local" then
        let* st := get in
        if local_is_dir st (parent path) then local_mkdir path
        else raise AssertionError
      else launcher_create_dir cls path location
  end.

(** [cls._mkdirs] *)
Definition _mkdirs (cls : klass) (path : ppath) (location : string) : M state string :=
  Dirs._mkdirs (fun p => _exists cls p location) (fun p => _create_dir cls p location) path.

(** [_vip_dir] of VipSession *)
Definition _vip_dir : M state ppath :=
  let* n := attr _session_name in
  ret (child _SERVER_DEFAULT_PATH n).

(** [cls._path_to_delete]: one path, on VIP *)
Definition _path_to_delete (cls : klass) : M state (list (ppath * string)) :=
  match cls with
  | VipLauncher => let* d := attr _vip_output_dir in ret [(d, "vip")]
  | VipSession => let* d := _vip_dir in ret [(d, "vip")]
  end.

(** [_delete_path], which no class overrides *)
Definition _delete_path (path : ppath) (location : string) : M state unit :=
  if negb (String.eqb location "vip") then raise NotImplementedError
  else request (EvDeletePath (str path)) >>
       let* st := get in
       if vip_delete_path B st (str path) then ret tt
       else raise (RuntimeError (nl +:+ "'" +:+ str path
                                 +:+ "' could not be removed from VIP servers."))
  .

(** [time.sleep(seconds)] *)
Definition sleep (seconds : Z) : M state unit :=
  if (seconds <? 0)%Z then raise ValueError
  else modify (fun st => set_now (now st + seconds)%Z (set_hist (hist st ++ [EvSleep seconds]) st)).

(** [_delete_and_check]: the argument [timeout] is replaced by 300 before
    it is read; a pause lasts two seconds, so 300 rounds of the loop are
    more than it can make. *)
Definition _delete_and_check (cls : klass) (path : ppath) (location : string)
    (timeout : Z) : M state bool :=
  _delete_path path location >>
  let* start := gets now in
  let timeout := 300%Z in
  while (Z.to_nat timeout)
        (let* t := gets (fun st => (now st - start)%Z) in
         if (t <? timeout)%Z then _exists cls path location else ret false)
        (sleep 2) >>
  let* t := gets (fun st => (now st - start)%Z) in
  ret (t <? timeout)%Z.

(** *** Reading the properties *)

(** The Python object that a value of [input_settings] is *)
Fixpoint value_obj (v : value) : pyobj :=
  match v with
  | VStr s => PStr s
  | VPath p => PPathObj p
  | VList l => PList (map value_obj l)
  | VOther i => PInt i
  end.

Definition option_obj {A} (f : A -> pyobj) (o : option A) : pyobj :=
  match o with
  | Some a => f a
  | None => PNone
  end.

Definition present {A} (k : string) (f : A -> pyobj) (o : option A)
  : list (string * pyobj) :=
  match o with
  | Some a => [(k, f a)]
  | None => []
  end.

Definition output_obj (o : output) : pyobj :=
  PDict (present "path" PStr (o_path o) ++ present "isDirectory" PBool (o_isDirectory o)
         ++ present "size" PInt (o_size o) ++ present "mimeType" PStr (o_mimeType o)).

Definition workflow_obj (w : workflow) : pyobj :=
  PDict [("status", PStr (status w)); ("start", PStr (start w));
         ("outputs", PList (map output_obj (outputs w)))].

Definition dict_obj {V} (f : V -> pyobj) (d : dict V) : pyobj :=
  PDict (map (fun kv => (kv.1, f kv.2)) d).

(** [getattr(self, prop)] for the properties of the two classes: a directory
    is read as a string. *)
Definition getattr (st : state) (prop : string) : result pyobj :=
  if String.eqb prop "session_name" then Ok (option_obj PStr (_session_name st))
  else if String.eqb prop "pipeline_id" then Ok (option_obj PStr (_pipeline_id st))
  else if String.eqb prop "local_input_dir"
  then Ok (option_obj (fun d => PStr (str d)) (_local_input_dir st))
  else if String.eqb prop "local_output_dir"
  then Ok (option_obj (fun d => PStr (str d)) (_local_output_dir st))
  else if String.eqb prop "vip_input_dir"
  then Ok (option_obj (fun d => PStr (str d)) (_vip_input_dir st))
  else if String.eqb prop "vip_output_dir"
  then Ok (option_obj (fun d => PStr (str d)) (_vip_output_dir st))
  else if String.eqb prop "input_settings"
  then Ok (option_obj (dict_obj value_obj) (_input_settings st))
  else if String.eqb prop "workflows"
  then Ok (option_obj (dict_obj workflow_obj) (_workflows st))
  else Raise AttributeError.

(** [cls._PROPERTIES] *)
Definition _PROPERTIES (cls : klass) : list string :=
  match cls with
  | VipLauncher =>
      ["session_name"; "pipeline_id"; "vip_output_dir"; "input_settings"; "workflows"]
  | VipSession =>
      ["session_name"; "pipeline_id"; "local_input_dir"; "local_output_dir";
       "vip_input_dir"; "vip_output_dir"; "input_settings"; "workflows"]
  end.

(** [self._get] called with several properties *)
Definition _get (props : list string) : M state pyobj :=
  let* st := get in
  let* items :=
    lift (comprehension (fun prop => match getattr st prop with
                                     | Ok v => Ok (prop, v)
                                     | Raise e => Raise e
                                     | Unfinished => Unfinished
                                     end) props) in
  ret (PDict items).

(** *** Session backup (VipSession, section C) *)

(** [json.dump]: a path object is not serializable. *)
Fixpoint to_json (x : pyobj) : result json :=
  match x with
  | PNone => Ok JNull
  | PBool b => Ok (JBool b)
  | PInt z => Ok (JNum z)
  | PStr s => Ok (JStr s)
  | PPathObj _ => Raise TypeError
  | PList l =>
      match comprehension to_json l with
      | Ok l' => Ok (JList l')
      | Raise e => Raise e
      | Unfinished => Unfinished
      end
  | PDict d =>
      match comprehension
              (fun kv => match to_json kv.2 with
                         | Ok j => Ok (kv.1, j)
                         | Raise e => Raise e
                         | Unfinished => Unfinished
                         end) d with
      | Ok o => Ok (JObj o)
      | Raise e => Raise e
      | Unfinished => Unfinished
      end
  end.

(** [json.load] *)
Fixpoint of_json (j : json) : pyobj :=
  match j with
  | JNull => PNone
  | JBool b => PBool b
  | JNum z => PInt z
  | JStr s => PStr s
  | JList l => PList (map of_json l)
  | JObj o => PDict (map (fun kv => (kv.1, of_json kv.2)) o)
  end.

Definition _save_session_sig : signature := Sig ["session_data"] 1.
Definition _load_session_sig : signature := Sig [] 0.
Definition _execution_report_sig : signature := Sig ["verbose"] 0.

(** A call [self.method(...)]: the arguments are bound to the parameters of
    the [def] before its body runs. *)
Definition call {A} (sg : signature) (npos : nat) (kws : list string)
    (body : M state A) : M state A :=
  lift (bind_args sg npos kws) >> body.

(** Body of [_save_session]; opening the file for writing empties it before
    [json.dump] runs. *)
Definition _save_session (session_data : pyobj) : M state bool :=
  let* out := gets _local_output_dir in
  match out with
  | None => ret false
  | Some local_output_dir =>
      let file := child local_output_dir _SAVE_FILE in
      let* is_new := _mkdirs VipSession (parent file) "local" in
      let* st := get in
      if local_is_dir st file then raise IsADirectoryError
      else
        local_write file (File (Data "")) >>
        let* doc := lift (to_json session_data) in
        local_write file (File (Text doc)) >>
        ret true
  end.

(** Body of [_load_session] *)
Definition _load_session : M state (option (dict pyobj)) :=
  let* out := gets _local_output_dir in
  match out with
  | None => ret None
  | Some local_output_dir =>
      let file := child local_output_dir _SAVE_FILE in
      let* st := get in
      match local_lookup st file with
      | Some (File (Text doc)) =>
          match of_json doc with
          | PDict session_data =>
              ret (Some (dict_set session_data "local_output_dir"
                                  (PPathObj (parent file))))
          | _ => raise TypeError
          end
      | Some (File _) => raise JSONDecodeError
      | _ => ret None
      end
  end.

(** *** Workflow inventory (VipLauncher, section A.4) *)

Definition get_workflows : M state registry := attr _workflows.

(** The report built by [_execution_report] *)
Definition execution_report (workflows : registry) : dict (list string) :=
  fold_left
    (fun report kv =>
       match dict_get report (status kv.2) with
       | Some wids => dict_set report (status kv.2) (wids ++ [kv.1])
       | None => dict_set report (status kv.2) [kv.1]
       end)
    workflows [].

(** [_execution_report]: the display changes nothing. *)
Definition _execution_report : M state (dict (list string)) :=
  let* workflows := get_workflows in
  ret (execution_report workflows).

(** [_still_running] *)
Definition _still_running : M state nat :=
  let* workflows := get_workflows in
  ret (length (List.filter (fun kv => String.eqb (status kv.2) "Running") workflows)).

(** [_get_exec_infos] *)
Definition _get_exec_infos (cls : klass) (workflow_id : string) : M state workflow :=
  let* answers :=
    catch_runtime
      (request (EvExecutionInfo workflow_id) >>
       let* st := get in
       let* infos := lift (vip_execution_info B st workflow_id) in
       request (EvExecResults workflow_id) >>
       let* st' := get in
       let* files := lift (vip_get_exec_results B st' workflow_id) in
       ret (infos, files))
      (_handle_vip_error cls) in
  ret {| status := answers.1.1;
         start := strftime B "%Y/%m/%d %H:%M:%S" (answers.1.2 / 1000)%Z;
         outputs := answers.2 |}.

(** [self._workflows[wid] = infos] and [self._workflows[wid].update(infos)],
    which replaces the three keys of an entry *)
Definition store_workflow (wid : string) (infos : workflow) : M state unit :=
  let* workflows := get_workflows in
  modify (set_workflows (Some (dict_set workflows wid infos))).

(** [VipLauncher._update_workflows] *)
Definition launcher_update_workflows (cls : klass) : M state unit :=
  let* workflows := get_workflows in
  for_each (dict_keys workflows) (fun wid =>
    let* current := get_workflows in
    match dict_get current wid with
    | Some w =>
        if negb (String.eqb (status w) "Removed")
        then let* infos := _get_exec_infos cls wid in store_workflow wid infos
        else ret tt
    | None => raise KeyError
    end).

(** [self._update_workflows(...)]: [VipSession] saves the session afterwards,
    by the call [self._save_session(display=False)]. *)
Definition _update_workflows (cls : klass) (save_session : bool) : M state unit :=
  match cls with
  | VipLauncher => launcher_update_workflows cls
  | VipSession =>
      launcher_update_workflows cls >>
      if save_session then
        modify (set_VERBOSE false) >>
        call _save_session_sig 0 ["display"] (_save_session PNone) >>
        ret tt
      else ret tt
  end.

(** *** Lifecycle (VipLauncher, section A) *)

(** [try: ... finally: f] *)
Definition finally {A} (m : M state A) (f : M state unit) : M state A :=
  fun st =>
    match m st with
    | (st', Unfinished) => (st', Unfinished)
    | (st', r) =>
        match f st' with
        | (st'', Ok _) => (st'', r)
        | (st'', Raise e) => (st'', Raise e)
        | (st'', Unfinished) => (st'', Unfinished)
        end
    end.

(** [_init_exec] *)
Definition _init_exec : M state string :=
  request EvInitExec >>
  let* st := get in
  lift (vip_init_exec B st).

(** One round of the loop [for nEx in range(nb_runs)] of [launch_pipeline] *)
Definition launch_one (cls : klass) (nEx : nat) : M state unit :=
  let* workflow_id := catch_runtime _init_exec (_handle_vip_error cls) in
  let* exec_infos :=
    catch_runtime (_get_exec_infos cls workflow_id) (_handle_vip_error cls) in
  store_workflow workflow_id exec_infos.

Definition launch_loop (cls : klass) (nb_runs : Z) : M state unit :=
  for_each (seq 0 (Z.to_nat nb_runs)) (launch_one cls).

(** [cls._check_input_settings(location=...)]: the validation of the settings
    against the descriptor of the pipeline, which belongs to the catalogue
    of the service. *)
Variable _check_input_settings : klass -> string -> M state bool.

(** The parameter checks of [VipLauncher.launch_pipeline], which come before
    the first start request; an argument left to its default is [None]. *)
Definition launch_checks (cls : klass) (pipeline_id : option string)
    (input_settings : option (dict value)) (output_dir : option pathlike)
  : M state unit :=
  (match pipeline_id with
   | Some pId => if truthy pId then pipeline_id_setter pId else ret tt
   | None => ret tt
   end) >>
  let* checked := _check_pipeline_id "" in
  if negb checked then raise TypeError
  else
    (match output_dir with
     | Some (AStr EmptyString) | None => ret tt
     | Some new_dir => vip_output_dir_setter new_dir
     end) >>
    let* out := gets _vip_output_dir in
    match out with
    | None => attr _session_name >> raise TypeError
    | Some vip_output_dir =>
        _mkdirs cls vip_output_dir "vip" >>
        (match input_settings with
         | Some (_ :: _ as new_settings) => input_settings_setter new_settings
         | _ => ret tt
         end) >>
        let* settings := gets _input_settings in
        match settings with
        | None => attr _session_name >> raise TypeError
        | Some _ => _check_input_settings cls "vip" >> ret tt
        end
    end.

(** [VipLauncher.launch_pipeline] *)
Definition launcher_launch_pipeline (cls : klass) (pipeline_id : option string)
    (input_settings : option (dict value)) (output_dir : option pathlike)
    (nb_runs : Z) : M state unit :=
  launch_checks cls pipeline_id input_settings output_dir >>
  launch_loop cls nb_runs.

(** [self.launch_pipeline(...)]: [VipSession] passes its own output
    directory and ends with the call [self._save_session()]. *)
Definition launch_pipeline (cls : klass) (pipeline_id : option string)
    (input_settings : option (dict value)) (output_dir : option pathlike)
    (nb_runs : Z) : M state unit :=
  match cls with
  | VipLauncher =>
      launcher_launch_pipeline cls pipeline_id input_settings output_dir nb_runs
  | VipSession =>
      finally
        (let* out := gets _vip_output_dir in
         launcher_launch_pipeline cls pipeline_id input_settings
           (option_map (fun d => AStr (str d)) out) nb_runs)
        (call _save_session_sig 0 [] (_save_session PNone) >> ret tt)
  end.

(** [monitor_workflows]; the waiting loop is unrolled [fuel] times. *)
Definition monitor_workflows (cls : klass) (fuel : nat) (refresh_time : Z)
    (verbose : bool) : M state unit :=
  let* workflows := get_workflows in
  match workflows with
  | [] => ret tt
  | _ =>
      _update_workflows cls true >>
      let* running := _still_running in
      (if 0 <? running then
         call _execution_report_sig 1 [] _execution_report >>
         while fuel
               (let* n := _still_running in ret (0 <? n))
               (sleep refresh_time >> _update_workflows cls true)
       else ret tt) >>
      call _execution_report_sig 1 [] _execution_report >>
      ret tt
  end.

(** The loop of [finish] that marks the workflows whose outputs are gone *)
Definition mark_removed (cls : klass) : M state unit :=
  let* workflows := get_workflows in
  for_each (dict_keys workflows) (fun wid =>
    let* current := get_workflows in
    match dict_get current wid with
    | None => raise KeyError
    | Some w =>
        let* gone :=
          match outputs w with
          | [] => ret true
          | first :: _ =>
              match o_path first with
              | None => raise KeyError
              | Some path =>
                  let* e := _exists cls (parent (PurePosixPath path)) "vip" in
                  ret (negb e)
              end
          end in
        if (gone : bool)
        then store_workflow wid {| status := "Removed"; start := start w;
                                   outputs := outputs w |}
        else ret tt
    end).

(** [VipLauncher.finish] *)
Definition launcher_finish (cls : klass) (timeout : Z) (verbose : bool) : M state unit :=
  let* running := _still_running in
  let* blocked :=
    (if 0 <? running then
       _update_workflows cls true >>
       let* running' := _still_running in
       if 0 <? running' then
         (if verbose
          then call _execution_report_sig 0 ["verbose"] _execution_report >> ret tt
          else ret tt) >>
         ret true
       else ret false
     else ret false) in
  if (blocked : bool) then ret tt
  else
    let* paths := _path_to_delete cls in
    for_each paths (fun pl =>
      let* e := _exists cls pl.1 pl.2 in
      if (e : bool) then _delete_and_check cls pl.1 pl.2 timeout >> ret tt
      else ret tt) >>
    mark_removed cls.

(** [self.finish(...)]: [VipSession] then looks whether input data of another
    session are still on VIP, to tell the user. *)
Definition finish (cls : klass) (timeout : Z) (verbose : bool) : M state unit :=
  match cls with
  | VipLauncher => launcher_finish cls timeout verbose
  | VipSession =>
      launcher_finish cls timeout verbose >>
      let* vip_input_dir := attr _vip_input_dir in
      let* vip_dir := _vip_dir in
      if bool_decide (vip_input_dir = child vip_dir "INPUTS") then ret tt
      else _exists cls vip_input_dir "vip" >> ret tt
  end.

(** *** Properties and constructor of VipSession *)

(** [_update_input_settings] *)
Definition _update_input_settings : M state unit :=
  let* cur := gets _input_settings in
  match cur with
  | Some settings =>
      let* st := get in
      let* parsed :=
        lift (_parse_input_settings _SERVER_PATH_PREFIX cwd (dirs_of st) settings) in
      modify (set_input_settings (Some parsed))
  | None => ret tt
  end.

(** [local_input_dir.setter] *)
Definition local_input_dir_setter (new_dir : pathlike) : M state unit :=
  let new_path := to_path new_dir in
  let* cur := gets _local_input_dir in
  match cur with
  | Some c =>
      if negb (bool_decide (resolve cwd new_path = resolve cwd c))
      then attr _session_name >> raise ValueError
      else modify (set_local_input_dir (Some new_path)) >> _update_input_settings
  | None => modify (set_local_input_dir (Some new_path)) >> _update_input_settings
  end.

(** [vip_input_dir.setter] *)
Definition vip_input_dir_setter (new_dir : pathlike) : M state unit :=
  let* cur := gets _vip_input_dir in
  match cur with
  | Some c =>
      if differs_from_str new_dir (str c)
      then attr _session_name >> raise ValueError
      else modify (set_vip_input_dir (Some (to_path new_dir))) >> _update_input_settings
  | None => modify (set_vip_input_dir (Some (to_path new_dir))) >> _update_input_settings
  end.

(** [local_output_dir.setter] *)
Definition local_output_dir_setter (new_dir : pathlike) : M state unit :=
  let new_path := to_path new_dir in
  let* cur := gets _local_output_dir in
  match cur with
  | Some c =>
      if negb (bool_decide (resolve cwd new_path = resolve cwd c))
      then attr _session_name >> raise ValueError
      else modify (set_local_output_dir (Some new_path))
  | None => modify (set_local_output_dir (Some new_path))
  end.

(** Truth value of a constructor argument that is a string or a path *)
Definition given (x : pathlike) : bool :=
  match x with
  | AStr s => truthy s
  | APath _ => true
  end.

(** [VipLauncher.__init__] *)
Definition launcher_init (cls : klass) (session_name pipeline_id : string)
    (input_settings : dict value) (output_dir : pathlike) : M state unit :=
  let* t := gets now in
  session_name_setter
    (if truthy session_name then session_name
     else class_name cls +:+ "_" +:+ strftime B "%y%m%d-%H%M%S" t) >>
  (if truthy pipeline_id then pipeline_id_setter pipeline_id else ret tt) >>
  (match input_settings with
   | [] => ret tt
   | _ => input_settings_setter input_settings
   end) >>
  (if given output_dir then vip_output_dir_setter output_dir else ret tt) >>
  workflows_setter [].

(** [VipSession.__init__]; the session file is looked for by the call
    [self._load_session(verbose=verbose)]. *)
Definition session_init (session_name : string) (input_dir : pathlike)
    (pipeline_id : string) (input_settings : dict value) (output_dir : pathlike)
    (verbose : bool) : M state unit :=
  launcher_init VipSession session_name pipeline_id input_settings (AStr "") >>
  (if given output_dir then local_output_dir_setter output_dir
   else
     let* n := attr _session_name in
     local_output_dir_setter (APath (child _LOCAL_DEFAULT_PATH n))) >>
  let* loaded := call _load_session_sig 0 ["verbose"] _load_session in
  match loaded with
  | Some (_ :: _) => ret tt
  | _ =>
      let* vip_dir := _vip_dir in
      vip_input_dir_setter (APath (child vip_dir "INPUTS")) >>
      vip_output_dir_setter (APath (child vip_dir "OUTPUTS")) >>
      if given input_dir then
        local_input_dir_setter input_dir >>
        if verbose then _exists VipSession (to_path input_dir) "local" >> ret tt
        else ret tt
      else ret tt
  end.

(** An object that has no attribute yet, in the same environment *)
Definition fresh (st : state) : state :=
  State None None None None None None None None
        (_PIPELINES st) true (now st) (hist st) (lfs st).

(** [VipSession(session_name=..., input_dir=..., ...)] *)
Definition VipSession_new (session_name : string) (input_dir : pathlike)
    (pipeline_id : string) (input_settings : dict value) (output_dir : pathlike)
    (verbose : bool) : M state unit :=
  fun st => session_init session_name input_dir pipeline_id input_settings
                         output_dir verbose (fresh st).

(** *** Download (VipSession, section A.5) *)

(** [tgz.extractall(path=dest)] for the archive at [archive]: the members
    are written in turn; an archive that is not sound fails after them. *)
Definition extractall (archive dest : ppath) : M state unit :=
  let* st := get in
  match local_lookup st archive with
  | Some (File (Tarball members sound)) =>
      if local_is_file st dest then raise NotADirectoryError
      else
        for_each members (fun m => local_write (joinpath dest m.1) (File (Data m.2))) >>
        if sound then ret tt else raise OSError
  | Some (File _) => raise OSError
  | Some Dir => raise IsADirectoryError
  | None => raise FileNotFoundError
  end.

(** [tarfile.is_tarfile(path)] *)
Definition is_tarfile (st : state) (p : ppath) : bool :=
  match local_lookup st p with
  | Some (File (Tarball _ _)) => true
  | _ => false
  end.

(** [try: m; success = True except: success = False] *)
Definition succeeds (m : M state unit) : M state bool :=
  fun st => match m st with
            | (st', Ok _) => (st', Ok true)
            | (st', Raise _) => (st', Ok false)
            | (st', Unfinished) => (st', Unfinished)
            end.

(** [_extract_tarball] *)
Definition _extract_tarball (local_file : ppath) : M state bool :=
  let archive := child (parent local_file) "tmp.tgz" in
  os_rename local_file archive >>
  _mkdirs VipSession local_file "local" >>
  let* success := succeeds (extractall archive local_file) in
  (if (success : bool) then os_remove archive else os_rename archive local_file) >>
  ret success.

(** [_download_file] *)
Definition _download_file (vip_path local_path : ppath) : M state bool :=
  request (EvDownload (str vip_path) (str local_path)) >>
  let* st := get in
  match vip_download B st (str vip_path) (str local_path) with
  | Some c => local_write local_path (File c) >> ret true
  | None => ret false
  end.

(** [_get_local_output_path] on a POSIX system *)
Definition _get_local_output_path (vip_output_path : ppath) : M state ppath :=
  let* local_output_dir := attr _local_output_dir in
  let* vip_output_dir := attr _vip_output_dir in
  let* rel := lift (relative_to vip_output_path vip_output_dir) in
  let new := joinpath local_output_dir rel in
  ret (resolve cwd (PurePosixPath (str (resolve cwd new)))).

(** [d[k]] for a key that may be absent *)
Definition key {A} (o : option A) : M state A :=
  match o with
  | Some v => ret v
  | None => raise KeyError
  end.

(** [json.dumps] accepts a value; objects of other types are taken to be
    numbers. *)
Fixpoint serializable (v : value) : bool :=
  match v with
  | VStr _ => true
  | VPath _ => false
  | VList l => forallb serializable l
  | VOther _ => true
  end.

(** [display]: the properties are printed with [json.dumps]. *)
Definition display : M state unit :=
  let* settings := gets _input_settings in
  match settings with
  | Some d => if forallb (fun kv => serializable kv.2) d then ret tt else raise TypeError
  | None => ret tt
  end.

(** The display of one workflow whose data were removed *)
Definition report_removed (wid : string) : M state unit :=
  request (EvReportRemoved wid).

(** One round of the loop [for output in vip_outputs] that downloads *)
Definition download_one (unzip : bool) (output0 : output) : M state (list string) :=
  let* path := key (o_path output0) in
  let vip_file := PurePosixPath path in
  let* is_directory := key (o_isDirectory output0) in
  if (is_directory : bool) then raise NotImplementedError
  else
    let* local_file := _get_local_output_path vip_file in
    let* present := _exists VipSession local_file "local" in
    if (present : bool) then ret []
    else
      _mkdirs VipSession (parent local_file) "local" >>
      let* done := _download_file vip_file local_file in
      if (done : bool) then
        (if unzip then
           let* mime := key (o_mimeType output0) in
           let* st := get in
           if String.eqb mime "application/gzip" && is_tarfile st local_file
           then _extract_tarball local_file >> ret tt
           else ret tt
         else ret tt) >>
        ret []
      else ret [str vip_file].

(** The statements of [download_outputs] that follow the report *)
Definition download_reported (get_status : list string) (unzip verbose : bool)
    (report : dict (list string)) : M state unit :=
  (if bool_decide ("Removed" ∈ get_status) then raise AssertionError else ret tt) >>
  (match dict_get report "Removed" with
   | Some wids =>
       for_each wids (fun wid =>
         (if verbose then report_removed wid else ret tt) >>
         let* current := get_workflows in
         let* w := key (dict_get current wid) in
         for_each (outputs w) (fun output0 =>
           let* path := key (o_path output0) in
           _get_local_output_path (PurePosixPath path) >> ret tt))
   | None => ret tt
   end) >>
  if negb (existsb (fun status0 => bool_decide (is_Some (dict_get report status0)))
                   get_status)
  then ret tt
  else
    let* workflows := get_workflows in
    let* failures :=
      collect (dict_keys workflows) (fun wid =>
        let* current := get_workflows in
        let* w := key (dict_get current wid) in
        if bool_decide (status w ∈ get_status)
        then collect (outputs w) (download_one unzip)
        else ret []) in
    ret tt.

(** [download_outputs]; the report is asked for by the call
    [self._execution_report(display=False)]. *)
Definition download_outputs (get_status : list string) (unzip verbose : bool)
  : M state unit :=
  modify (set_VERBOSE verbose) >>
  let* workflows := get_workflows in
  match workflows with
  | [] => if verbose then display else ret tt
  | _ =>
      _update_workflows VipSession false >>
      let* report := call _execution_report_sig 0 ["display"] _execution_report in
      download_reported get_status unzip verbose report
  end.

End Methods.

End Client.

(** ** Descriptions without markup (VipLauncher, [_clean_html]) *)

Module Html.

(** The regular expressions that the pattern of [_clean_html] is made of: a
    character, a character other than a given one, one or more characters of
    such a class, a sequence, an alternative. *)
Inductive charset : Type :=
  | Only (c : ascii)
  | Except (c : ascii).

Inductive regex : Type :=
  | Char (cs : charset)
  | Many (cs : charset)
  | Seq (r1 r2 : regex)
  | Alt (r1 r2 : regex).

Definition accepts (cs : charset) (c : ascii) : bool :=
  match cs with
  | Only a => Ascii.eqb c a
  | Except a => negb (Ascii.eqb c a)
  end.

(** [cs+] at the head of [s], then [k] on what follows: the longest run is
    tried first, and one character is given back at a time. *)
Fixpoint many (cs : charset) (s : string) (k : string -> option string)
  : option string :=
  match s with
  | EmptyString => None
  | String c s' =>
      if accepts cs c then
        match many cs s' k with
        | Some after => Some after
        | None => k s'
        end
      else None
  end.

(** The match of [r] at the head of [s], then [k] on what follows; the
    result is what is left of [s] after the whole match. The left branch of
    an alternative is tried first. *)
Fixpoint match_at (r : regex) (s : string) (k : string -> option string)
  : option string :=
  match r with
  | Char cs =>
      match s with
      | String c s' => if accepts cs c then k s' else None
      | EmptyString => None
      end
  | Many cs => many cs s k
  | Seq r1 r2 => match_at r1 s (fun s' => match_at r2 s' k)
  | Alt r1 r2 =>
      match match_at r1 s k with
      | Some after => Some after
      | None => match_at r2 s k
      end
  end.

(** [re.sub(r, '', text)] for an expression that matches no empty string:
    the text is read from the left; where [r] matches, the match is left out
    and the reading goes on after it ([skip] characters of a match are still
    to be left out); elsewhere the character is kept. *)
Fixpoint re_sub (r : regex) (skip : nat) (text : string) : string :=
  match text with
  | EmptyString => EmptyString
  | String c rest =>
      match skip with
      | S n => re_sub r n rest
      | O =>
          match match_at r text Some with
          | Some after =>
              re_sub r (String.length text - String.length after - 1) rest
          | None => String c (re_sub r 0 rest)
          end
      end
  end.

Definition newline : ascii := ascii_of_nat 10.

(** The pattern [<[^>]+>|\n] *)
Definition tag_or_newline : regex :=
  Alt (Seq (Char (Only "<")) (Seq (Many (Except ">")) (Char (Only ">"))))
      (Char (Only newline)).

(** [_clean_html] *)
Definition _clean_html (text : string) : string :=
  re_sub tag_or_newline 0 text.

End Html.

(** ** Input settings against the descriptor of the pipeline (VipLauncher, section D.2) *)

Module Inputs.

Import Settings Client.

(** Modelled from the spec: the pipeline catalogue is an external
    collaborator of section 6 (module [vip], which is not in the sources).
    Of the descriptor given by [vip.pipeline_def] the checks read the list
    under the key [parameters], and of each parameter the keys [name],
    [isOptional], [defaultValue] and [type]. *)
Record parameter : Type := Param {
  p_name : string;
  p_isOptional : bool;
  p_defaultValue : json;
  p_type : string
}.

(** A session, the descriptor that the property [_pipeline_def] has stored
    in the attribute [_VipLauncher__pipeline_def] (the name that the
    assignment [self.__pipeline_def = ...] has inside the class VipLauncher),
    and the descriptor requests made so far, oldest first. *)
Record world : Type := World {
  session : state;
  _VipLauncher__pipeline_def : option (list parameter);
  asked : list string
}.

(** A method of the session that reads no descriptor *)
Definition on_session {A} (m : M state A) : M world A :=
  fun w => let '(st, r) := m (session w) in
           (World st (_VipLauncher__pipeline_def w) (asked w), r).

(** [self.x] for an attribute that may be undefined *)
Definition self_attr {A} (f : world -> option A) : M world A :=
  fun w => match f w with
           | Some v => (w, Ok v)
           | None => (w, Raise AttributeError)
           end.

Definition defined {A} (o : option A) (k : string) : list string :=
  match o with
  | Some _ => [k]
  | None => []
  end.

(** The keys of [self.__dict__] *)
Definition instance_dict (w : world) : list string :=
  defined (_session_name (session w)) "_session_name"
  ++ defined (_pipeline_id (session w)) "_pipeline_id"
  ++ defined (_vip_output_dir (session w)) "_vip_output_dir"
  ++ defined (_input_settings (session w)) "_input_settings"
  ++ defined (_workflows (session w)) "_workflows"
  ++ defined (_local_input_dir (session w)) "_local_input_dir"
  ++ defined (_local_output_dir (session w)) "_local_output_dir"
  ++ defined (_vip_input_dir (session w)) "_vip_input_dir"
  ++ defined (_VipLauncher__pipeline_def w) "_VipLauncher__pipeline_def".

(** [_is_defined] *)
Definition _is_defined (attribute : string) : M world bool :=
  gets (fun w => bool_decide (attribute ∈ instance_dict w)).

(** [_is_input_string] *)
Definition _is_input_string (value0 : value) : bool :=
  match value0 with
  | VList l => forallb (fun v => match v with VStr _ => true | _ => false end) l
  | VStr _ => true
  | _ => false
  end.

Section Checks.

(** Modelled from the spec: the answer of the catalogue to
    [vip.pipeline_def(pipeline_id)], which may depend on the session and on
    the requests made before. *)
Variable vip_pipeline_def : world -> string -> result (list parameter).

(** [cls._exists(path, location)], which each class defines, for a value
    found in the settings *)
Variable _exists : value -> string -> M world bool.

(** The truth value of an object that is neither a string, a path nor a
    list *)
Variable truth : Z -> bool.

(** [if x:] *)
Definition truthy_value (x : value) : bool :=
  match x with
  | VStr s => truthy s
  | VPath _ => true
  | VList l => match l with [] => false | _ => true end
  | VOther i => truth i
  end.

(** [_get_pipeline_def] *)
Definition _get_pipeline_def (cls : klass) (pipeline_id : string)
  : M world (list parameter) :=
  modify (fun w => World (session w) (_VipLauncher__pipeline_def w)
                         (asked w ++ [pipeline_id])) >>
  let* w := get in
  on_session (answered cls (vip_pipeline_def w pipeline_id)).

(** The property [_pipeline_def] *)
Definition _pipeline_def (cls : klass) : M world (list parameter) :=
  let* has_id := _is_defined "_pipeline_id" in
  if negb has_id then raise TypeError
  else
    let* stored := _is_defined "__pipeline_def" in
    (if negb stored then
       let* pipeline_id := self_attr (fun w => _pipeline_id (session w)) in
       let* d := _get_pipeline_def cls pipeline_id in
       modify (fun w => World (session w) (Some d) (asked w))
     else ret tt) >>
    self_attr _VipLauncher__pipeline_def.

(** A parameter without which the pipeline cannot run *)
Definition required (param : parameter) : bool :=
  negb (p_isOptional param)
  && match p_defaultValue param with
     | JStr s => String.eqb s "$input.getDefaultValue()"
     | _ => false
     end.

(** [_check_input_keys]; the unknown fields are only displayed. *)
Definition _check_input_keys (cls : klass) (input_settings : dict value)
  : M world unit :=
  let* parameters := _pipeline_def cls in
  let missing_fields :=
    List.filter (fun n => negb (bool_decide (n ∈ dict_keys input_settings)))
                (map p_name (List.filter required parameters)) in
  match missing_fields with
  | _ :: _ => raise TypeError
  | [] =>
      let* parameters := _pipeline_def cls in
      let unknown_fields :=
        List.filter (fun k => negb (bool_decide (k ∈ map p_name parameters)))
                    (dict_keys input_settings) in
      ret tt
  end.

(** The loop of [_first_missing_file] on a list of files *)
Fixpoint first_missing (files : list value) (location : string) : M world value :=
  match files with
  | [] => ret (VStr "")
  | file :: rest =>
      let* found := _exists file location in
      if (found : bool) then first_missing rest location else ret file
  end.

(** [_first_missing_file] *)
Definition _first_missing_file (value0 : value) (location : string) : M world value :=
  match value0 with
  | VList files => first_missing files location
  | _ =>
      let* found := _exists value0 location in
      ret (if (found : bool) then VStr "" else value0)
  end.

(** One round of the loop of [_check_input_values] *)
Definition check_value (input_settings : dict value) (location : string)
    (param : parameter) : M world unit :=
  match dict_get input_settings (p_name param) with
  | None => ret tt
  | Some value0 =>
      if String.eqb (p_type param) "String" && negb (_is_input_string value0)
      then raise ValueError
      else if String.eqb (p_type param) "File" then
        if truthy location then
          let* missing_file := _first_missing_file value0 location in
          if truthy_value missing_file then raise FileNotFoundError else ret tt
        else ret tt
      else ret tt
  end.

(** [_check_input_values] *)
Definition _check_input_values (cls : klass) (input_settings : dict value)
    (location : string) : M world unit :=
  let* parameters := _pipeline_def cls in
  for_each parameters (check_value input_settings location).

(** [VipLauncher._check_input_settings] *)
Definition launcher_check_input_settings (cls : klass) (input_settings : dict value)
    (location : string) : M world bool :=
  let* input_settings :=
    (match input_settings with
     | [] =>
         let* has_settings := _is_defined "_input_settings" in
         if (has_settings : bool)
         then self_attr (fun w => _input_settings (session w))
         else raise AttributeError
     | _ => ret input_settings
     end) in
  let* has_id := _is_defined "_pipeline_id" in
  if negb has_id then raise AttributeError
  else
    _check_input_keys cls input_settings >>
    _check_input_values cls input_settings location >>
    ret true.

End Checks.

(** *** [VipLauncher._exists] on a value of the settings *)

Section Launcher.

Variable B : backend.

(** [str(x)] for an object that is neither a string nor a path *)
Variable py_str : value -> string.

Definition str_value (x : value) : string :=
  match x with
  | VStr s => s
  | VPath p => str p
  | _ => py_str x
  end.

(** [VipLauncher._exists(path, location)]: the request carries [str(path)]. *)
Definition launcher_exists_value (cls : klass) (path : value) (location : string)
  : M world bool :=
  on_session
    (if negb (String.eqb location "vip") then raise NotImplementedError
     else request (EvExists (str_value path)) >>
          let* st := get in
          answered_json cls (vip_exists B st (str_value path))).

End Launcher.

End Inputs.

(** * Properties *)

(** ** Dictionaries *)

Module DictFacts.

Lemma eqb_refl' (k : string) : String.eqb k k = true.
Proof. apply String.eqb_refl. Qed.

Lemma dict_get_elem {V} (d : dict V) k v :
  dict_get d k = Some v → (k, v) ∈ d.
Proof.
  induction d as [|[k' v'] d IH]; simpl; [done|].
  destruct (String.eqb_spec k k') as [->|Hne].
  - intros H. injection H as ->. left.
  - intros H. right. auto.
Qed.

Lemma dict_get_None {V} (d : dict V) k :
  dict_get d k = None ↔ k ∉ dict_keys d.
Proof.
  induction d as [|[k' v'] d IH]; simpl.
  - split; [intros _; apply not_elem_of_nil|done].
  - destruct (String.eqb_spec k k') as [->|Hne].
    + split; [done|]. intros H. exfalso. apply H. left.
    + rewrite IH. rewrite not_elem_of_cons. tauto.
Qed.

Lemma elem_dict_get {V} (d : dict V) k v :
  NoDup (dict_keys d) → (k, v) ∈ d → dict_get d k = Some v.
Proof.
  induction d as [|[k' v'] d IH]; simpl.
  - intros _ H. by apply elem_of_nil in H.
  - intros Hnd H. apply NoDup_cons in Hnd as [Hk Hnd].
    apply elem_of_cons in H as [[= -> ->]|H].
    + by rewrite String.eqb_refl.
    + destruct (String.eqb_spec k k') as [->|Hne]; [|auto].
      exfalso. apply Hk. apply (list_elem_of_fmap_2 fst) in H. exact H.
Qed.

Lemma dict_keys_set {V} (d : dict V) k v :
  dict_keys (dict_set d k v) =
  match dict_get d k with Some _ => dict_keys d | None => dict_keys d ++ [k] end.
Proof.
  induction d as [|[k' v'] d IH]; simpl; [done|].
  destruct (String.eqb_spec k k') as [->|Hne]; simpl; [done|].
  rewrite IH. by destruct (dict_get d k).
Qed.

Lemma dict_get_set {V} (d : dict V) k v k' :
  dict_get (dict_set d k v) k' = if String.eqb k' k then Some v else dict_get d k'.
Proof.
  induction d as [|[k0 v0] d IH]; simpl.
  - done.
  - destruct (String.eqb_spec k k0) as [->|Hne]; simpl.
    + by destruct (String.eqb_spec k' k0).
    + rewrite IH. destruct (String.eqb_spec k' k0) as [->|]; [|done].
      by destruct (String.eqb_spec k0 k) as [->|].
Qed.

Lemma concat_set_some {V} (d : dict (list V)) k old x :
  dict_get d k = Some old →
  concat (map snd (dict_set d k (old ++ [x]))) ≡ₚ x :: concat (map snd d).
Proof.
  induction d as [|[k0 v0] d IH]; simpl; [done|].
  destruct (String.eqb_spec k k0) as [->|Hne]; simpl.
  - intros [= ->]. rewrite <- (assoc_L (++)). simpl.
    by rewrite <- Permutation_middle.
  - intros H. rewrite (IH H). by rewrite <- Permutation_middle.
Qed.

Lemma concat_set_none {V} (d : dict (list V)) k x :
  dict_get d k = None →
  concat (map snd (dict_set d k [x])) ≡ₚ x :: concat (map snd d).
Proof.
  induction d as [|[k0 v0] d IH]; simpl; [done|].
  destruct (String.eqb_spec k k0) as [->|Hne]; simpl; [done|].
  intros H. rewrite (IH H). by rewrite <- Permutation_middle.
Qed.

Lemma NoDup_keys_set {V} (d : dict V) k v :
  NoDup (dict_keys d) → NoDup (dict_keys (dict_set d k v)).
Proof.
  intros Hnd. rewrite dict_keys_set.
  destruct (dict_get d k) eqn:E; [done|].
  apply NoDup_app. split_and!; [done| |apply NoDup_singleton].
  intros y Hy ->%list_elem_of_singleton. by apply dict_get_None in E.
Qed.

End DictFacts.

(** ** Status report *)

Module ReportFacts.
Import Client DictFacts.

Definition step (report : dict (list string)) (kv : string * workflow) :=
  match dict_get report (status kv.2) with
  | Some wids => dict_set report (status kv.2) (wids ++ [kv.1])
  | None => dict_set report (status kv.2) [kv.1]
  end.

Lemma step_spec report kv :
  NoDup (dict_keys report) →
  NoDup (dict_keys (step report kv))
  ∧ concat (map snd (step report kv)) ≡ₚ kv.1 :: concat (map snd report)
  ∧ ∀ s l x, dict_get (step report kv) s = Some l → x ∈ l →
      (x = kv.1 ∧ s = status kv.2) ∨ (∃ l0, dict_get report s = Some l0 ∧ x ∈ l0).
Proof.
  intros Hnd. unfold step.
  destruct (dict_get report (status kv.2)) as [wids|] eqn:E.
  - split_and!; [by apply NoDup_keys_set|by apply concat_set_some|].
    intros s l x. rewrite dict_get_set.
    destruct (String.eqb_spec s (status kv.2)) as [->|Hne].
    + intros [= <-] [H|H%list_elem_of_singleton]%elem_of_app; [right|left]; eauto.
    + intros H Hx. right. eauto.
  - split_and!; [by apply NoDup_keys_set|by apply concat_set_none|].
    intros s l x. rewrite dict_get_set.
    destruct (String.eqb_spec s (status kv.2)) as [->|Hne].
    + intros [= <-] H%list_elem_of_singleton. by left.
    + intros H Hx. right. eauto.
Qed.

Lemma fold_step_spec wfs report0 :
  NoDup (dict_keys report0) →
  let r := fold_left step wfs report0 in
  NoDup (dict_keys r)
  ∧ concat (map snd r) ≡ₚ concat (map snd report0) ++ dict_keys wfs
  ∧ ∀ s l x, dict_get r s = Some l → x ∈ l →
      (∃ l0, dict_get report0 s = Some l0 ∧ x ∈ l0)
      ∨ (∃ w, (x, w) ∈ wfs ∧ status w = s).
Proof.
  revert report0. induction wfs as [|kv wfs IH]; intros report0 Hnd; simpl.
  - split_and!; [done|by rewrite app_nil_r|]. intros s l x H Hx. left. eauto.
  - destruct (step_spec report0 kv Hnd) as (Hnd' & Hperm & Hin).
    destruct (IH _ Hnd') as (Hnd'' & Hperm' & Hin').
    split_and!; [done| |].
    + rewrite Hperm', Hperm. simpl. by rewrite <- Permutation_middle.
    + intros s l x H Hx.
      destruct (Hin' s l x H Hx) as [(l0 & Hl0 & Hx0)|(w & Hw & Hs)].
      * destruct (Hin s l0 x Hl0 Hx0) as [[-> ->]|?]; [|by left].
        right. exists kv.2. split; [|done]. destruct kv; left.
      * right. exists w. split; [by right|done].
Qed.

Lemma execution_report_fold wfs : execution_report wfs = fold_left step wfs [].
Proof. reflexivity. Qed.

(** C10. [_execution_report] returns a mapping from status to lists of
    workflow identifiers: the statuses are distinct keys; every registered
    workflow is in the list of its current status; a list holds only
    workflows of its status; no identifier occurs twice in the lists taken
    together, and together they hold exactly the registered identifiers. *)
Theorem execution_report_partition (st : state) (wfs : registry) :
  _workflows st = Some wfs →
  NoDup (dict_keys wfs) →
  ∃ report,
    _execution_report st = (st, Ok report)
    ∧ NoDup (dict_keys report)
    ∧ (∀ wid w, dict_get wfs wid = Some w →
         ∃ wids, dict_get report (status w) = Some wids ∧ wid ∈ wids)
    ∧ (∀ s wids wid, dict_get report s = Some wids → wid ∈ wids →
         ∃ w, dict_get wfs wid = Some w ∧ status w = s)
    ∧ NoDup (concat (map snd report))
    ∧ concat (map snd report) ≡ₚ dict_keys wfs.
Proof.
  intros Hw Hnd. exists (execution_report wfs).
  destruct (fold_step_spec wfs [] (NoDup_nil_2)) as (Hk & Hperm & Hin).
  simpl in Hperm. rewrite <- execution_report_fold in *.
  assert (Hback : ∀ s wids wid, dict_get (execution_report wfs) s = Some wids →
            wid ∈ wids → ∃ w, dict_get wfs wid = Some w ∧ status w = s).
  { intros s wids wid H Hx.
    destruct (Hin s wids wid H Hx) as [(l0 & Hl0 & _)|(w & Hw' & Hs)]; [done|].
    exists w. split; [by apply elem_dict_get|done]. }
  split_and!; [| done | | done | by rewrite Hperm | done].
  - unfold _execution_report, get_workflows, attr, bind, ret. by rewrite Hw.
  - intros wid w Hget.
    assert (Hmem : wid ∈ concat (map snd (execution_report wfs))).
    { rewrite Hperm. apply dict_get_elem in Hget.
      by apply (list_elem_of_fmap_2 fst) in Hget. }
    apply list_elem_of_In, in_concat in Hmem as (l & Hl & Hx).
    apply list_elem_of_In in Hl, Hx.
    apply list_elem_of_fmap in Hl as ([s l'] & -> & Hl). simpl in Hx.
    apply (elem_dict_get _ _ _ Hk) in Hl.
    destruct (Hback s l' wid Hl Hx) as (w' & Hw' & Hs).
    assert (w' = w) as -> by congruence. subst s. eauto.
Qed.

Lemma execution_report_partition_witness :
  let wfs := [("wf-1", Workflow "Running" "" []); ("wf-2", Workflow "Finished" "" []);
              ("wf-3", Workflow "Running" "" [])] in
  let st := State None None None None (Some wfs) None None None [] true 0 [] ∅ in
  ∃ report, _execution_report st = (st, Ok report)
    ∧ dict_get report "Running" = Some ["wf-1"; "wf-3"].
Proof.
  intros wfs st.
  destruct (execution_report_partition st wfs eq_refl) as (r & Hr & _).
  { refine (bool_decide_unpack _ _). vm_compute. exact I. }
  exists r. split; [done|]. unfold _execution_report in Hr. simpl in Hr.
  injection Hr as <-. reflexivity.
Defined.
End ReportFacts.

(** ** Deletion and its confirmation *)

Module DeletionFacts.
Import Client.

(** A service on which a deleted path is still reported for twenty seconds *)
Definition slow_service : backend :=
  {| vip_exists := fun st _ => Ok (now st <? 20)%Z;
     vip_create_dir := fun _ _ => Ok true;
     vip_delete_path := fun _ _ => true;
     vip_init_exec := fun _ => Ok "workflow-1";
     vip_execution_info := fun _ _ => Ok ("Finished", 0%Z);
     vip_get_exec_results := fun _ _ => Ok [];
     vip_download := fun _ _ _ => None;
     strftime := fun _ _ => "" |}.

(** A service that never reports the absence of a path *)
Definition stuck_service : backend :=
  {| vip_exists := fun _ _ => Ok true;
     vip_create_dir := fun _ _ => Ok true;
     vip_delete_path := fun _ _ => true;
     vip_init_exec := fun _ => Ok "workflow-1";
     vip_execution_info := fun _ _ => Ok ("Finished", 0%Z);
     vip_get_exec_results := fun _ _ => Ok [];
     vip_download := fun _ _ _ => None;
     strftime := fun _ _ => "" |}.

Definition idle : state :=
  State (Some "s1") None (Some (PurePosixPath "/vip/out")) None (Some [])
        None None None [] true 0 [] ∅.

Definition root_dir : ppath := PurePosixPath "/".


Section Polling.

Variable B : backend.
Variable cwd : ppath.

Lemma exists_now cls p loc st :
  now (_exists B cwd cls p loc st).1 = now st.
Proof.
  assert (H : now (launcher_exists B cls p loc st).1 = now st).
  { unfold launcher_exists. destruct (negb _); [done|].
    unfold bind, request, modify, get, answered_json. simpl.
    destruct (vip_exists B _ _) as [b|e|]; [done| |done].
    destruct e; done. }
  destruct cls; simpl; [done|]. by destruct (String.eqb loc "local").
Qed.

(** The waiting loop of [_delete_and_check] started at [start] *)
Definition waiting cls p loc (start : Z) (fuel : nat) : M state unit :=
  while fuel
    (let* t := gets (fun st => (now st - start)%Z) in
     if (t <? 300)%Z then _exists B cwd cls p loc else ret false)
    (sleep 2).

Lemma waiting_ends cls p loc start fuel st :
  (∀ st', (_exists B cwd cls p loc st').2 ≠ Unfinished) →
  (300 - (now st - start) ≤ 2 * Z.of_nat fuel)%Z →
  (waiting cls p loc start fuel st).2 ≠ Unfinished.
Proof.
  intros Hex. revert st. induction fuel as [|fuel IH]; intros st Hle.
  - unfold waiting, while, bind, gets. simpl.
    destruct (Z.ltb_spec (now st - start) 300); [lia|]. done.
  - unfold waiting. simpl. unfold bind at 1. unfold bind at 1, gets at 1.
    destruct (Z.ltb_spec (now st - start) 300) as [Hlt|Hge]; [|done].
    pose proof (exists_now cls p loc st) as Hnow.
    pose proof (Hex st) as Hfin.
    destruct (_exists B cwd cls p loc st) as [st1 [[]|e|]]; simpl in *; [|done..].
    unfold bind at 1, sleep. simpl. unfold modify.
    apply (IH (set_now (now st1 + 2)%Z (set_hist (hist st1 ++ [EvSleep 2]) st1))).
    simpl. lia.
Qed.

End Polling.

Lemma exists_answers (B : backend) cwd cls p loc st :
  (∀ st' q, vip_exists B st' q ≠ Unfinished) →
  (_exists B cwd cls p loc st).2 ≠ Unfinished.
Proof.
  intros Hans.
  assert (H : (launcher_exists B cls p loc st).2 ≠ Unfinished).
  { unfold launcher_exists. destruct (negb _); [done|].
    unfold bind, request, modify, get, answered_json. simpl.
    pose proof (Hans (set_hist (hist st ++ [EvExists (str p)]) st) (str p)) as Hq.
    destruct (vip_exists B _ _) as [b|e|]; [done| |done].
    destruct e; done. }
  destruct cls; simpl; [done|]. by destruct (String.eqb loc "local").
Qed.

(** When the service answers every existence request, [_delete_and_check]
    returns or raises: 300 rounds of its loop are enough. *)
Lemma delete_and_check_returns (B : backend) cwd cls p loc timeout st :
  (∀ st' q, vip_exists B st' q ≠ Unfinished) →
  (_delete_and_check B cwd cls p loc timeout st).2 ≠ Unfinished.
Proof.
  intros Hans. unfold _delete_and_check.
  unfold bind at 1.
  destruct (_delete_path B p loc st) as [st1 [[]|e|]] eqn:Hdel; [|done|].
  - unfold bind at 1, gets at 1.
    change (Z.to_nat 300) with 300.
    pose proof (waiting_ends B cwd cls p loc (now st1) 300 st1
                  (fun st' => exists_answers B cwd cls p loc st' Hans)) as Hw.
    unfold waiting in Hw. unfold bind at 1.
    destruct (while 300 _ _ st1) as [st2 [[]|e|]]; simpl in *; [done|done|].
    exfalso. apply Hw; [lia|done].
  - exfalso. unfold _delete_path in Hdel. destruct (negb _); [done|].
    unfold bind, request, modify, get in Hdel. simpl in Hdel.
    by destruct (vip_delete_path B _ _).
Qed.

(** The result does not depend on the timeout that is passed. *)
Lemma delete_and_check_any_timeout (B : backend) cwd cls p loc t1 t2 st :
  _delete_and_check B cwd cls p loc t1 st = _delete_and_check B cwd cls p loc t2 st.
Proof. reflexivity. Qed.

(** C4, at the failing input. With [timeout=10], on a service that reports
    the deleted path as present whenever it is asked before twenty seconds
    have passed, [_delete_and_check] returns True, at the twentieth second. *)
Theorem delete_and_check_overrides_timeout :
  let path := PurePosixPath "/vip/out" in
  let r := _delete_and_check slow_service root_dir VipLauncher path "vip" 10 idle in
  (∀ st, (now st < 20)%Z → vip_exists slow_service st (str path) = Ok true)
  ∧ r.2 = Ok true
  ∧ now r.1 = 20%Z.
Proof.
  split.
  - intros st Hst. simpl. by destruct (Z.ltb_spec (now st) 20); [|lia].
  - vm_compute. split; reflexivity.
Qed.

(** On a service that never reports the absence, with [timeout=10], the
    answer False comes after 300 seconds. *)
Lemma delete_and_check_gives_up_late :
  let r := _delete_and_check stuck_service root_dir VipLauncher
             (PurePosixPath "/vip/out") "vip" 10 idle in
  r.2 = Ok false ∧ now r.1 = 300%Z.
Proof. vm_compute. split; reflexivity. Qed.

End DeletionFacts.

(** ** Paths *)

Module PathFacts.

(** A string without a slash *)
Fixpoint slash_free (s : string) : bool :=
  match s with
  | EmptyString => true
  | String c s' => negb (Ascii.eqb c slash) && slash_free s'
  end.

(** A component as [PurePosixPath] produces them *)
Definition component (x : string) : Prop :=
  slash_free x = true ∧ keep_part x = true.

(** A path as [PurePosixPath] produces them *)
Definition normal (p : ppath) : Prop :=
  proot p ∈ [""; "/"; "//"] ∧ Forall component (pparts p).

Lemma split_slash_nonempty s : split_slash s ≠ [].
Proof. destruct s as [|c s]; simpl; [done|]. destruct (Ascii.eqb c slash); [done|]. by destruct (split_slash s). Qed.

Lemma split_slash_free s : slash_free s = true → split_slash s = [s].
Proof.
  induction s as [|c s IH]; simpl; [done|].
  destruct (Ascii.eqb c slash); simpl; [done|]. intros H. by rewrite (IH H).
Qed.

Lemma split_slash_app w s :
  slash_free w = true →
  split_slash (w +:+ String slash s) = w :: split_slash s.
Proof.
  induction w as [|c w IH]; simpl.
  - intros _. reflexivity.
  - destruct (Ascii.eqb c slash); simpl; [done|]. intros H. by rewrite (IH H).
Qed.

Lemma split_slash_pieces s : Forall (fun x => slash_free x = true) (split_slash s).
Proof.
  induction s as [|c s IH]; simpl; [by repeat constructor|].
  destruct (Ascii.eqb c slash) eqn:E; [by constructor|].
  destruct (split_slash s) as [|w ws]; [by repeat constructor; simpl; rewrite E|].
  inversion IH; subst. constructor; [|done]. simpl. by rewrite E.
Qed.

Lemma split_join parts :
  parts ≠ [] → Forall (fun x => slash_free x = true) parts →
  split_slash (join_slash parts) = parts.
Proof.
  induction parts as [|w ws IH]; [done|]. intros _ Hall.
  inversion Hall as [|? ? Hw Hws]; subst.
  destruct ws as [|w' ws']; simpl.
  - by apply split_slash_free.
  - rewrite split_slash_app by done. f_equal. by apply IH.
Qed.

Lemma filter_keep parts :
  Forall (fun x => keep_part x = true) parts → List.filter keep_part parts = parts.
Proof.
  induction 1 as [|x l Hx Hl IH]; simpl; [done|]. by rewrite Hx, IH.
Qed.

Lemma lstrip_slash_free s :
  match s with String c _ => Ascii.eqb c slash = false | EmptyString => True end →
  lstrip_slash s = (0, s).
Proof. destruct s as [|c s]; simpl; [done|]. by intros ->. Qed.

Lemma join_head parts :
  Forall component parts →
  match join_slash parts with
  | String c _ => Ascii.eqb c slash = false
  | EmptyString => True
  end.
Proof.
  destruct 1 as [|w ws [Hf Hk] Hws]; simpl; [done|].
  destruct w as [|c w]; [done|]. simpl in Hf.
  apply andb_true_iff in Hf as [Hc _]. apply negb_true_iff in Hc.
  by destruct ws.
Qed.

Lemma parse_join parts :
  Forall component parts →
  List.filter keep_part (split_slash (join_slash parts)) = parts.
Proof.
  intros Hall. destruct parts as [|w ws]; [done|].
  rewrite split_join; [|done|].
  - apply filter_keep. eapply Forall_impl; [exact Hall|]. by intros x [_ ?].
  - eapply Forall_impl; [exact Hall|]. by intros x [? _].
Qed.

(** Parsing the string of a normal path gives the path back. *)
Lemma lstrip_slash_cons s :
  lstrip_slash (String slash s) = (S (lstrip_slash s).1, (lstrip_slash s).2).
Proof. simpl. by destruct (lstrip_slash s). Qed.

Lemma str_join r parts :
  r ≠ "" ∨ parts ≠ [] → str (PPath r parts) = r +:+ join_slash parts.
Proof. unfold str. simpl. destruct r; [|done]. destruct parts; [|done]. by intros [|]. Qed.

Lemma parse_str p : normal p → PurePosixPath (str p) = p.
Proof.
  destruct p as [r parts]. intros [Hr Hparts]. simpl in *.
  pose proof (join_head parts Hparts) as Hhead.
  pose proof (parse_join parts Hparts) as Hparse.
  destruct (decide (r = "" ∧ parts = [])) as [[-> ->]|Hne]; [reflexivity|].
  rewrite str_join by (destruct (decide (r = "")); [right|left]; naive_solver).
  unfold PurePosixPath.
  remember (join_slash parts) as j.
  assert (Hl : lstrip_slash j = (0, j)) by by apply lstrip_slash_free.
  repeat (apply elem_of_cons in Hr as [->|Hr]); [| | |by apply elem_of_nil in Hr].
  - change ("" +:+ j) with j. rewrite Hl. simpl. by rewrite Hparse.
  - change ("/" +:+ j) with (String slash j).
    simpl. rewrite Hl. simpl. by rewrite Hparse.
  - change ("//" +:+ j) with (String slash (String slash j)).
    simpl. rewrite Hl. simpl. by rewrite Hparse.
Qed.

Lemma parse_normal s : normal (PurePosixPath s).
Proof.
  unfold PurePosixPath. destruct (lstrip_slash s) as [n rest]. split; simpl.
  - destruct n as [|[|[|n]]]; set_solver.
  - apply Forall_forall. intros x Hx.
    apply list_elem_of_In, filter_In in Hx as [Hx Hk].
    split; [|done].
    pose proof (split_slash_pieces rest) as Hp.
    rewrite Forall_forall in Hp. apply Hp. by apply list_elem_of_In.
Qed.

(** [str] then [PurePosixPath] is the identity on what [PurePosixPath] gives. *)
Lemma str_parse_str s : str (PurePosixPath (str (PurePosixPath s))) = str (PurePosixPath s).
Proof. by rewrite parse_str by apply parse_normal. Qed.

Lemma component_valid x : component x → valid_name x.
Proof.
  intros [Hf Hk]. unfold valid_name, PurePosixPath.
  assert (Hh : match x with String c _ => Ascii.eqb c slash = false | EmptyString => True end).
  { destruct x as [|c x]; [done|]. simpl in Hf.
    apply andb_true_iff in Hf as [Hc _]. by apply negb_true_iff in Hc. }
  rewrite lstrip_slash_free by done. rewrite split_slash_free by done.
  simpl. by rewrite Hk.
Qed.

End PathFacts.

(** ** Properties of a session *)

Module SetterFacts.
Import Settings Client DictFacts PathFacts.




Section Setters.

Variable st : state.
Variable n : string.
Hypothesis Hname : _session_name st = Some n.
















End Setters.









End SetterFacts.

(** ** Computations and what they leave unchanged *)

Module MonadFacts.
Import Client.

Lemma bind_ok {St A C} (m : M St A) (f : A → M St C) s s' a :
  m s = (s', Ok a) → bind m f s = f a s'.
Proof. intros H. unfold bind. by rewrite H. Qed.

Lemma bind_raise {St A C} (m : M St A) (f : A → M St C) s s' e :
  m s = (s', Raise e) → bind m f s = (s', Raise e).
Proof. intros H. unfold bind. by rewrite H. Qed.

Lemma for_each_app {St A} (l1 l2 : list A) (body : A → M St unit) s :
  for_each (l1 ++ l2) body s =
  bind (for_each l1 body) (fun _ => for_each l2 body) s.
Proof.
  revert s. induction l1 as [|x l1 IH]; intros s; simpl.
  - done.
  - unfold bind. destruct (body x s) as [s1 [[]|e|]]; [|done..].
    rewrite IH. done.
Qed.

Section Respects.

(** A relation between the state before and the state after *)
Context (R : relation state) `{!PreOrder R}.

(** A computation whose final state is always related to its initial state *)
Definition respects {A} (m : M state A) : Prop :=
  ∀ st, R st (m st).1.

Lemma respects_ret {A} (a : A) : respects (ret a).
Proof. intros st. reflexivity. Qed.
Lemma respects_raise {A} e : respects (@raise state A e).
Proof. intros st. reflexivity. Qed.
Lemma respects_lift {A} (r : result A) : respects (lift r).
Proof. intros st. reflexivity. Qed.
Lemma respects_get : respects (@get state).
Proof. intros st. reflexivity. Qed.
Lemma respects_gets {A} (f : state → A) : respects (gets f).
Proof. intros st. reflexivity. Qed.
Lemma respects_attr {A} (f : state → option A) : respects (attr f).
Proof. intros st. unfold attr. destruct (f st); reflexivity. Qed.
Lemma respects_key {A} (o : option A) : respects (key o).
Proof. intros st. destruct o; reflexivity. Qed.

Lemma respects_bind {A C} (m : M state A) (f : A → M state C) :
  respects m → (∀ a, respects (f a)) → respects (bind m f).
Proof.
  intros Hm Hf st. unfold bind. specialize (Hm st).
  destruct (m st) as [st1 [a|e|]]; simpl in *; [|done..].
  etrans; [exact Hm|apply Hf].
Qed.

Lemma respects_modify (f : state → state) :
  (∀ st, R st (f st)) → respects (modify f).
Proof. intros Hf st. apply Hf. Qed.

Lemma respects_catch_runtime {A} (m : M state A) h :
  respects m → (∀ msg, respects (h msg)) → respects (catch_runtime m h).
Proof.
  intros Hm Hh st. unfold catch_runtime. specialize (Hm st).
  destruct (m st) as [st1 [a|e|]]; simpl in *; [done| |done].
  destruct e; try done. etrans; [exact Hm|apply Hh].
Qed.

Lemma respects_for_each {A} (l : list A) body :
  (∀ x, respects (body x)) → respects (for_each l body).
Proof.
  intros Hb. induction l as [|x l IH]; simpl; [apply respects_ret|].
  apply respects_bind; [apply Hb|]. by intros _.
Qed.

Lemma respects_collect {A C} (l : list A) (body : A → M state (list C)) :
  (∀ x, respects (body x)) → respects (collect l body).
Proof.
  intros Hb. induction l as [|x l IH]; simpl; [apply respects_ret|].
  apply respects_bind; [apply Hb|]. intros ys.
  apply respects_bind; [apply IH|]. intros zs. apply respects_ret.
Qed.

Lemma respects_while fuel cond body :
  respects cond → respects body → respects (while fuel cond body).
Proof.
  intros Hc Hb. induction fuel as [|fuel IH]; simpl.
  - apply respects_bind; [done|]. intros []; [apply respects_lift|apply respects_ret].
  - apply respects_bind; [done|]. intros []; [|apply respects_ret].
    apply respects_bind; [done|]. by intros _.
Qed.

Lemma respects_call {A} sg npos kws (body : M state A) :
  respects body → respects (call sg npos kws body).
Proof.
  intros Hb. unfold call. apply respects_bind; [apply respects_lift|]. by intros _.
Qed.

Lemma respects_finally {A} (m : M state A) f :
  respects m → respects f → respects (finally m f).
Proof.
  intros Hm Hf st. unfold finally. specialize (Hm st).
  destruct (m st) as [st1 r]; simpl in *.
  specialize (Hf st1).
  destruct r as [a|e1|]; destruct (f st1) as [st2 [u|e2|]]; simpl in *;
    first [done|by etrans].
Qed.

Lemma respects_succeeds (m : M state unit) : respects m → respects (succeeds m).
Proof.
  intros Hm st. unfold succeeds. specialize (Hm st).
  by destruct (m st) as [st1 [a|e|]].
Qed.

End Respects.

Lemma respects_weaken (R R' : relation state) {A} (m : M state A) :
  (∀ s s', R s s' → R' s s') → respects R m → respects R' m.
Proof. intros Hsub Hm st. apply Hsub, Hm. Qed.

(** The states that agree on an observation *)
Definition same {X} (proj : state → X) : relation state :=
  fun s s' => proj s' = proj s.

Global Instance same_preorder {X} (proj : state → X) : PreOrder (same proj).
Proof. split; [done|]. intros a b c Hab Hbc. unfold same in *. congruence. Qed.

(** A computation that never returns a value *)
Definition fails {A} (m : M state A) : Prop :=
  ∀ st, is_ok (m st).2 = false.

Lemma fails_bind_l {A C} (m : M state A) (f : A → M state C) :
  fails m → fails (bind m f).
Proof.
  intros Hm st. unfold bind. specialize (Hm st).
  by destruct (m st) as [st1 [a|e|]].
Qed.

Lemma fails_bind_r {A C} (m : M state A) (f : A → M state C) :
  (∀ a, fails (f a)) → fails (bind m f).
Proof.
  intros Hf st. unfold bind.
  destruct (m st) as [st1 [a|e|]]; [apply Hf|done..].
Qed.

Lemma respects_bind_fails R `{!PreOrder R} {A C} (m : M state A) (f : A → M state C) :
  respects R m → fails m → respects R (bind m f).
Proof.
  intros Hm Hfail st. unfold bind. specialize (Hm st). specialize (Hfail st).
  by destruct (m st) as [st1 [a|e|]].
Qed.

Create HintDb preserved discriminated.
#[export] Hint Resolve respects_ret respects_raise respects_lift respects_get
  respects_gets respects_attr respects_key : preserved.

(** Decomposition of a goal [respects R m] along the structure of [m] *)
Ltac respects_step :=
  match goal with
  | |- respects _ (bind _ _) => apply respects_bind; [apply _| |intros ?]
  | |- respects _ (for_each _ _) => apply respects_for_each; [apply _|intros ?]
  | |- respects _ (collect _ _) => apply respects_collect; [apply _|intros ?]
  | |- respects _ (while _ _ _) => apply respects_while; [apply _| |]
  | |- respects _ (catch_runtime _ _) =>
      apply respects_catch_runtime; [apply _| |intros ?]
  | |- respects _ (call _ _ _ _) => apply respects_call; [apply _|]
  | |- respects _ (finally _ _) => apply respects_finally; [apply _| |]
  | |- respects _ (succeeds _) => apply respects_succeeds
  | |- respects _ (if ?b then _ else _) => destruct b
  | |- respects _ (match ?x with _ => _ end) => destruct x
  | |- respects _ _ => solve [eauto with preserved typeclass_instances]
  end.

Ltac solve_respects := repeat respects_step.

End MonadFacts.

Module LifecycleFacts.
Import Settings Client DictFacts MonadFacts.

(** The number of start requests, of file downloads, and of displays about
    removed workflows, among events *)
Definition starts (h : list event) : nat :=
  length (List.filter (fun e => match e with EvInitExec => true | _ => false end) h).

Definition downloads (h : list event) : nat :=
  length (List.filter (fun e => match e with EvDownload _ _ => true | _ => false end) h).

Definition reports (h : list event) : nat :=
  length (List.filter (fun e => match e with EvReportRemoved _ => true | _ => false end) h).

(** The observations considered: the inventory, and the three counts *)
Inductive observation : Type := Inventory | Starts | Downloads | Reports.

Definition observed (o : observation) (st : state) : option registry * nat :=
  match o with
  | Inventory => (_workflows st, 0)
  | Starts => (None, starts (hist st))
  | Downloads => (None, downloads (hist st))
  | Reports => (None, reports (hist st))
  end.

Lemma starts_app h e :
  starts (h ++ [e]) = starts h + match e with EvInitExec => 1 | _ => 0 end.
Proof.
  unfold starts. rewrite List.filter_app, length_app. by destruct e.
Qed.

Lemma downloads_app h e :
  downloads (h ++ [e]) = downloads h + match e with EvDownload _ _ => 1 | _ => 0 end.
Proof.
  unfold downloads. rewrite List.filter_app, length_app. by destruct e.
Qed.

Lemma reports_app h e :
  reports (h ++ [e]) = reports h + match e with EvReportRemoved _ => 1 | _ => 0 end.
Proof.
  unfold reports. rewrite List.filter_app, length_app. by destruct e.
Qed.

Section Lifecycle.

Variable B : backend.
Variable cwd : ppath.
Variable prefix : string.
Variable check_settings : klass → string → M state bool.

Lemma respects_request o e :
  match o, e with
  | Starts, EvInitExec | Downloads, EvDownload _ _
  | Reports, EvReportRemoved _ => False
  | _, _ => True
  end →
  respects (same (observed o)) (request e).
Proof.
  intros He st. unfold same, request, modify. destruct st; simpl.
  destruct o; simpl; [done| | |].
  - rewrite starts_app. destruct e; try done; simpl; f_equal; lia.
  - rewrite downloads_app. destruct e; try done; simpl; f_equal; lia.
  - rewrite reports_app. destruct e; try done; simpl; f_equal; lia.
Qed.

Lemma respects_sleep o d : respects (same (observed o)) (sleep d).
Proof.
  unfold sleep. destruct (d <? 0)%Z; [solve_respects|].
  apply respects_modify. intros []. unfold same. destruct o; simpl; [done| | |].
  - rewrite starts_app. simpl. f_equal. lia.
  - rewrite downloads_app. simpl. f_equal. lia.
  - rewrite reports_app. simpl. f_equal. lia.
Qed.

Lemma respects_handle {A} o cls msg : respects (same (observed o)) (@_handle_vip_error A cls msg).
Proof. unfold _handle_vip_error. solve_respects. Qed.

Lemma respects_answered {A} o cls (r : result A) : respects (same (observed o)) (answered cls r).
Proof.
  pose proof (@respects_handle A o cls).
  unfold answered. destruct r as [a|[]|]; solve_respects.
Qed.

Lemma respects_answered_json {A} o cls (r : result A) :
  respects (same (observed o)) (answered_json cls r).
Proof.
  pose proof (@respects_handle A o cls).
  unfold answered_json. destruct r as [a|[]|]; solve_respects.
Qed.

Hint Resolve respects_sleep respects_handle respects_answered
  respects_answered_json : preserved.
Hint Extern 1 (respects _ (request _)) =>
  (apply respects_request; repeat case_match; exact I) : preserved.

(** A change of the local file system, of the verbosity or of a directory
    property is not observed. *)
Ltac unobserved :=
  apply respects_modify; intros []; unfold same;
  match goal with o : observation |- _ => destruct o end; reflexivity.

Lemma respects_local_write o p n : respects (same (observed o)) (local_write cwd p n).
Proof. unfold local_write. unobserved. Qed.
Hint Resolve respects_local_write : preserved.

Lemma respects_local_mkdir o p : respects (same (observed o)) (local_mkdir cwd p).
Proof. unfold local_mkdir. solve_respects. Qed.
Hint Resolve respects_local_mkdir : preserved.

Lemma respects_os_rename o src dst : respects (same (observed o)) (os_rename cwd src dst).
Proof. unfold os_rename. solve_respects; unobserved. Qed.

Lemma respects_os_remove o p : respects (same (observed o)) (os_remove cwd p).
Proof. unfold os_remove. solve_respects; unobserved. Qed.
Hint Resolve respects_os_rename respects_os_remove : preserved.

Lemma respects_launcher_exists o cls p loc :
  respects (same (observed o)) (launcher_exists B cls p loc).
Proof. unfold launcher_exists. solve_respects. Qed.
Hint Resolve respects_launcher_exists : preserved.

Lemma respects_exists o cls p loc : respects (same (observed o)) (_exists B cwd cls p loc).
Proof. unfold _exists. solve_respects. Qed.
Hint Resolve respects_exists : preserved.

Lemma respects_launcher_create_dir o cls p loc :
  respects (same (observed o)) (launcher_create_dir B cls p loc).
Proof. unfold launcher_create_dir. solve_respects. Qed.
Hint Resolve respects_launcher_create_dir : preserved.

Lemma respects_create_dir o cls p loc :
  respects (same (observed o)) (_create_dir B cwd cls p loc).
Proof. unfold _create_dir. solve_respects. Qed.
Hint Resolve respects_create_dir : preserved.

Lemma respects_walk_up o (ex : ppath → M state bool) fuel p :
  (∀ q, respects (same (observed o)) (ex q)) → respects (same (observed o)) (walk_up ex fuel p).
Proof.
  intros Hex. revert p. induction fuel as [|fuel IH]; intros p; simpl; solve_respects.
Qed.

Lemma respects_make_down o (mk : ppath → M state unit) fuel path d :
  (∀ q, respects (same (observed o)) (mk q)) →
  respects (same (observed o)) (make_down mk fuel path d).
Proof.
  intros Hmk. revert d. induction fuel as [|fuel IH]; intros d; simpl; solve_respects.
Qed.

Lemma respects_mkdirs o cls p loc : respects (same (observed o)) (_mkdirs B cwd cls p loc).
Proof.
  unfold _mkdirs, Dirs._mkdirs. solve_respects.
  - apply respects_walk_up. intros q. apply respects_exists.
  - apply respects_make_down. intros q. apply respects_create_dir.
Qed.
Hint Resolve respects_mkdirs : preserved.

Lemma respects_vip_dir o : respects (same (observed o)) _vip_dir.
Proof. unfold _vip_dir. solve_respects. Qed.
Hint Resolve respects_vip_dir : preserved.

Lemma respects_path_to_delete o cls : respects (same (observed o)) (_path_to_delete cls).
Proof. unfold _path_to_delete. solve_respects. Qed.

Lemma respects_delete_path o p loc : respects (same (observed o)) (_delete_path B p loc).
Proof. unfold _delete_path. solve_respects. Qed.
Hint Resolve respects_path_to_delete respects_delete_path : preserved.

Lemma respects_delete_and_check o cls p loc t :
  respects (same (observed o)) (_delete_and_check B cwd cls p loc t).
Proof. unfold _delete_and_check. solve_respects. Qed.
Hint Resolve respects_delete_and_check : preserved.

Lemma respects_get_exec_infos o cls wid :
  respects (same (observed o)) (_get_exec_infos B cls wid).
Proof. unfold _get_exec_infos. solve_respects. Qed.
Hint Resolve respects_get_exec_infos : preserved.

Lemma respects_get_workflows o : respects (same (observed o)) get_workflows.
Proof. unfold get_workflows. solve_respects. Qed.
Hint Resolve respects_get_workflows : preserved.

Lemma respects_execution_report o : respects (same (observed o)) _execution_report.
Proof. unfold _execution_report. solve_respects. Qed.

Lemma respects_still_running o : respects (same (observed o)) _still_running.
Proof. unfold _still_running. solve_respects. Qed.
Hint Resolve respects_execution_report respects_still_running : preserved.

Lemma respects_save_session o data :
  respects (same (observed o)) (_save_session B cwd data).
Proof. unfold _save_session. solve_respects. Qed.

Lemma respects_load_session o : respects (same (observed o)) (_load_session cwd).
Proof. unfold _load_session. solve_respects. Qed.
Hint Resolve respects_save_session respects_load_session : preserved.

Lemma respects_init_exec o : o ≠ Starts → respects (same (observed o)) (_init_exec B).
Proof. intros Ho. unfold _init_exec. destruct o; [| done | |]; solve_respects. Qed.

Lemma respects_store o wid infos :
  o ≠ Inventory → respects (same (observed o)) (store_workflow wid infos).
Proof.
  intros Ho. unfold store_workflow. solve_respects.
  apply respects_modify. intros []. by destruct o.
Qed.
Hint Extern 1 (respects _ (store_workflow _ _)) =>
  (apply respects_store; discriminate) : preserved.
Hint Extern 1 (respects _ (_init_exec _)) =>
  (apply respects_init_exec; discriminate) : preserved.

Lemma respects_verbose o v : respects (same (observed o)) (modify (set_VERBOSE v)).
Proof. unobserved. Qed.
Hint Resolve respects_verbose : preserved.

(** *** The inventory and the records marked Removed *)

Definition lookup (st : state) (wid : string) : option workflow :=
  match _workflows st with
  | Some workflows => dict_get workflows wid
  | None => None
  end.

(** Every record that is Removed before is found unchanged after. *)
Definition kept : relation state :=
  fun st st' => ∀ wid w,
    lookup st wid = Some w → status w = "Removed" → lookup st' wid = Some w.

Global Instance kept_preorder : PreOrder kept.
Proof. split; [by intros st wid w|]. intros a b c Hab Hbc wid w Hw Hs. eauto. Qed.

Lemma same_kept st st' : same (observed Inventory) st st' → kept st st'.
Proof.
  unfold same. simpl. intros [= Heq] wid w. unfold lookup. by rewrite Heq.
Qed.

Lemma lookup_store st wfs wid infos wid' :
  _workflows st = Some wfs →
  lookup (store_workflow wid infos st).1 wid'
  = if String.eqb wid' wid then Some infos else lookup st wid'.
Proof.
  intros Hw. unfold store_workflow, bind, get_workflows, attr, modify, lookup.
  rewrite Hw. simpl. by rewrite dict_get_set.
Qed.

(** Storing a record keeps the Removed ones when the replaced record, if
    Removed, is stored again as it was. *)
Lemma kept_store st st1 wid infos :
  _workflows st1 = _workflows st →
  (∀ w, lookup st wid = Some w → status w = "Removed" → infos = w) →
  kept st (store_workflow wid infos st1).1.
Proof.
  intros Hsame Hrec wid' w Hw Hs.
  assert (Hl : ∀ x, lookup st1 x = lookup st x) by (intros x; unfold lookup; by rewrite Hsame).
  destruct (_workflows st1) as [wfs|] eqn:Hwfs.
  - rewrite (lookup_store st1 wfs) by done.
    destruct (String.eqb_spec wid' wid) as [->|Hne]; [|by rewrite Hl].
    f_equal. by apply Hrec.
  - unfold lookup in Hw. by rewrite <- Hsame in Hw.
Qed.

Lemma keeps_launcher_update cls : respects kept (launcher_update_workflows B cls).
Proof.
  unfold launcher_update_workflows.
  apply respects_bind; [apply _| |intros workflows].
  { eapply respects_weaken; [apply same_kept|apply respects_get_workflows]. }
  apply respects_for_each; [apply _|]. intros wid st.
  unfold bind at 1, get_workflows at 1, attr.
  destruct (_workflows st) as [current|] eqn:Hcur; [|reflexivity]. simpl.
  destruct (dict_get current wid) as [w|] eqn:Hget; [|reflexivity].
  destruct (String.eqb_spec (status w) "Removed") as [Hrem|Hrem]; [reflexivity|]. simpl.
  unfold bind at 1.
  pose proof (respects_get_exec_infos Inventory cls wid st) as Hinfo.
  unfold same in Hinfo. simpl in Hinfo.
  destruct (_get_exec_infos B cls wid st) as [st1 [infos|e|]]; simpl in *;
    [|apply same_kept; by unfold same..].
  apply kept_store; [congruence|].
  intros w' Hw' Hs. unfold lookup in Hw'. rewrite Hcur, Hget in Hw'. congruence.
Qed.

Lemma call_fails {A} sg npos kws (body : M state A) :
  is_ok (bind_args sg npos kws) = false → fails (call sg npos kws body).
Proof.
  intros Hb st. unfold call, bind, lift. by destruct (bind_args sg npos kws).
Qed.

Lemma keeps_update cls save : respects kept (_update_workflows B cwd cls save).
Proof.
  pose proof (keeps_launcher_update cls) as Hl.
  unfold _update_workflows. destruct cls; [done|].
  apply respects_bind; [apply _|done|]. intros _.
  destruct save; [|solve_respects].
  eapply respects_weaken; [apply same_kept|]. solve_respects.
Qed.

Lemma keeps_mark_removed cls : respects kept (mark_removed B cwd cls).
Proof.
  unfold mark_removed.
  apply respects_bind; [apply _| |intros workflows].
  { eapply respects_weaken; [apply same_kept|apply respects_get_workflows]. }
  apply respects_for_each; [apply _|]. intros wid st.
  unfold bind at 1, get_workflows at 1, attr.
  destruct (_workflows st) as [current|] eqn:Hcur; [|reflexivity]. simpl.
  destruct (dict_get current wid) as [w|] eqn:Hget; [|reflexivity].
  match goal with
  | |- kept st (bind ?g _ st).1 =>
      assert (Hgone : respects (same (observed Inventory)) g) by solve_respects;
      specialize (Hgone st); unfold same in Hgone; simpl in Hgone;
      unfold bind at 1; destruct (g st) as [st1 [gone|e|]]
  end; simpl in *; [|apply same_kept; by unfold same..].
  destruct gone; [|apply same_kept; by unfold same].
  apply kept_store; [congruence|].
  intros w' Hw' Hs. unfold lookup in Hw'. rewrite Hcur, Hget in Hw'.
  injection Hw' as ->. destruct w'; simpl in *. by subst.
Qed.

Hint Resolve keeps_update keeps_mark_removed : preserved.
Hint Extern 5 (respects kept _) =>
  (eapply respects_weaken; [apply same_kept|]) : preserved.

Lemma keeps_monitor cls fuel refresh_time verbose :
  respects kept (monitor_workflows B cwd cls fuel refresh_time verbose).
Proof. unfold monitor_workflows. solve_respects. Qed.

Lemma keeps_launcher_finish cls timeout verbose :
  respects kept (launcher_finish B cwd cls timeout verbose).
Proof. unfold launcher_finish. solve_respects. Qed.
Hint Resolve keeps_launcher_finish : preserved.

Lemma keeps_finish cls timeout verbose :
  respects kept (finish B cwd cls timeout verbose).
Proof. unfold finish. solve_respects. Qed.

(** A call of [monitor_workflows] or of [finish], with its arguments *)
Inductive lifecycle_call : Type :=
  | Monitor (fuel : nat) (refresh_time : Z) (verbose : bool)
  | Finish (timeout : Z) (verbose : bool).

Definition run_call (cls : klass) (c : lifecycle_call) : M state unit :=
  match c with
  | Monitor fuel refresh_time verbose =>
      monitor_workflows B cwd cls fuel refresh_time verbose
  | Finish timeout verbose => finish B cwd cls timeout verbose
  end.

(** The state after a sequence of calls, whatever each of them returns or
    raises *)
Fixpoint after_calls (cls : klass) (cs : list lifecycle_call) (st : state) : state :=
  match cs with
  | [] => st
  | c :: cs' => after_calls cls cs' (run_call cls c st).1
  end.

Lemma kept_after_calls cls cs st : kept st (after_calls cls cs st).
Proof.
  revert st. induction cs as [|c cs IH]; intros st; simpl; [reflexivity|].
  etrans; [|apply IH].
  destruct c; simpl; [apply keeps_monitor|apply keeps_finish].
Qed.

(** C7. A record whose status is Removed is found unchanged, status and
    contents, after any sequence of calls of [monitor_workflows] and
    [finish], with any arguments, on any service and for either class; the
    same holds in the states that a waiting loop goes through. *)
Theorem removed_is_absorbing (cls : klass) (cs : list lifecycle_call)
    (st : state) (wid : string) (w : workflow) :
  lookup st wid = Some w →
  status w = "Removed" →
  lookup (after_calls cls cs st) wid = Some w.
Proof. intros Hw Hs. by apply (kept_after_calls cls cs st). Qed.

(** *** Launch *)

Lemma launch_one_starts cls n st :
  starts (hist (launch_one B cls n st).1) = S (starts (hist st)).
Proof.
  unfold launch_one. unfold bind at 1, catch_runtime at 1, _init_exec.
  unfold bind at 1, request, modify. unfold bind at 1, get. unfold lift.
  set (st' := set_hist (hist st ++ [EvInitExec]) st).
  assert (Hst' : starts (hist st') = S (starts (hist st))).
  { unfold st'. destruct st; simpl. rewrite starts_app. lia. }
  destruct (vip_init_exec B st') as [wid|e|]; simpl; [|by destruct e|done].
  match goal with
  | |- starts (hist (?m st').1) = _ =>
      assert (Hm : respects (same (observed Starts)) m) by solve_respects;
      specialize (Hm st'); unfold same in Hm; simpl in Hm
  end.
  injection Hm as Hm. by rewrite Hm.
Qed.

Lemma launch_rounds cls l st st' :
  for_each l (launch_one B cls) st = (st', Ok tt) →
  starts (hist st') = starts (hist st) + length l.
Proof.
  revert st. induction l as [|n l IH]; intros st; simpl.
  - intros [= <-]. lia.
  - unfold bind. pose proof (launch_one_starts cls n st) as Hn.
    destruct (launch_one B cls n st) as [st1 [[]|e|]]; [|done..].
    intros H. apply IH in H. simpl in Hn. lia.
Qed.

Lemma launch_one_refused cls n st msg :
  vip_init_exec B (set_hist (hist st ++ [EvInitExec]) st) = Raise (RuntimeError msg) →
  launch_one B cls n st
  = (set_hist (hist st ++ [EvInitExec]) st, Raise (RuntimeError (interpret cls msg))).
Proof.
  intros H. unfold launch_one. unfold bind at 1, catch_runtime at 1, _init_exec.
  unfold bind at 1, request, modify. unfold bind at 1, get. unfold lift.
  by rewrite H.
Qed.

Lemma launch_loop_stops cls nb_runs k st1 st2 msg :
  1 ≤ k ≤ Z.to_nat nb_runs →
  for_each (seq 0 (k - 1)) (launch_one B cls) st1 = (st2, Ok tt) →
  vip_init_exec B (set_hist (hist st2 ++ [EvInitExec]) st2) = Raise (RuntimeError msg) →
  launch_loop B cls nb_runs st1
  = (set_hist (hist st2 ++ [EvInitExec]) st2, Raise (RuntimeError (interpret cls msg))).
Proof.
  intros Hk Hfirst Hfail. unfold launch_loop.
  replace (Z.to_nat nb_runs) with ((k - 1) + S (Z.to_nat nb_runs - k)) by lia.
  rewrite seq_app, for_each_app. rewrite (bind_ok _ _ _ _ _ Hfirst).
  simpl. apply bind_raise. by apply launch_one_refused.
Qed.

(** C6. When the first [k - 1] rounds of the launch loop succeed and the
    service refuses the [k]-th start request with an error, [launch_pipeline]
    raises that error, interpreted; the inventory is the one the [k - 1]
    rounds left, with the records they created; the refused request is the
    last event, and [k] start requests were made in all. *)
Theorem launch_keeps_started_workflows (cls : klass) pipeline_id input_settings
    output_dir (nb_runs : Z) (k : nat) (st0 st1 st2 : state) (msg : string) :
  1 ≤ k ≤ Z.to_nat nb_runs →
  launch_checks B cwd check_settings cls pipeline_id input_settings output_dir st0
    = (st1, Ok tt) →
  for_each (seq 0 (k - 1)) (launch_one B cls) st1 = (st2, Ok tt) →
  vip_init_exec B (set_hist (hist st2 ++ [EvInitExec]) st2) = Raise (RuntimeError msg) →
  let r := launcher_launch_pipeline B cwd check_settings cls pipeline_id input_settings
             output_dir nb_runs st0 in
  r.2 = Raise (RuntimeError (interpret cls msg))
  ∧ _workflows r.1 = _workflows st2
  ∧ hist r.1 = hist st2 ++ [EvInitExec]
  ∧ starts (hist r.1) = starts (hist st1) + k.
Proof.
  intros Hk Hchecks Hfirst Hfail r. unfold r, launcher_launch_pipeline.
  rewrite (bind_ok _ _ _ _ _ Hchecks).
  rewrite (launch_loop_stops cls nb_runs k st1 st2 msg Hk Hfirst Hfail). simpl.
  apply launch_rounds in Hfirst. rewrite length_seq in Hfirst.
  destruct st2; simpl in *. split_and!; try done.
  rewrite starts_app. lia.
Qed.

End Lifecycle.
End LifecycleFacts.

(** ** Two runs of the lifecycle *)

Module LifecycleExamples.
Import Settings Client DictFacts MonadFacts LifecycleFacts DeletionFacts.

(** A service that starts two workflows and refuses the following ones *)
Definition two_slots : backend :=
  {| vip_exists := fun _ _ => Ok true;
     vip_create_dir := fun _ _ => Ok true;
     vip_delete_path := fun _ _ => true;
     vip_init_exec := fun st =>
       match starts (hist st) with
       | 1 => Ok "workflow-1"
       | 2 => Ok "workflow-2"
       | _ => Raise (RuntimeError "Error 2000: too many executions")
       end;
     vip_execution_info := fun _ _ => Ok ("Running", 0%Z);
     vip_get_exec_results := fun _ _ => Ok [];
     vip_download := fun _ _ _ => None;
     strftime := fun _ _ => "2023/01/01 00:00:00" |}.

Definition accept_settings : klass → string → M state bool := fun _ _ => ret true.

Definition ready : state :=
  State (Some "study_1") (Some "app/1.0") (Some (PurePosixPath "/vip/Home/out"))
        (Some [("file", VStr "/vip/Home/data.txt")]) (Some [])
        None None None ["app/1.0"] true 0 [] ∅.

Lemma launch_keeps_started_workflows_witness :
  let r := launcher_launch_pipeline two_slots root_dir accept_settings VipLauncher
             None None None 5 ready in
  r.2 = Raise (RuntimeError (interpret VipLauncher "Error 2000: too many executions"))
  ∧ dict_keys <$> _workflows r.1 = Some ["workflow-1"; "workflow-2"]
  ∧ starts (hist r.1) = 3.
Proof.
  pose (st1 := (launch_checks two_slots root_dir accept_settings VipLauncher
                  None None None ready).1).
  pose (st2 := (for_each (seq 0 2) (launch_one two_slots VipLauncher) st1).1).
  destruct (launch_keeps_started_workflows two_slots root_dir accept_settings
              VipLauncher None None None 5 3 ready st1 st2
              "Error 2000: too many executions")
    as (Hr & Hw & _ & Hs).
  - vm_compute. lia.
  - vm_compute. reflexivity.
  - vm_compute. reflexivity.
  - vm_compute. reflexivity.
  - intros r. split_and!.
    + exact Hr.
    + unfold r. rewrite Hw. vm_compute. reflexivity.
    + unfold r. rewrite Hs. vm_compute. reflexivity.
Defined.

(** A session with one workflow whose data were removed and one that ended *)
Definition archive_state : state :=
  State (Some "study_1") (Some "app/1.0") (Some (PurePosixPath "/vip/Home/out"))
        None
        (Some [("workflow-1", Workflow "Removed" "2023/01/01 00:00:00" []);
               ("workflow-2", Workflow "Finished" "2023/01/01 00:00:00"
                  [Output (Some "/vip/Home/out/res.tgz") (Some false) None None])])
        None None None ["app/1.0"] true 0 [] ∅.

Lemma removed_is_absorbing_witness :
  lookup (after_calls slow_service root_dir VipLauncher
            [Monitor 3 30 true; Finish 300 true; Monitor 3 30 false] archive_state)
         "workflow-1"
  = Some (Workflow "Removed" "2023/01/01 00:00:00" []).
Proof.
  apply (removed_is_absorbing slow_service root_dir VipLauncher); reflexivity.
Defined.

End LifecycleExamples.

(** ** Download of the outputs *)

Module DownloadFacts.
Import Settings Client DictFacts MonadFacts LifecycleFacts.

Section Download.

Variable B : backend.
Variable cwd : ppath.

Lemma respects_launcher_update o cls :
  o ≠ Inventory → respects (same (observed o)) (launcher_update_workflows B cls).
Proof.
  intros Ho. unfold launcher_update_workflows. solve_respects.
  all: first [apply respects_get_workflows | apply respects_get_exec_infos
             | by apply respects_store].
Qed.

Lemma respects_update o cls save :
  o ≠ Inventory → respects (same (observed o)) (_update_workflows B cwd cls save).
Proof.
  intros Ho. pose proof (respects_launcher_update o cls Ho).
  unfold _update_workflows. solve_respects.
  all: first [apply respects_verbose | apply respects_save_session].
Qed.

Lemma respects_display o : respects (same (observed o)) display.
Proof. unfold display. solve_respects. Qed.

(** The call [self._execution_report(display=False)] is refused: the method
    has no parameter of that name. *)
Lemma report_call_fails :
  fails (call _execution_report_sig 0 ["display"] _execution_report).
Proof. by apply call_fails. Qed.

Lemma download_outputs_quiet o get_status unzip verbose :
  o ≠ Inventory →
  respects (same (observed o)) (download_outputs B cwd get_status unzip verbose).
Proof.
  intros Ho. unfold download_outputs.
  apply respects_bind; [apply _|apply respects_verbose|]. intros _.
  apply respects_bind; [apply _|apply respects_get_workflows|]. intros workflows.
  destruct workflows as [|w ws].
  - destruct verbose; [apply respects_display|apply respects_ret; apply _].
  - apply respects_bind; [apply _|by apply respects_update|]. intros _.
    apply respects_bind_fails; [apply _| |apply report_call_fails].
    apply respects_call; [apply _|apply respects_execution_report].
Qed.

Lemma download_outputs_fails get_status unzip verbose st w ws :
  _workflows st = Some (w :: ws) →
  is_ok (download_outputs B cwd get_status unzip verbose st).2 = false.
Proof.
  intros Hw. unfold download_outputs.
  unfold bind at 1, modify. unfold bind at 1, get_workflows, attr.
  destruct st; simpl in *. rewrite Hw.
  apply fails_bind_r. intros _. apply fails_bind_l, report_call_fails.
Qed.



End Download.




End DownloadFacts.

(** ** Extraction of a downloaded archive *)

Module ExtractionFacts.
Import Settings Client DictFacts MonadFacts LifecycleFacts.

(** The current directory, and the file system once [res.tgz] is downloaded *)
Definition home : ppath := PurePosixPath "/home/user".

Definition downloaded (c : content) : gmap ppath lnode :=
  list_to_map
    [(PurePosixPath "/home", Dir);
     (PurePosixPath "/home/user", Dir);
     (PurePosixPath "/home/user/out", Dir);
     (PurePosixPath "/home/user/out/res.tgz", File c)].

Definition after_download (c : content) : state :=
  State (Some "study_1") None None None (Some []) None
        (Some (PurePosixPath "out")) None [] true 0 [] (downloaded c).

Definition broken : content := Tarball [(PurePosixPath "a.txt", "first member")] false.
Definition sound : content := Tarball [(PurePosixPath "a.txt", "first member")] true.

Definition res : ppath := PurePosixPath "/home/user/out/res.tgz".

(** C9, at the failing input. For a downloaded archive whose extraction
    fails, [_extract_tarball] does not return False: the renaming back
    raises IsADirectoryError, the path of the archive is left as a directory,
    with what was extracted, and the archive stays under the name tmp.tgz. *)
Theorem failed_extraction_leaves_a_directory :
  let r := _extract_tarball DeletionFacts.slow_service home res (after_download broken) in
  lfs (after_download broken) !! res = Some (File broken)
  ∧ r.2 = Raise IsADirectoryError
  ∧ lfs r.1 !! res = Some Dir
  ∧ lfs r.1 !! PurePosixPath "/home/user/out/tmp.tgz" = Some (File broken)
  ∧ lfs r.1 !! PurePosixPath "/home/user/out/res.tgz/a.txt"
    = Some (File (Data "first member")).
Proof. vm_compute. repeat split; reflexivity. Qed.

(** When the extraction succeeds the archive is removed and its path is the
    directory of its members. *)
Lemma extraction_replaces_the_archive :
  let r := _extract_tarball DeletionFacts.slow_service home res (after_download sound) in
  r.2 = Ok true
  ∧ lfs r.1 !! res = Some Dir
  ∧ lfs r.1 !! PurePosixPath "/home/user/out/tmp.tgz" = None
  ∧ lfs r.1 !! PurePosixPath "/home/user/out/res.tgz/a.txt"
    = Some (File (Data "first member")).
Proof. vm_compute. repeat split; reflexivity. Qed.

End ExtractionFacts.

(** ** Backup of a session *)

Module BackupFacts.
Import Settings Client DictFacts MonadFacts LifecycleFacts.

(** What [json.dump] writes is read back by [json.load] as the same object. *)
Lemma of_to_json (x : pyobj) (j : json) : to_json x = Ok j → of_json j = x.
Proof.
  revert x j. fix IH 1. intros [| b | z | s | p | l | d] j; simpl.
  - by intros [= <-].
  - by intros [= <-].
  - by intros [= <-].
  - by intros [= <-].
  - done.
  - destruct (comprehension to_json l) as [l'| |] eqn:E; [|done..].
    intros [= <-]. simpl. f_equal.
    revert l' E. induction l as [|x l IHl]; intros l'; simpl.
    + by intros [= <-].
    + destruct (to_json x) as [y| |] eqn:Ex; [|done..].
      destruct (comprehension to_json l) as [ys| |]; [|done..].
      intros [= <-]. simpl. f_equal; [by apply IH|by apply IHl].
  - match goal with
    | |- context [comprehension ?f d] =>
        destruct (comprehension f d) as [o| |] eqn:E; [|done..]
    end.
    intros [= <-]. simpl. f_equal.
    revert o E. induction d as [|[k x] d IHd]; intros o; simpl.
    + by intros [= <-].
    + destruct (to_json x) as [y| |] eqn:Ex; [|done..].
      match goal with
      | |- context [comprehension ?f d] =>
          destruct (comprehension f d) as [ys| |]; [|done..]
      end.
      intros [= <-]. simpl. f_equal; [f_equal; by apply IH|by apply IHd].
Qed.

(** The calls of [_load_session] and [_save_session] that the classes make
    do not fit the parameters of the two methods. *)
Lemma backup_calls_refused :
  bind_args _load_session_sig 0 ["verbose"] = Raise TypeError
  ∧ bind_args _save_session_sig 0 [] = Raise TypeError
  ∧ bind_args _save_session_sig 0 ["display"] = Raise TypeError
  ∧ bind_args _save_session_sig 1 [] = Ok tt
  ∧ bind_args _load_session_sig 0 [] = Ok tt.
Proof. repeat split; reflexivity. Qed.

Section Backup.

Variable B : backend.
Variable cwd : ppath.
Variable prefix : string.

(** No call of the constructor of [VipSession] returns. *)
Lemma constructor_never_returns name0 input_dir pipeline settings output_dir verbose st :
  is_ok (VipSession_new B cwd prefix name0 input_dir pipeline settings output_dir
           verbose st).2 = false.
Proof.
  unfold VipSession_new, session_init.
  apply fails_bind_r. intros _. apply fails_bind_r. intros _.
  apply fails_bind_l. by apply call_fails.
Qed.

End Backup.

(** A session with every property defined, as [upload_inputs] and
    [launch_pipeline] leave it *)
Definition studied : state :=
  State (Some "study_1") (Some "app/1.0")
        (Some (PurePosixPath "/vip/Home/API/study_1/OUTPUTS"))
        (Some [("threshold", VStr "3")])
        (Some [("workflow-1", Workflow "Finished" "2023/01/01 00:00:00"
                  [Output (Some "/vip/Home/API/study_1/OUTPUTS/res.tgz") (Some false)
                          (Some 1024%Z) (Some "application/gzip")])])
        (Some (PurePosixPath "/home/user/data"))
        (Some (PurePosixPath "out"))
        (Some (PurePosixPath "/vip/Home/API/study_1/INPUTS"))
        ["app/1.0"] true 0 []
        (list_to_map [(PurePosixPath "/home", Dir); (PurePosixPath "/home/user", Dir)]).

Definition home : ppath := PurePosixPath "/home/user".

Definition session_file : ppath := PurePosixPath "/home/user/out/session_data.json".

(** The data of the session, and the session once they are saved *)
Definition studied_data : pyobj :=
  match _get (_PROPERTIES VipSession) studied with
  | (_, Ok data) => data
  | _ => PNone
  end.

Definition saved : state :=
  (_save_session DeletionFacts.slow_service home studied_data studied).1.

(** C1, at the failing input. The data of the session are saved as one JSON
    document in [session_data.json] under the local output directory, and
    the document holds them; but the construction of a session with the same
    name and output directory raises TypeError: the pipeline identifier and
    the VIP input directory of the saved session are not defined in the new
    one, and its inventory is empty. *)
Theorem session_is_not_resumed :
  (_save_session DeletionFacts.slow_service home studied_data studied).2 = Ok true
  ∧ (∃ doc, lfs saved !! session_file = Some (File (Text doc))
            ∧ of_json doc = studied_data)
  ∧ let r := VipSession_new DeletionFacts.slow_service home "/vip" "study_1" (AStr "") ""
               [] (AStr "out") true saved in
    r.2 = Raise TypeError
    ∧ _pipeline_id studied = Some "app/1.0" ∧ _pipeline_id r.1 = None
    ∧ is_Some (_vip_input_dir studied) ∧ _vip_input_dir r.1 = None
    ∧ _workflows r.1 = Some [].
Proof.
  split; [vm_compute; reflexivity|]. split.
  - eexists. split; vm_compute; reflexivity.
  - vm_compute. repeat split; try reflexivity. by eexists.
Qed.

(** The body of [_load_session], run in the session that has just been
    saved, returns the saved data with the output directory as a path. *)
Lemma load_body_returns_saved_data :
  ∃ d, _load_session home saved = (saved, Ok (Some d))
       ∧ studied_data = PDict (dict_set d "local_output_dir" (PStr "out"))
       ∧ dict_get d "local_output_dir" = Some (PPathObj (PurePosixPath "out")).
Proof. eexists. split; [vm_compute; reflexivity|]. split; vm_compute; reflexivity. Qed.

End BackupFacts.

(** ** Directory synchronization *)

Module SyncFacts.
Import Sync.

(** [p] exists in the store *)
Definition present (r : remote) (p : ppath) : Prop := pparts p = [] ∨ p ∈ rfs r.

(** The remote paths of the files of a local tree cloned at [vip_path] *)
Fixpoint remote_files (t : ltree) (vip_path : ppath) : list ppath :=
  match t with
  | LDir entries =>
      (fix below (es : list (string * ltree)) : list ppath :=
         match es with
         | [] => []
         | (n, t') :: es' =>
             match t' with
             | LFile => [entry vip_path n]
             | LDir _ => remote_files t' (entry vip_path n)
             | LOther => []
             end ++ below es'
         end) entries
  | _ => []
  end.

(** The remote paths of the directories of the tree, [vip_path] included *)
Fixpoint remote_dirs (t : ltree) (vip_path : ppath) : list ppath :=
  match t with
  | LDir entries =>
      vip_path ::
      (fix below (es : list (string * ltree)) : list ppath :=
         match es with
         | [] => []
         | (n, t') :: es' => remote_dirs t' (entry vip_path n) ++ below es'
         end) entries
  | _ => []
  end.

(** A store on which every directory and every file of the tree exists *)
Definition synced (r : remote) (t : ltree) (vip_path : ppath) : Prop :=
  Forall (present r) (remote_dirs t vip_path)
  ∧ Forall (fun p => p ∈ rfs r) (remote_files t vip_path).

(** Induction on a tree, with the hypothesis for each entry of a directory *)
Lemma ltree_ind' (P : ltree → Prop) :
  P LFile → P LOther →
  (∀ es, Forall (fun e => P e.2) es → P (LDir es)) →
  ∀ t, P t.
Proof.
  intros Hf Ho Hd. fix IH 1. intros [| |es]; [done..|].
  apply Hd. induction es as [|[n t'] es IHes]; constructor; [apply IH|apply IHes].
Qed.

Lemma wf_tree_dir es :
  wf_tree (LDir es) ↔ Forall (fun e => valid_name e.1 ∧ wf_tree e.2) es.
Proof.
  simpl. induction es as [|[n t'] es IH]; simpl.
  - split; [constructor|done].
  - rewrite Forall_cons. simpl. tauto.
Qed.

Lemma remote_files_dir es vp :
  remote_files (LDir es) vp =
  concat (map (fun e => match e.2 with
                        | LFile => [entry vp e.1]
                        | LDir _ => remote_files e.2 (entry vp e.1)
                        | LOther => []
                        end) es).
Proof.
  simpl. induction es as [|[n t'] es IH]; simpl; [done|]. by rewrite IH.
Qed.

Lemma remote_dirs_dir es vp :
  remote_dirs (LDir es) vp =
  vp :: concat (map (fun e => remote_dirs e.2 (entry vp e.1)) es).
Proof.
  simpl. f_equal. induction es as [|[n t'] es IH]; simpl; [done|]. by rewrite IH.
Qed.

Lemma synced_dir r es vp :
  synced r (LDir es) vp ↔
  present r vp
  ∧ Forall (fun e => match e.2 with
                     | LFile => entry vp e.1 ∈ rfs r
                     | LDir _ => synced r e.2 (entry vp e.1)
                     | LOther => True
                     end) es.
Proof.
  unfold synced. rewrite remote_files_dir, remote_dirs_dir, Forall_cons.
  induction es as [|[n t'] es IH]; simpl.
  - rewrite !Forall_nil. tauto.
  - rewrite !Forall_app, Forall_cons. simpl.
    destruct t' as [| |es']; simpl; rewrite ?Forall_singleton, ?Forall_nil; tauto.
Qed.

Lemma present_mono r r' p : rfs r ⊆ rfs r' → present r p → present r' p.
Proof. intros Hsub [H|H]; [by left|right; by apply Hsub]. Qed.

Lemma synced_mono r r' t vp : rfs r ⊆ rfs r' → synced r t vp → synced r' t vp.
Proof.
  intros Hsub [Hd Hf]. split.
  - eapply Forall_impl; [exact Hd|]. intros p. by apply present_mono.
  - eapply Forall_impl; [exact Hf|]. intros p. apply Hsub.
Qed.

(** *** Paths *)

Lemma entry_child p n : valid_name n → child p n = entry p n.
Proof. intros Hn. unfold child. rewrite Hn. reflexivity. Qed.

Lemma parent_entry p n : parent (entry p n) = p.
Proof. destruct p as [r ps]. unfold parent, entry. simpl. by rewrite removelast_last. Qed.

Lemma name_entry p n : name (entry p n) = n.
Proof. unfold name, entry. simpl. by rewrite last_last. Qed.

Lemma entry_parent q : pparts q ≠ [] → q = entry (parent q) (name q).
Proof.
  destruct q as [r ps]. unfold entry, parent, name. simpl. intros H.
  f_equal. by apply app_removelast_last.
Qed.

Lemma entry_parts p n : pparts (entry p n) ≠ [].
Proof. simpl. by destruct (pparts p). Qed.

(** *** Creation of the remote directory *)

Global Instance present_dec r p : Decision (present r p).
Proof. unfold present. apply _. Defined.

Lemma exists_run p r : vip_exists p r = (r, Ok (bool_decide (present r p))).
Proof. reflexivity. Qed.

Lemma create_run p r :
  vip_create_dir p r = (Remote ({[p]} ∪ rfs r) (attempts r), Ok tt).
Proof. reflexivity. Qed.

Lemma strip_prefix_app pre l : strip_prefix pre (pre ++ l) = Some l.
Proof.
  induction pre as [|x pre IH]; simpl; [done|]. by rewrite String.eqb_refl.
Qed.

Lemma valid_name_nonempty x : valid_name x → x ≠ "".
Proof. intros H ->. vm_compute in H. discriminate. Qed.

Lemma truthy_str_rel x b :
  x ≠ "" → truthy (str {| proot := ""; pparts := x :: b |}) = true.
Proof.
  intros Hx. destruct x as [|c x]; [done|].
  unfold str. simpl. by destruct b.
Qed.

(** What holds of a call of [make_down] that returns *)
Lemma make_down_post fuel path d r r' :
  make_down vip_create_dir fuel path d r = (r', Ok tt) →
  rfs r ⊆ rfs r' ∧ attempts r' = attempts r ∧ (d ∈ rfs r → path ∈ rfs r').
Proof.
  revert d r. induction fuel as [|fuel IH]; intros d r; simpl.
  - case_bool_decide as Hd; [|done]. intros [= <-]. by subst.
  - case_bool_decide as Hd; [intros [= <-]; by subst|].
    unfold bind, lift.
    destruct (relative_to path d) as [rel| |]; [|done..].
    destruct (first_part rel) as [x| |]; [|done..]. simpl.
    intros H. apply IH in H as (Hsub & Hatt & Hin). simpl in *.
    split; [etrans; [apply union_subseteq_r|exact Hsub]|]. split; [done|].
    intros _. apply Hin. apply elem_of_union_l. by apply elem_of_singleton.
Qed.

Lemma walk_up_state fuel node r : (walk_up vip_exists fuel node r).1 = r.
Proof.
  revert node. induction fuel as [|fuel IH]; intros node; simpl;
    unfold bind; rewrite exists_run; by case_bool_decide.
Qed.

Lemma mkdirs_post p r r' created :
  _mkdirs vip_exists vip_create_dir p r = (r', Ok created) →
  rfs r ⊆ rfs r' ∧ attempts r' = attempts r ∧ present r' p.
Proof.
  unfold _mkdirs, bind. rewrite exists_run.
  case_bool_decide as Hp; [intros [= <- <-]; done|].
  pose proof (walk_up_state (length (pparts p)) p r) as Hst.
  destruct (walk_up vip_exists (length (pparts p)) p r) as [r0 [fn| |]];
    simpl in Hst; subst r0; [|done..].
  rewrite create_run.
  destruct (make_down _ _ _ _ _) as [r1 [[]| |]] eqn:Hdown; [|done..].
  apply make_down_post in Hdown as (Hsub & Hatt & Hin). simpl in *.
  unfold lift. destruct (relative_to p (parent fn)) as [rel| |] eqn:Hrel; [|done..].
  intros [= <- <-]. split; [set_solver|]. split; [done|].
  right. apply Hin. set_solver.
Qed.

Lemma mkdirs_present p r :
  present r p → _mkdirs vip_exists vip_create_dir p r = (r, Ok "").
Proof.
  intros Hp. unfold _mkdirs, bind. rewrite exists_run. by rewrite bool_decide_true.
Qed.

(** *** The listing of the remote directory *)

Lemma listed r vp n :
  n ∈ map name (List.filter (fun q => bool_decide (parent q = vp ∧ pparts q ≠ []))
                            (elements (rfs r)))
  ↔ entry vp n ∈ rfs r.
Proof.
  rewrite list_elem_of_In, in_map_iff. split.
  - intros (q & Hn & Hq). apply filter_In in Hq as [Hq Hb].
    apply bool_decide_eq_true in Hb as [Hpar Hparts].
    apply list_elem_of_In, elem_of_elements in Hq.
    by rewrite (entry_parent q Hparts), Hpar, Hn in Hq.
  - intros Hin. exists (entry vp n). split; [apply name_entry|].
    apply filter_In. split; [by apply list_elem_of_In, elem_of_elements|].
    apply bool_decide_eq_true. split; [apply parent_entry|apply entry_parts].
Qed.

Lemma filter_none {A} (P : A → bool) l :
  (∀ x, In x l → P x = false) → List.filter P l = [].
Proof.
  induction l as [|x l IH]; simpl; [done|]. intros H.
  rewrite (H x) by by left. apply IH. intros y Hy. apply H. by right.
Qed.

Lemma local_files_In lp es f :
  In f (local_files lp es) ↔ ∃ n, In (n, LFile) es ∧ f = entry lp n.
Proof.
  unfold local_files. rewrite in_map_iff. split.
  - intros ([n t] & <- & Hin). apply filter_In in Hin as [Hin Hf].
    destruct t; try done. by exists n.
  - intros (n & Hin & ->). exists (n, LFile). split; [done|].
    by apply filter_In.
Qed.

Section Store.

Variable upload_ok : remote → ppath → ppath → bool.

(** The choice of the files to upload, the uploads, and the loop over the
    subdirectories, as [_upload_dir] has them *)
Definition files_to_upload (created : string) (local_path vip_path : ppath)
    (entries : list (string * ltree)) : M remote (list ppath) :=
  if truthy created then ret (local_files local_path entries)
  else
    let* elements := vip_list_elements vip_path in
    let vip_filenames := map name elements in
    ret (List.filter (fun f => negb (bool_decide (name f ∈ vip_filenames)))
                     (local_files local_path entries)).

Definition subdirs (local_path vip_path : ppath)
  : list (string * ltree) → M remote (list string) :=
  fix subdirs (es : list (string * ltree)) : M remote (list string) :=
    match es with
    | [] => ret []
    | (n, t') :: es' =>
        if is_dir t' then
          let* f := _upload_dir upload_ok t' (entry local_path n) (child vip_path n) in
          let* fs := subdirs es' in
          ret (f ++ fs)
        else subdirs es'
    end.

Lemma upload_dir_eq entries lp vp :
  _upload_dir upload_ok (LDir entries) lp vp =
  (let* created := _mkdirs vip_exists vip_create_dir vp in
   let* files := files_to_upload created lp vp entries in
   let* failures := upload_files upload_ok vp files in
   let* below := subdirs lp vp entries in
   ret (failures ++ below)).
Proof. reflexivity. Qed.

Lemma files_to_upload_spec created lp vp es r :
  ∃ files, files_to_upload created lp vp es r = (r, Ok files)
    ∧ (∀ f, In f files → In f (local_files lp es))
    ∧ (∀ f, In f (local_files lp es) → ¬ In f files → entry vp (name f) ∈ rfs r).
Proof.
  unfold files_to_upload. destruct (truthy created).
  - eexists. split; [reflexivity|]. split; [done|]. intros f Hf Hn. by destruct Hn.
  - eexists. split; [reflexivity|]. split.
    + intros f Hf. by apply filter_In in Hf as [Hf _].
    + intros f Hf Hn. apply listed.
      destruct (decide (name f ∈ map name
                  (List.filter (fun q => bool_decide (parent q = vp ∧ pparts q ≠ []))
                               (elements (rfs r))))) as [Hin|Hout]; [done|].
      destruct Hn. apply filter_In. split; [done|].
      by rewrite bool_decide_false.
Qed.

Lemma files_to_upload_synced lp vp es r :
  (∀ n, In (n, LFile) es → entry vp n ∈ rfs r) →
  files_to_upload "" lp vp es r = (r, Ok []).
Proof.
  intros Hall. unfold files_to_upload. simpl. unfold bind, vip_list_elements, gets, ret.
  f_equal. f_equal. apply filter_none. intros f Hf.
  apply local_files_In in Hf as (n & Hn & ->).
  rewrite name_entry. rewrite bool_decide_true; [done|]. apply listed. by apply Hall.
Qed.

Lemma upload_files_spec vp files r :
  ∃ r' failures, upload_files upload_ok vp files r = (r', Ok failures)
    ∧ rfs r ⊆ rfs r'
    ∧ (failures = [] → ∀ f, In f files → child vp (name f) ∈ rfs r')
    ∧ ((∀ s a b, upload_ok s a b = true) → failures = []).
Proof.
  revert r. induction files as [|f files IH]; intros r.
  - exists r, []. by repeat split.
  - simpl. unfold bind, _upload_file, vip_upload.
    destruct (upload_ok r f (child vp (name f))) eqn:Hok.
    + destruct (IH (Remote ({[child vp (name f)]} ∪ rfs r)
                           (attempts r ++ [(f, child vp (name f))])))
        as (r' & failures & -> & Hsub & Hall & Hacc).
      exists r', failures. simpl in *. split; [done|].
      split; [etrans; [apply union_subseteq_r|exact Hsub]|]. split; [|done].
      intros Hnil g [<-|Hg]; [|by apply Hall].
      apply Hsub, elem_of_union_l. by apply elem_of_singleton.
    + destruct (IH (Remote (rfs r) (attempts r ++ [(f, child vp (name f))])))
        as (r' & failures & -> & Hsub & Hall & Hacc).
      exists r', (str f :: failures). simpl in *. split; [done|].
      split; [done|]. split; [done|].
      intros Hacc'. by rewrite Hacc' in Hok.
Qed.

(** *** A call that reports no failure leaves the store synchronized *)

Lemma subdirs_first lp vp es :
  Forall (fun e => valid_name e.1 ∧ wf_tree e.2) es →
  Forall (fun e => ∀ lp vp r r1, wf_tree e.2 →
            _upload_dir upload_ok e.2 lp vp r = (r1, Ok []) →
            rfs r ⊆ rfs r1 ∧ synced r1 e.2 vp) es →
  ∀ r r1, subdirs lp vp es r = (r1, Ok []) →
  rfs r ⊆ rfs r1
  ∧ Forall (fun e => is_dir e.2 = true → synced r1 e.2 (entry vp e.1)) es.
Proof.
  intros Hwf IH. induction es as [|[n t'] es IHes]; intros r r1; simpl.
  - intros [= <-]. split; [done|constructor].
  - apply Forall_cons in Hwf as [[Hn Ht] Hwf]. apply Forall_cons in IH as [IHt IH].
    simpl in *. destruct (is_dir t') eqn:Hdir.
    + unfold bind.
      destruct (_upload_dir upload_ok t' (entry lp n) (child vp n) r)
        as [ra [f| |]] eqn:Hrun; [|done..].
      destruct (subdirs lp vp es ra) as [rb [fs| |]] eqn:Hrest; [|done..].
      unfold ret. intros [= <- Hnil]. apply app_eq_nil in Hnil as [-> ->].
      apply IHt in Hrun as [Hsub Hsync]; [|done].
      apply (IHes Hwf IH) in Hrest as [Hsub' Hall].
      split; [by etrans|]. constructor; [|done]. simpl. intros _.
      rewrite <- (entry_child _ _ Hn). by eapply synced_mono.
    + intros Hrest. apply (IHes Hwf IH) in Hrest as [Hsub' Hall].
      split; [done|]. constructor; [|done]. simpl. by rewrite Hdir.
Qed.

Lemma first_call t :
  ∀ lp vp r r1, wf_tree t →
    _upload_dir upload_ok t lp vp r = (r1, Ok []) →
    rfs r ⊆ rfs r1 ∧ synced r1 t vp.
Proof.
  induction t as [| |es IH] using ltree_ind'; intros lp vp r r1 Hwf; [done..|].
  rewrite upload_dir_eq. apply wf_tree_dir in Hwf. unfold bind at 1.
  destruct (_mkdirs vip_exists vip_create_dir vp r) as [ra [created| |]] eqn:Hmk;
    [|done..].
  apply mkdirs_post in Hmk as (Hsub_a & _ & Hpres).
  unfold bind at 1.
  destruct (files_to_upload_spec created lp vp es ra) as (files & -> & Hfiles & Hskip).
  unfold bind at 1.
  destruct (upload_files_spec vp files ra) as (rb & failures & -> & Hsub_b & Hup & _).
  unfold bind.
  destruct (subdirs lp vp es rb) as [rc [below| |]] eqn:Hbelow; [|done..].
  unfold ret. intros [= <- Hnil]. apply app_eq_nil in Hnil as [-> ->].
  apply (subdirs_first _ _ _ Hwf IH) in Hbelow as [Hsub_c Hdirs].
  assert (Hsub_ac : rfs ra ⊆ rfs rc) by (etrans; [exact Hsub_b|exact Hsub_c]).
  split; [etrans; [exact Hsub_a|exact Hsub_ac]|]. apply synced_dir. split.
  - eapply present_mono; [exact Hsub_ac|exact Hpres].
  - apply Forall_forall. intros [n t'] Hin. simpl.
    rewrite Forall_forall in Hdirs, Hwf.
    destruct (Hwf _ Hin) as [Hn _]. simpl in Hn.
    destruct t' as [| |es'].
    + apply list_elem_of_In in Hin.
      assert (Hf : In (entry lp n) (local_files lp es))
        by (apply local_files_In; by exists n).
      destruct (in_dec ppath_eq_dec (entry lp n) files) as [Hyes|Hno].
      * apply Hsub_c. specialize (Hup eq_refl _ Hyes).
        by rewrite name_entry, (entry_child _ _ Hn) in Hup.
      * apply Hsub_c, Hsub_b. specialize (Hskip _ Hf Hno). by rewrite name_entry in Hskip.
    + done.
    + by apply (Hdirs _ Hin).
Qed.

(** *** A call on a synchronized store does nothing *)

Lemma subdirs_synced lp vp es r :
  Forall (fun e => valid_name e.1 ∧ wf_tree e.2) es →
  Forall (fun e => ∀ lp vp r, wf_tree e.2 → is_dir e.2 = true → synced r e.2 vp →
            _upload_dir upload_ok e.2 lp vp r = (r, Ok [])) es →
  Forall (fun e => is_dir e.2 = true → synced r e.2 (entry vp e.1)) es →
  subdirs lp vp es r = (r, Ok []).
Proof.
  intros Hwf IH Hs. induction es as [|[n t'] es IHes]; simpl; [done|].
  apply Forall_cons in Hwf as [[Hn Ht] Hwf]. apply Forall_cons in IH as [IHt IH].
  apply Forall_cons in Hs as [Hst Hs]. simpl in *.
  destruct (is_dir t') eqn:Hdir; [|by apply IHes].
  unfold bind. rewrite (entry_child _ _ Hn), IHt by auto.
  by rewrite IHes.
Qed.

Lemma synced_noop t :
  ∀ lp vp r, wf_tree t → is_dir t = true → synced r t vp →
    _upload_dir upload_ok t lp vp r = (r, Ok []).
Proof.
  induction t as [| |es IH] using ltree_ind'; intros lp vp r Hwf Hdir Hs; [done..|].
  apply wf_tree_dir in Hwf. apply synced_dir in Hs as [Hp Hs].
  rewrite upload_dir_eq. unfold bind.
  rewrite (mkdirs_present _ _ Hp), files_to_upload_synced; last first.
  { intros n Hin. rewrite Forall_forall in Hs.
    apply list_elem_of_In in Hin. by apply (Hs _ Hin). }
  simpl. rewrite (subdirs_synced lp vp es r Hwf IH); [done|].
  eapply Forall_impl; [exact Hs|]. intros [n t']. simpl. by destruct t'.
Qed.

(** *** Calls that report no failure *)

(** X1. A call of [_upload_dir] that reports no failure leaves every file of
    the local tree on VIP, at the path that mirrors its local path, and
    removes nothing from VIP. *)
Theorem no_failure_means_uploaded t lp vp r r1 :
  wf_tree t →
  _upload_dir upload_ok t lp vp r = (r1, Ok []) →
  rfs r ⊆ rfs r1 ∧ ∀ p, p ∈ remote_files t vp → p ∈ rfs r1.
Proof.
  intros Hwf Hrun. destruct (first_call t lp vp r r1 Hwf Hrun) as [Hsub [_ Hf]].
  split; [done|]. intros p Hp. rewrite Forall_forall in Hf. by apply Hf.
Qed.

(** X2. After a call of [_upload_dir] that reported no failure, a second call
    with the same arguments attempts no upload, changes nothing on VIP and
    reports no failure. *)
Theorem second_upload_does_nothing t lp vp r r1 :
  wf_tree t →
  _upload_dir upload_ok t lp vp r = (r1, Ok []) →
  _upload_dir upload_ok t lp vp r1 = (r1, Ok []).
Proof.
  intros Hwf Hrun. destruct (first_call t lp vp r r1 Hwf Hrun) as [_ Hs].
  apply synced_noop; [done| |done]. by destruct t.
Qed.

(** C2, as the code has it. When a call of [_upload_dir] has reported no
    failure, the same call made again, nothing having changed locally,
    attempts no upload, reports no failure and leaves VIP as it was. *)
Theorem second_call_uploads_nothing t lp vp r r1 :
  wf_tree t →
  _upload_dir upload_ok t lp vp r = (r1, Ok []) →
  let second := _upload_dir upload_ok t lp vp r1 in
  second.2 = Ok [] ∧ attempts second.1 = attempts r1 ∧ rfs second.1 = rfs r1.
Proof.
  intros Hwf Hfirst second. unfold second.
  destruct (first_call t lp vp r r1 Hwf Hfirst) as [_ Hs].
  by rewrite (synced_noop t lp vp r1); [|done|by destruct t|done].
Qed.

End Store.

End SyncFacts.

Module SyncExamples.
Import Sync SyncFacts.

(** A store that accepts every upload, and one that refuses the first upload
    it is asked for *)
Definition accepting : remote → ppath → ppath → bool := fun _ _ _ => true.
Definition reluctant : remote → ppath → ppath → bool :=
  fun r _ _ => negb (Nat.eqb (length (attempts r)) 0).

Definition dataset : ltree :=
  LDir [("a.txt", LFile); ("sub", LDir [("b.txt", LFile)]); ("socket", LOther)].

Definition data : ppath := PurePosixPath "/data".
Definition inputs : ppath := PurePosixPath "/vip/in".
Definition empty_store : remote := Remote ∅ [].

(** The store once [dataset] is cloned at [inputs] *)
Definition cloned : remote :=
  Remote (list_to_set (map PurePosixPath
            ["/vip"; "/vip/in"; "/vip/in/a.txt"; "/vip/in/sub"; "/vip/in/sub/b.txt"]))
         [(PurePosixPath "/data/a.txt", PurePosixPath "/vip/in/a.txt");
          (PurePosixPath "/data/sub/b.txt", PurePosixPath "/vip/in/sub/b.txt")].

Lemma dataset_wf : wf_tree dataset.
Proof. vm_compute. repeat split. Qed.

Lemma dataset_cloned :
  _upload_dir accepting dataset data inputs empty_store = (cloned, Ok []).
Proof. vm_compute. reflexivity. Qed.

Lemma no_failure_means_uploaded_witness :
  rfs empty_store ⊆ rfs cloned
  ∧ ∀ p, p ∈ remote_files dataset inputs → p ∈ rfs cloned.
Proof.
  exact (no_failure_means_uploaded accepting dataset data inputs empty_store cloned
           dataset_wf dataset_cloned).
Defined.

Lemma second_upload_does_nothing_witness :
  _upload_dir accepting dataset data inputs cloned = (cloned, Ok []).
Proof.
  exact (second_upload_does_nothing accepting dataset data inputs empty_store cloned
           dataset_wf dataset_cloned).
Defined.

Lemma second_call_uploads_nothing_witness :
  let second := _upload_dir accepting dataset data inputs cloned in
  second.2 = Ok [] ∧ attempts second.1 = attempts cloned ∧ rfs second.1 = rfs cloned.
Proof.
  exact (second_call_uploads_nothing accepting dataset data inputs empty_store cloned
           dataset_wf dataset_cloned).
Defined.

(** C2 as stated fails when the first call reported a failure: the file
    whose upload was refused is uploaded by the second call, nothing having
    changed locally. *)
Lemma refused_upload_is_retried :
  let one := LDir [("a.txt", LFile)] in
  let r1 := (_upload_dir reluctant one data inputs empty_store).1 in
  (_upload_dir reluctant one data inputs empty_store).2 = Ok ["/data/a.txt"]
  ∧ attempts r1 = [(PurePosixPath "/data/a.txt", entry inputs "a.txt")]
  ∧ (_upload_dir reluctant one data inputs r1).2 = Ok []
  ∧ attempts (_upload_dir reluctant one data inputs r1).1
    = [(PurePosixPath "/data/a.txt", entry inputs "a.txt");
       (PurePosixPath "/data/a.txt", entry inputs "a.txt")].
Proof. vm_compute. repeat split; reflexivity. Qed.

End SyncExamples.

(** ** Creation of a directory and of its missing ancestors *)

Module DirsFacts.
Import Dirs.

Section Storage.

Context {St : Type}.

(** [cls._exists(path, location)] and [cls._create_dir(path, location)] *)
Variable exists_ : ppath → M St bool.
Variable create_dir : ppath → M St unit.

(** The paths that the storage holds *)
Variable holds : St → ppath → Prop.

(** Two states of the storage with the same paths *)
Definition alike (s s' : St) : Prop := ∀ q, holds s' q ↔ holds s q.

(** A storage on which what exists lies in a directory that exists *)
Definition tree (s : St) : Prop := ∀ p, holds s p → holds s (parent p).

(** The root exists; a request about the existence of a path is answered,
    and answered according to what the storage holds, which it leaves as it
    is; a directory that is missing from a directory that exists can be
    created, which adds this path and nothing else. *)
Hypothesis root_held : ∀ s root, holds s (PPath root []).
Hypothesis exists_answers :
  ∀ p s, ∃ s' b, exists_ p s = (s', Ok b) ∧ (b = true ↔ holds s p) ∧ alike s s'.
Hypothesis create_adds :
  ∀ p s, holds s (parent p) → ¬ holds s p →
    ∃ s', create_dir p s = (s', Ok tt) ∧ ∀ q, holds s' q ↔ q = p ∨ holds s q.

Lemma tree_prefix s root a k :
  tree s → holds s (PPath root (a ++ k)) → holds s (PPath root a).
Proof.
  intros Ht. induction k as [|x k IH] using rev_ind.
  - by rewrite app_nil_r.
  - intros H. apply IH. apply Ht in H. unfold parent in H. simpl in H.
    by rewrite app_assoc, removelast_last in H.
Qed.

Lemma walk_up_held fuel root pre s :
  ¬ holds s (PPath root pre) → length pre ≤ S fuel →
  ∃ a x b s', pre = a ++ x :: b
    ∧ walk_up exists_ fuel (PPath root pre) s = (s', Ok (PPath root (a ++ [x])))
    ∧ alike s s'
    ∧ holds s (PPath root a) ∧ ¬ holds s (PPath root (a ++ [x])).
Proof.
  revert pre s. induction fuel as [|fuel IH]; intros pre s Hno Hlen.
  - destruct pre as [|x [|y pre]]; simpl in Hlen; [|clear Hlen|lia].
    + destruct Hno. apply root_held.
    + destruct (exists_answers (parent (PPath root [x])) s) as (s' & b & Hrun & Hb & Hs).
      exists [], x, [], s'. split; [done|]. split; [|split; [done|split; [apply root_held|done]]].
      simpl. unfold bind. rewrite Hrun.
      assert (b = true) as -> by (apply Hb; apply root_held). done.
  - destruct (exists_last (l := pre)) as [pre0 [x ->]].
    { intros ->. destruct Hno. apply root_held. }
    assert (Hpar : parent (PPath root (pre0 ++ [x])) = PPath root pre0).
    { unfold parent. simpl. by rewrite removelast_last. }
    destruct (exists_answers (PPath root pre0) s) as (s' & b & Hrun & Hb & Hs).
    destruct b.
    + exists pre0, x, [], s'. split; [done|]. split; [|split; [done|split; [by apply Hb|done]]].
      simpl. unfold bind. by rewrite Hpar, Hrun.
    + assert (Hp : ¬ holds s (PPath root pre0)) by (intros H; by apply Hb in H).
      destruct (IH pre0 s') as (a & y & b & s'' & -> & Hwalk & Hs' & Ha & Hy).
      { intros H. by apply Hs in H. }
      { rewrite length_app in Hlen. simpl in Hlen. lia. }
      exists a, y, (b ++ [x]), s''. split; [by rewrite <- app_assoc|].
      split; [simpl; unfold bind; by rewrite Hpar, Hrun|].
      split; [intros q; etrans; [apply Hs'|apply Hs]|].
      split; [by apply Hs|]. intros H. by apply Hy, Hs.
Qed.

Lemma make_down_held root rest :
  ∀ fuel pre s,
    Forall valid_name rest → length rest ≤ fuel →
    holds s (PPath root pre) →
    (∀ k, k ≠ [] → ¬ holds s (PPath root (pre ++ k))) →
    ∃ s', make_down create_dir fuel (PPath root (pre ++ rest)) (PPath root pre) s
          = (s', Ok tt)
      ∧ ∀ q, holds s' q ↔
             holds s q ∨ ∃ k, k ≠ [] ∧ k `prefix_of` rest ∧ q = PPath root (pre ++ k).
Proof.
  induction rest as [|x rest IH]; intros fuel pre s Hv Hlen Hpre Hnone.
  - exists s. rewrite app_nil_r. split.
    + destruct fuel; simpl; by rewrite bool_decide_true.
    + intros q. split; [by left|]. intros [H|(k & Hk & Hp & _)]; [done|].
      apply prefix_nil_inv in Hp. done.
  - destruct fuel as [|fuel]; simpl in Hlen; [lia|].
    apply Forall_cons in Hv as [Hx Hv].
    destruct (create_adds (PPath root (pre ++ [x])) s) as (s1 & Hmk & Hs1).
    { unfold parent. simpl. by rewrite removelast_last. }
    { apply Hnone. done. }
    destruct (IH fuel (pre ++ [x]) s1 Hv) as (s' & Hrun & Hs'); [lia| | |].
    { apply Hs1. by left. }
    { intros k Hk H. apply Hs1 in H as [H|H].
      - injection H as H. rewrite <- (app_nil_r (pre ++ [x])) in H at 2.
        apply app_inv_head in H. done.
      - rewrite <- app_assoc in H. revert H. apply Hnone. done. }
    exists s'. split.
    + simpl. rewrite bool_decide_false; last first.
      { intros [= H]. apply (f_equal length) in H. rewrite length_app in H.
        simpl in H. lia. }
      unfold bind, lift, relative_to. simpl.
      rewrite String.eqb_refl, SyncFacts.strip_prefix_app. simpl.
      rewrite (SyncFacts.entry_child _ _ Hx). unfold entry. simpl.
      rewrite Hmk. rewrite <- app_assoc in Hrun. exact Hrun.
    + intros q. rewrite Hs', Hs1. split.
      * intros [[->|H]|(k & Hk & Hp & ->)].
        -- right. exists [x]. split; [done|]. split; [|done]. by exists rest.
        -- by left.
        -- right. exists (x :: k). split; [done|]. split; [by apply prefix_cons|].
           by rewrite <- app_assoc.
      * intros [H|(k & Hk & Hp & ->)]; [by left; right|].
        destruct k as [|y k]; [done|].
        apply prefix_cons_inv_1 in Hp as Hy. subst y.
        apply prefix_cons_inv_2 in Hp.
        destruct k as [|z k].
        -- left. by left.
        -- right. exists (z :: k). split; [done|]. split; [done|].
           by rewrite <- app_assoc.
Qed.

(** X4. On a storage that answers as above and on which what exists lies in
    a directory that exists, [_mkdirs] returns for every path made of valid
    names: afterwards the path exists, what existed still does, the only
    paths created are the path and ancestors of it, and the string returned
    is empty exactly when the path existed before. *)
Theorem mkdirs_creates_the_missing_ancestors p s :
  wf_path p → tree s →
  ∃ s' created,
    _mkdirs exists_ create_dir p s = (s', Ok created)
    ∧ holds s' p
    ∧ (∀ q, holds s q → holds s' q)
    ∧ (created = "" ↔ holds s p)
    ∧ (∀ q, holds s' q →
         holds s q ∨ (proot q = proot p ∧ pparts q `prefix_of` pparts p)).
Proof.
  intros Hwf Htree. unfold _mkdirs. unfold bind at 1.
  destruct (exists_answers p s) as (s0 & e & Hrun & He & Hs0). rewrite Hrun.
  destruct e.
  - exists s0, "". split; [done|]. assert (Hp : holds s p) by by apply He.
    split; [by apply Hs0|]. split; [intros q; by apply Hs0|].
    split; [done|]. intros q Hq. left. by apply Hs0.
  - assert (Hp : ¬ holds s p) by (intros H; by apply He in H).
    destruct p as [root pre].
    destruct (walk_up_held (length pre) root pre s0)
      as (a & x & b & s1 & -> & Hwalk & Hs1 & Ha & Hx); [|simpl; lia|].
    { intros H. by apply Hp, Hs0. }
    simpl pparts. unfold bind at 1. rewrite Hwalk.
    unfold wf_path in Hwf. simpl in Hwf.
    apply Forall_app in Hwf as [_ Hwf]. apply Forall_cons in Hwf as [Hvx Hvb].
    destruct (create_adds (PPath root (a ++ [x])) s1) as (s2 & Hmk & Hs2).
    { unfold parent. simpl. rewrite removelast_last. by apply Hs1. }
    { intros H. by apply Hx, Hs1. }
    unfold bind at 1. rewrite Hmk.
    destruct (make_down_held root b (length (a ++ x :: b)) (a ++ [x]) s2 Hvb)
      as (s3 & Hdown & Hs3).
    { rewrite length_app. simpl. lia. }
    { apply Hs2. by left. }
    { intros k Hk H. apply Hs2 in H as [H|H].
      - injection H as H. rewrite <- (app_nil_r (a ++ [x])) in H at 2.
        apply app_inv_head in H. done.
      - apply Hs1, Hs0 in H. apply Hx, Hs0.
        by apply (tree_prefix s root (a ++ [x]) k). }
    rewrite <- app_assoc in Hdown. simpl in Hdown.
    unfold bind at 1. rewrite Hdown.
    unfold bind, lift, relative_to, parent. simpl.
    rewrite removelast_last, String.eqb_refl, SyncFacts.strip_prefix_app.
    eexists s3, _. split; [reflexivity|].
    assert (Hold : ∀ q, holds s q → holds s3 q).
    { intros q Hq. apply Hs3. left. apply Hs2. right. by apply Hs1, Hs0. }
    split; [|split; [done|split]].
    + apply Hs3. destruct b as [|y b].
      * left. apply Hs2. by left.
      * right. exists (y :: b). split; [done|]. split; [done|].
        by rewrite <- app_assoc.
    + split; [|done]. intros Hcreated. exfalso.
      pose proof (SyncFacts.truthy_str_rel x b (SyncFacts.valid_name_nonempty x Hvx)) as Ht.
      by rewrite Hcreated in Ht.
    + intros q Hq. apply Hs3 in Hq as [Hq|(k & Hk & [k' ->] & ->)].
      * apply Hs2 in Hq as [->|Hq].
        -- right. split; [done|]. simpl. exists b. by rewrite <- app_assoc.
        -- left. by apply Hs0, Hs1.
      * right. split; [done|]. simpl. exists k'. by rewrite <- !app_assoc.
Qed.

End Storage.

End DirsFacts.

Module DirsExamples.
Import Sync SyncFacts SyncExamples DirsFacts.

Lemma store_answers p r :
  ∃ r' b, vip_exists p r = (r', Ok b) ∧ (b = true ↔ present r p)
          ∧ alike present r r'.
Proof.
  exists r, (bool_decide (present r p)). split; [apply exists_run|].
  split; [apply bool_decide_eq_true|done].
Qed.

Lemma store_creates p r :
  present r (parent p) → ¬ present r p →
  ∃ r', vip_create_dir p r = (r', Ok tt) ∧ ∀ q, present r' q ↔ q = p ∨ present r q.
Proof.
  intros _ _. eexists. split; [apply create_run|]. intros q. unfold present. simpl.
  rewrite elem_of_union, elem_of_singleton. tauto.
Qed.

Lemma mkdirs_creates_the_missing_ancestors_witness :
  ∃ r' created,
    Dirs._mkdirs vip_exists vip_create_dir inputs empty_store = (r', Ok created)
    ∧ present r' inputs
    ∧ (∀ q, present empty_store q → present r' q)
    ∧ (created = "" ↔ present empty_store inputs)
    ∧ (∀ q, present r' q →
         present empty_store q
         ∨ (proot q = proot inputs ∧ pparts q `prefix_of` pparts inputs)).
Proof.
  apply (mkdirs_creates_the_missing_ancestors vip_exists vip_create_dir present).
  - intros s root. by left.
  - apply store_answers.
  - apply store_creates.
  - repeat constructor.
  - intros p [Hp|Hp]; [left; simpl; by rewrite Hp|]. by apply elem_of_empty in Hp.
Defined.

End DirsExamples.

(** ** Path virtualizer *)

Module SettingsFacts.
Import Settings PathFacts.

(** Induction on a value, with the hypothesis for each element of a list *)
Lemma value_ind' (P : value → Prop) :
  (∀ s, P (VStr s)) → (∀ p, P (VPath p)) → (∀ i, P (VOther i)) →
  (∀ l, Forall P l → P (VList l)) →
  ∀ v, P v.
Proof.
  intros Hs Hp Ho Hl. fix IH 1. intros [s|p|l|i]; [done..| |done].
  apply Hl. induction l as [|x l IHl]; constructor; [apply IH|apply IHl].
Qed.

(** *** Paths *)

Lemma strip_prefix_Some pre l rest :
  strip_prefix pre l = Some rest → l = pre ++ rest.
Proof.
  revert l. induction pre as [|x pre IH]; intros l; simpl.
  - by intros [= ->].
  - destruct l as [|y l]; [done|].
    destruct (String.eqb_spec x y) as [->|]; [|done].
    intros H. by rewrite (IH _ H).
Qed.

Lemma relative_to_inv p root r :
  relative_to p root = Ok r →
  proot p = proot root ∧ pparts p = pparts root ++ pparts r ∧ proot r = "".
Proof.
  unfold relative_to. destruct (String.eqb_spec (proot p) (proot root)) as [Hr|]; [|done].
  destruct (strip_prefix (pparts root) (pparts p)) as [rest|] eqn:Hs; [|done].
  intros [= <-]. simpl. split; [done|]. split; [|done]. by apply strip_prefix_Some.
Qed.

Lemma joinpath_relative p root r : relative_to p root = Ok r → joinpath root r = p.
Proof.
  intros H. destruct (relative_to_inv _ _ _ H) as (Hroot & Hparts & Hrel).
  unfold joinpath, is_absolute. rewrite Hrel. simpl.
  destruct p as [pr pp]. simpl in *. by rewrite Hroot, Hparts.
Qed.

Lemma fold_dotdot acc l :
  ".." ∉ l → fold_left dotdot l acc = acc ++ l.
Proof.
  revert acc. induction l as [|x l IH]; intros acc Hno; simpl.
  - by rewrite app_nil_r.
  - apply not_elem_of_cons in Hno as [Hx Hl]. unfold dotdot at 2.
    destruct (String.eqb_spec x "..") as [->|]; [done|].
    rewrite IH by done. by rewrite <- app_assoc.
Qed.

Lemma resolve_relative cwd p root r :
  relative_to p root = Ok r → ".." ∉ pparts r →
  relative_to (resolve cwd p) (resolve cwd root) = Ok r.
Proof.
  intros H Hno. destruct (relative_to_inv _ _ _ H) as (Hroot & Hparts & Hrel).
  unfold relative_to, resolve, is_absolute. simpl. rewrite Hroot, Hparts.
  destruct (negb (String.eqb (proot root) "")).
  - rewrite fold_left_app, (fold_dotdot _ _ Hno), SyncFacts.strip_prefix_app.
    destruct r as [rr rp]. simpl in *. by subst.
  - rewrite app_assoc, (fold_left_app _ (pparts cwd ++ pparts root)),
      (fold_dotdot _ _ Hno), SyncFacts.strip_prefix_app.
    destruct r as [rr rp]. simpl in *. by subst.
Qed.

Lemma removelast_Forall {A} (P : A → Prop) l : Forall P l → Forall P (removelast l).
Proof.
  induction l as [|x [|y l] IH]; simpl; [done|by constructor|].
  intros H. apply Forall_cons in H as [Hx H]. constructor; [done|by apply IH].
Qed.

Lemma fold_dotdot_Forall (P : string → Prop) l acc :
  Forall P acc → Forall (fun x => x ≠ ".." → P x) l → Forall P (fold_left dotdot l acc).
Proof.
  revert acc. induction l as [|x l IH]; intros acc Hacc Hl; simpl; [done|].
  apply Forall_cons in Hl as [Hx Hl]. apply IH; [|done]. unfold dotdot.
  destruct (String.eqb_spec x "..") as [->|Hne].
  - by apply removelast_Forall.
  - apply Forall_app. split; [done|]. constructor; [by apply Hx|constructor].
Qed.

Lemma resolve_no_dotdot cwd p : ".." ∉ pparts (resolve cwd p).
Proof.
  unfold resolve. simpl. intros Hin.
  assert (H : Forall (fun x => x ≠ "..")
                (fold_left dotdot
                   (if is_absolute p then pparts p else pparts cwd ++ pparts p) [])).
  { apply fold_dotdot_Forall; [constructor|]. by apply Forall_forall. }
  rewrite Forall_forall in H. by apply (H _ Hin).
Qed.

(** What relativizing and materializing a path gives is another spelling of
    the same resolved path. *)
Lemma resolve_joinpath cwd p root r :
  relative_to (resolve cwd p) (resolve cwd root) = Ok r →
  resolve cwd (joinpath root r) = resolve cwd p.
Proof.
  intros H. destruct (relative_to_inv _ _ _ H) as (_ & Hparts & Hrel).
  assert (Hno : ".." ∉ pparts r).
  { intros Hin. apply (resolve_no_dotdot cwd p). rewrite Hparts.
    apply elem_of_app. by right. }
  unfold joinpath, is_absolute. rewrite Hrel. simpl.
  unfold resolve in *. simpl in *. f_equal. rewrite Hparts.
  unfold is_absolute. simpl.
  destruct (negb (String.eqb (proot root) "")).
  - by rewrite fold_left_app, (fold_dotdot _ _ Hno).
  - by rewrite app_assoc, fold_left_app, (fold_dotdot _ _ Hno).
Qed.

(** A string without the character of code 0 *)
Fixpoint nul_free (s : string) : bool :=
  match s with
  | EmptyString => true
  | String c s' => negb (Ascii.eqb c zero) && nul_free s'
  end.

Section Virtualizer.

Variable prefix : string.
Variable cwd : ppath.
Variable self : dirs.

(** A string that is its own [pathlib] spelling *)
Definition spelled (P : string) : bool := String.eqb (str (PurePosixPath P)) P.

(** The values made of strings in their [pathlib] spelling that start with
    the server prefix and whose path extends the VIP input directory,
    component by component *)
Fixpoint remote_paths (v : value) : bool :=
  match v with
  | VStr P =>
      spelled P && String.prefix prefix P
      && match _vip_input_dir self with
         | Some d => is_ok (relative_to (PurePosixPath P) d)
         | None => false
         end
  | VList l => forallb remote_paths l
  | _ => false
  end.

(** The session once [input_settings] is set *)
Definition with_settings (settings : dict value) : dirs :=
  Dirs (_local_input_dir self) (_vip_input_dir self) (Some settings).

Lemma remote_round_trip v :
  remote_paths v = true →
  ∃ v', parse_value prefix cwd self v = Ok v'
        ∧ ∀ settings, get_input (with_settings settings) "vip" v' = v.
Proof.
  induction v as [P|p|i|l IH] using value_ind'; simpl; [|done..|].
  - intros H. apply andb_prop in H as [H Hext]. apply andb_prop in H as [Hsp Hpre].
    apply String.eqb_eq in Hsp. eexists. split; [reflexivity|]. intros settings.
    unfold parse_single. rewrite Hpre.
    destruct (_vip_input_dir self) as [d|] eqn:Hd; [|done].
    destruct (relative_to (PurePosixPath P) d) as [r| |] eqn:Hr; [|done..].
    simpl. rewrite Hd. by rewrite (joinpath_relative _ _ _ Hr), Hsp.
  - intros H. rewrite forallb_forall in H.
    assert (∃ l', comprehension (parse_value prefix cwd self) l = Ok l'
                  ∧ ∀ settings, map (get_input (with_settings settings) "vip") l' = l)
      as (l' & -> & Hl').
    { induction l as [|x l IHl]; simpl.
      - by exists [].
      - apply Forall_cons in IH as [IHx IH].
        destruct IHx as (x' & -> & Hx'); [apply H; by left|].
        destruct IHl as (l' & -> & Hl'); [done|intros y Hy; apply H; by right|].
        exists (x' :: l'). split; [done|]. intros settings. simpl.
        by rewrite Hx', Hl'. }
    eexists. split; [reflexivity|]. intros settings. simpl. by rewrite Hl'.
Qed.

(** C3, as the code has it. Settings made of strings, or lists of strings, in
    their [pathlib] spelling, that start with the server prefix and lie under
    the VIP input directory are accepted by [_parse_input_settings], and
    [_get_input_settings] for the target [vip], in the session that holds
    the parsed settings, gives them back. A local path, given as a string
    without the character of code 0, comes back from the round trip for the
    target [local] as a string that resolves to the same path; it comes back
    unchanged when [_parse_input_settings] leaves it as it is. *)
Theorem path_round_trip :
  (∀ settings,
     forallb (fun kv => remote_paths kv.2) settings = true →
     ∃ parsed,
       _parse_input_settings prefix cwd self settings = Ok parsed
       ∧ _get_input_settings (with_settings parsed) "vip" = Ok settings)
  ∧ (∀ P d,
       normal cwd → normal d → _local_input_dir self = Some d →
       String.prefix prefix P = false → nul_free P = true →
       ∃ v' P',
         parse_value prefix cwd self (VStr P) = Ok v'
         ∧ (∀ settings, get_input (with_settings settings) "local" v' = VStr P')
         ∧ resolve cwd (PurePosixPath P') = resolve cwd (PurePosixPath P)
         ∧ (v' = VStr P → P' = P)).
Proof.
  split.
  - intros settings H. rewrite forallb_forall in H.
    assert (∃ parsed,
              _parse_input_settings prefix cwd self settings = Ok parsed
              ∧ ∀ s, map (fun kv => (kv.1, get_input (with_settings s) "vip" kv.2))
                         parsed = settings) as (parsed & Hp & Hg).
    { unfold _parse_input_settings.
      induction settings as [|[k v] settings IHs]; simpl.
      - by exists [].
      - destruct (remote_round_trip v) as (v' & -> & Hv'); [apply (H (k, v)); by left|].
        destruct IHs as (parsed & -> & Hparsed); [intros y Hy; apply H; by right|].
        exists ((k, v') :: parsed). split; [done|]. intros s. simpl.
        by rewrite Hv', Hparsed. }
    exists parsed. split; [done|]. unfold _get_input_settings. simpl. by rewrite Hg.
  - intros P d Hcwd Hnd Hd Hpre _. simpl. unfold parse_single. rewrite Hpre, Hd.
    destruct (relative_to (resolve cwd (PurePosixPath P)) (resolve cwd d))
      as [r| |] eqn:Hr.
    + exists (VPath r), (str (joinpath d r)). split; [done|]. split.
      { intros settings. simpl. by rewrite Hd. }
      split; [|done]. rewrite parse_str; [by apply resolve_joinpath|].
      destruct (relative_to_inv _ _ _ Hr) as (_ & Hparts & Hrel).
      unfold joinpath, is_absolute. rewrite Hrel. simpl.
      destruct Hnd as [Hroot Hcomp]. split; [done|]. simpl.
      apply Forall_app. split; [done|].
      assert (Hall : Forall component (pparts (resolve cwd (PurePosixPath P)))).
      { unfold resolve. simpl. apply fold_dotdot_Forall; [constructor|].
        destruct (parse_normal P) as [_ HP]. destruct Hcwd as [_ Hc].
        eapply Forall_impl; [|by intros x Hx _; exact Hx].
        destruct (is_absolute (PurePosixPath P)); [done|]. by apply Forall_app. }
      rewrite Hparts in Hall. by apply Forall_app in Hall as [_ Hall].
    + exists (VStr P), P. by repeat split.
    + exists (VStr P), P. by repeat split.
Qed.

(** X7. Whatever its spelling, a local path given as a string comes back from
    the round trip as a string that resolves to the same path; it comes back
    unchanged when [_parse_input_settings] leaves it as it is. *)
Theorem local_round_trip_resolves P d :
  normal cwd → normal d →
  _local_input_dir self = Some d →
  String.prefix prefix P = false →
  ∃ v' P',
    parse_value prefix cwd self (VStr P) = Ok v'
    ∧ (∀ settings, get_input (with_settings settings) "local" v' = VStr P')
    ∧ resolve cwd (PurePosixPath P') = resolve cwd (PurePosixPath P)
    ∧ (v' = VStr P → P' = P).
Proof.
  intros Hcwd Hnd Hd Hpre. simpl. unfold parse_single. rewrite Hpre, Hd.
  destruct (relative_to (resolve cwd (PurePosixPath P)) (resolve cwd d)) as [r| |] eqn:Hr.
  - exists (VPath r), (str (joinpath d r)). split; [done|]. split.
    { intros settings. simpl. by rewrite Hd. }
    split; [|done]. rewrite parse_str; [by apply resolve_joinpath|].
    destruct (relative_to_inv _ _ _ Hr) as (_ & Hparts & Hrel).
    unfold joinpath, is_absolute. rewrite Hrel. simpl.
    destruct Hnd as [Hroot Hcomp]. split; [done|]. simpl.
    apply Forall_app. split; [done|].
    assert (Hall : Forall component (pparts (resolve cwd (PurePosixPath P)))).
    { unfold resolve. simpl. apply fold_dotdot_Forall; [constructor|].
      destruct (parse_normal P) as [_ HP]. destruct Hcwd as [_ Hc].
      eapply Forall_impl; [|by intros x Hx _; exact Hx].
      destruct (is_absolute (PurePosixPath P)); [done|]. by apply Forall_app. }
    rewrite Hparts in Hall. by apply Forall_app in Hall as [_ Hall].
  - exists (VStr P), P. by repeat split.
  - exists (VStr P), P. by repeat split.
Qed.

(** *** Types of the values *)




End Virtualizer.

End SettingsFacts.

Module SettingsExamples.
Import Settings PathFacts SettingsFacts.

Definition home : ppath := PurePosixPath "/home/user".

(** A session with its two input directories, and settings that name files
    of the dataset on VIP *)
Definition session : dirs :=
  Dirs (Some (PurePosixPath "/data/in")) (Some (PurePosixPath "/vip/Home/in")) None.

Definition settings : dict value :=
  [("image", VStr "/vip/Home/in/sub/a.nii");
   ("masks", VList [VStr "/vip/Home/in/m1.nii"; VStr "/vip/Home/in/m2.nii"])].

Lemma path_round_trip_witness :
  (∃ parsed,
     _parse_input_settings "/vip" home session settings = Ok parsed
     ∧ _get_input_settings (with_settings session parsed) "vip" = Ok settings)
  ∧ ∃ v' P',
      parse_value "/vip" home session (VStr "/data/in/sub/a.nii") = Ok v'
      ∧ (∀ settings, get_input (with_settings session settings) "local" v' = VStr P')
      ∧ resolve home (PurePosixPath P') = resolve home (PurePosixPath "/data/in/sub/a.nii")
      ∧ (v' = VStr "/data/in/sub/a.nii" → P' = "/data/in/sub/a.nii").
Proof.
  split.
  - apply (proj1 (path_round_trip "/vip" home session) settings). reflexivity.
  - apply (proj2 (path_round_trip "/vip" home session) "/data/in/sub/a.nii"
             (PurePosixPath "/data/in"));
      [apply parse_normal|apply parse_normal|reflexivity|reflexivity|reflexivity].
Defined.

Lemma local_round_trip_resolves_witness :
  ∃ v' P',
    parse_value "/vip" home session (VStr "/data/in/x/../a.nii") = Ok v'
    ∧ (∀ settings, get_input (with_settings session settings) "local" v' = VStr P')
    ∧ resolve home (PurePosixPath P') = resolve home (PurePosixPath "/data/in/x/../a.nii")
    ∧ (v' = VStr "/data/in/x/../a.nii" → P' = "/data/in/x/../a.nii").
Proof.
  apply (local_round_trip_resolves "/vip" home session "/data/in/x/../a.nii"
           (PurePosixPath "/data/in"));
    [apply parse_normal|apply parse_normal|reflexivity|reflexivity].
Defined.




(** C3 as stated fails: the string that comes back may differ from the one
    given although the path lies under its input directory. On VIP, a path
    written with a doubled separator comes back in its [pathlib] spelling;
    locally, an absolute path under a relative input directory comes back
    relative. *)
Lemma round_trip_changes_the_spelling :
  (∃ parsed,
     _parse_input_settings "/vip" home session [("image", VStr "/vip/Home/in//a.nii")]
     = Ok parsed
     ∧ _get_input_settings (with_settings session parsed) "vip"
       = Ok [("image", VStr "/vip/Home/in/a.nii")])
  ∧ let relative := Dirs (Some (PurePosixPath "data")) None None in
    ∃ parsed,
      _parse_input_settings "/vip" home relative [("image", VStr "/home/user/data/a.nii")]
      = Ok parsed
      ∧ _get_input_settings (with_settings relative parsed) "local"
        = Ok [("image", VStr "data/a.nii")].
Proof. split; eexists; split; vm_compute; reflexivity. Qed.

End SettingsExamples.

(** ** Calls of the lifecycle *)

Module CallFacts.
Import Settings Client DictFacts MonadFacts LifecycleFacts.

(** A loop that returns has seen its condition fail. *)
Lemma while_exit {St} fuel (cond : M St bool) (body : M St unit) s s' :
  while fuel cond body s = (s', Ok tt) → ∃ s0, cond s0 = (s', Ok false).
Proof.
  revert s. induction fuel as [|fuel IH]; intros s; simpl; unfold bind;
    destruct (cond s) as [s1 [[]|e|]] eqn:Hc; try done.
  - intros [= <-]. by exists s.
  - destruct (body s1) as [s2 [[]|e|]]; try done. apply IH.
  - intros [= <-]. by exists s.
Qed.

(** The workflows of the inventory that are running *)
Definition running (ws : registry) : list (string * workflow) :=
  List.filter (fun kv => String.eqb (status kv.2) "Running") ws.

(** No workflow of the inventory, if there is one, is running. *)
Definition settled (st : state) : Prop :=
  ∀ ws wid w, _workflows st = Some ws → dict_get ws wid = Some w → status w ≠ "Running".

Lemma still_running_run st :
  _still_running st =
  match _workflows st with
  | Some ws => (st, Ok (length (running ws)))
  | None => (st, Raise AttributeError)
  end.
Proof. unfold _still_running, bind, get_workflows, attr. by destruct (_workflows st). Qed.

Lemma running_none ws wid w :
  length (running ws) = 0 → dict_get ws wid = Some w → status w ≠ "Running".
Proof.
  intros Hlen Hget Hs. apply dict_get_elem in Hget.
  assert (Hin : In (wid, w) (running ws)).
  { apply filter_In. split; [by apply list_elem_of_In|]. simpl. by apply String.eqb_eq. }
  destruct (running ws); [done|discriminate].
Qed.

Lemma report_call_run npos kws st :
  (call _execution_report_sig npos kws _execution_report st).1 = st.
Proof.
  unfold call, bind, lift. destruct (bind_args _ _ _); [|done..].
  unfold _execution_report, bind, get_workflows, attr. by destruct (_workflows st).
Qed.

Section Calls.

Variable B : backend.
Variable cwd : ppath.
Variable check_settings : klass → string → M state bool.

(** X8. When [monitor_workflows] returns, no workflow of the inventory is
    running. *)
Theorem monitor_returns_when_nothing_runs cls fuel refresh_time verbose st st' :
  monitor_workflows B cwd cls fuel refresh_time verbose st = (st', Ok tt) →
  is_Some (_workflows st') ∧ settled st'.
Proof.
  unfold monitor_workflows. unfold bind at 1, get_workflows at 1, attr.
  destruct (_workflows st) as [ws|] eqn:Hws; [|done].
  destruct ws as [|kv ws].
  { intros [= <-]. split; [by rewrite Hws|]. intros ws wid w Hw. rewrite Hws in Hw.
    by injection Hw as <-. }
  unfold bind at 1.
  destruct (_update_workflows B cwd cls true st) as [st1 [[]|e|]]; [|done..].
  unfold bind at 1. rewrite still_running_run.
  destruct (_workflows st1) as [ws1|] eqn:Hws1; [|done].
  assert (Hend : ∀ s, (∃ wsx, _workflows s = Some wsx ∧ length (running wsx) = 0) →
            (bind (call _execution_report_sig 1 [] _execution_report)
                  (fun _ => ret tt) s = (st', Ok tt)) →
            is_Some (_workflows st') ∧ settled st').
  { intros s (wsx & Hx & Hlen) Hrun. unfold bind in Hrun.
    pose proof (report_call_run 1 [] s) as Hs.
    destruct (call _ _ _ _ s) as [s2 [report|e|]]; [|done..].
    simpl in Hs. subst s2. injection Hrun as <-. split; [by rewrite Hx|].
    intros ws' wid w Hw Hget. rewrite Hx in Hw. injection Hw as <-.
    by eapply running_none. }
  destruct (0 <? length (running ws1)) eqn:Hpos.
  - unfold bind at 1. unfold bind at 1.
    pose proof (report_call_run 1 [] st1) as Hs.
    destruct (call _ _ _ _ st1) as [s2 [report|e|]]; [|done..].
    simpl in Hs. subst s2.
    destruct (while fuel _ _ st1) as [st2 [[]|e|]] eqn:Hloop; [|done..].
    apply while_exit in Hloop as [s0 Hcond].
    unfold bind in Hcond. rewrite still_running_run in Hcond.
    destruct (_workflows s0) as [ws0|] eqn:Hws0; [|done].
    injection Hcond as <- Hzero. apply Nat.ltb_ge in Hzero.
    apply Hend. exists ws0. split; [done|lia].
  - unfold bind at 1. simpl. apply Nat.ltb_ge in Hpos.
    apply Hend. exists ws1. split; [done|lia].
Qed.

(** The update of the inventory by [VipSession] ends in the call
    [self._save_session(display=False)], which the method refuses. *)
Lemma session_update_fails : fails (_update_workflows B cwd VipSession true).
Proof.
  unfold _update_workflows. apply fails_bind_r. intros _.
  apply fails_bind_r. intros _. apply fails_bind_l. by apply call_fails.
Qed.

(** X9. [VipSession.monitor_workflows] never returns when the inventory holds
    a workflow: its update of the inventory raises TypeError. *)
Theorem session_monitor_never_returns fuel refresh_time verbose st kv ws :
  _workflows st = Some (kv :: ws) →
  is_ok (monitor_workflows B cwd VipSession fuel refresh_time verbose st).2 = false.
Proof.
  intros Hws. unfold monitor_workflows. unfold bind at 1, get_workflows at 1, attr.
  rewrite Hws. apply fails_bind_l, session_update_fails.
Qed.

(** X10. [VipSession.launch_pipeline] never returns: whatever the launch of
    the parent class did, workflows started included, the session is left as
    that launch left it and the call ends with the TypeError of the call
    [self._save_session()], which replaces any error of the launch. *)
Theorem session_launch_never_returns pipeline_id input_settings output_dir nb_runs st :
  let parent :=
    (let* out := gets _vip_output_dir in
     launcher_launch_pipeline B cwd check_settings VipSession pipeline_id input_settings
       (option_map (fun d => AStr (str d)) out) nb_runs) st in
  let r := launch_pipeline B cwd check_settings VipSession pipeline_id input_settings
             output_dir nb_runs st in
  r.1 = parent.1
  ∧ (r.2 = Raise TypeError ∨ (r.2 = Unfinished ∧ parent.2 = Unfinished)).
Proof.
  simpl. unfold launch_pipeline, finally.
  destruct (bind _ _ st) as [st1 [[]|e|]]; simpl; auto.
Qed.

(** *** [finish] and the workflows that are running *)

(** The deletion requests among events *)
Definition deletions (h : list event) : list event :=
  List.filter (fun e => match e with EvDeletePath _ => true | _ => false end) h.

(** The states with the same deletion requests *)
Definition untouched : relation state := same (fun st => deletions (hist st)).

Global Instance untouched_preorder : PreOrder untouched.
Proof. unfold untouched. apply _. Qed.

Lemma untouched_request e :
  match e with EvDeletePath _ => False | _ => True end →
  respects untouched (request e).
Proof.
  intros He st. unfold untouched, same, request, modify. destruct st; simpl.
  unfold deletions. rewrite List.filter_app. simpl. destruct e; try done;
    by rewrite app_nil_r.
Qed.

Lemma untouched_inventory f :
  (∀ st, hist (f st) = hist st) → respects untouched (modify f).
Proof.
  intros Hf. apply respects_modify. intros st. unfold untouched, same. by rewrite Hf.
Qed.

Lemma untouched_get_exec_infos cls wid : respects untouched (_get_exec_infos B cls wid).
Proof.
  unfold _get_exec_infos, _handle_vip_error.
  solve_respects; by apply untouched_request.
Qed.

Lemma untouched_store wid infos : respects untouched (store_workflow wid infos).
Proof.
  unfold store_workflow, get_workflows. solve_respects.
  apply untouched_inventory. by intros [].
Qed.

Lemma untouched_launcher_update cls : respects untouched (launcher_update_workflows B cls).
Proof.
  pose proof untouched_get_exec_infos. pose proof untouched_store.
  unfold launcher_update_workflows, get_workflows. solve_respects.
Qed.

Lemma untouched_update cls save : respects untouched (_update_workflows B cwd cls save).
Proof.
  pose proof (untouched_launcher_update cls) as Hl.
  unfold _update_workflows. destruct cls; [done|].
  apply respects_bind; [apply _|done|]. intros _. destruct save; [|solve_respects].
  apply respects_bind; [apply _|apply untouched_inventory; by intros []|]. intros _.
  apply respects_bind_fails; [apply _| |by apply call_fails].
  unfold call. apply respects_bind_fails; [apply _|solve_respects|].
  intros st'. reflexivity.
Qed.

Lemma untouched_report npos kws :
  respects untouched (call _execution_report_sig npos kws _execution_report).
Proof. intros st. unfold untouched, same. by rewrite report_call_run. Qed.

Lemma untouched_exists cls p loc : respects untouched (_exists B cwd cls p loc).
Proof.
  unfold _exists, launcher_exists, answered_json, _handle_vip_error.
  solve_respects; by apply untouched_request.
Qed.

(** Settled inventories stay settled. *)
Definition stays_settled : relation state := fun st st' => settled st → settled st'.

Global Instance stays_settled_preorder : PreOrder stays_settled.
Proof.
  split; [intros st H; exact H|]. intros a b c Hab Hbc Ha. apply Hbc, Hab, Ha.
Qed.

Lemma same_settled st st' : same (observed Inventory) st st' → stays_settled st st'.
Proof.
  unfold same. simpl. intros [= Heq] Hs ws wid w Hw. rewrite Heq in Hw. by eapply Hs.
Qed.

Lemma settled_mark_removed cls : respects stays_settled (mark_removed B cwd cls).
Proof.
  unfold mark_removed.
  apply respects_bind; [apply _| |intros workflows].
  { eapply respects_weaken; [apply same_settled|apply respects_get_workflows]. }
  apply respects_for_each; [apply _|]. intros wid st.
  unfold bind at 1, get_workflows at 1, attr.
  destruct (_workflows st) as [current|] eqn:Hcur; [|reflexivity]. simpl.
  destruct (dict_get current wid) as [w|] eqn:Hget; [|reflexivity].
  match goal with
  | |- stays_settled st (bind ?g _ st).1 =>
      assert (Hgone : respects (same (observed Inventory)) g)
        by (pose proof (respects_exists B cwd Inventory); solve_respects);
      specialize (Hgone st); unfold same in Hgone; simpl in Hgone;
      unfold bind at 1; destruct (g st) as [st1 [gone|e|]]
  end; simpl in *; [|apply same_settled; by unfold same..].
  destruct gone; [|apply same_settled; by unfold same].
  injection Hgone as Hgone. intros Hs ws' wid' w' Hw' Hget'.
  unfold store_workflow, bind, get_workflows, attr, modify in Hw'.
  rewrite Hgone, Hcur in Hw'. simpl in Hw'. injection Hw' as <-.
  rewrite dict_get_set in Hget'.
  destruct (String.eqb wid' wid); [by injection Hget' as <-|].
  by eapply Hs.
Qed.

(** What [finish] does once it has found that nothing is running *)
Definition removal (cls : klass) (timeout : Z) : M state unit :=
  let* paths := _path_to_delete cls in
  for_each paths (fun pl =>
    let* e := _exists B cwd cls pl.1 pl.2 in
    if (e : bool) then _delete_and_check B cwd cls pl.1 pl.2 timeout >> ret tt
    else ret tt) >>
  mark_removed B cwd cls.

Lemma settled_removal cls timeout : respects stays_settled (removal cls timeout).
Proof.
  pose proof (settled_mark_removed cls).
  assert (Hinv : ∀ {A} (m : M state A),
            respects (same (observed Inventory)) m → respects stays_settled m).
  { intros A m. apply respects_weaken, same_settled. }
  unfold removal.
  apply respects_bind; [apply _|apply Hinv, respects_path_to_delete|]. intros paths.
  apply respects_bind; [apply _| |done].
  apply respects_for_each; [apply _|]. intros pl.
  apply respects_bind; [apply _|apply Hinv, respects_exists|]. intros [].
  - apply respects_bind; [apply _|apply Hinv, respects_delete_and_check|].
    intros _. solve_respects.
  - solve_respects.
Qed.

Lemma launcher_finish_spares cls timeout verbose st st' r :
  launcher_finish B cwd cls timeout verbose st = (st', r) →
  deletions (hist st') = deletions (hist st) ∨ settled st'.
Proof.
  unfold launcher_finish. fold (removal cls timeout).
  unfold bind at 1. rewrite still_running_run.
  destruct (_workflows st) as [ws|] eqn:Hws; [|intros [= <- <-]; by left].
  assert (Hrem : ∀ s, settled s → settled (removal cls timeout s).1)
    by (intros s; apply settled_removal).
  destruct (0 <? length (running ws)) eqn:Hpos.
  - unfold bind at 1. unfold bind at 1.
    pose proof (untouched_update cls true st) as Hup. unfold untouched, same in Hup.
    destruct (_update_workflows B cwd cls true st) as [st1 [[]|e|]]; simpl in Hup;
      [|intros [= <- <-]; by left..].
    unfold bind at 1. rewrite still_running_run.
    destruct (_workflows st1) as [ws1|] eqn:Hws1; [|intros [= <- <-]; by left].
    destruct (0 <? length (running ws1)) eqn:Hpos1.
    + destruct verbose.
      * unfold bind at 1. unfold bind at 1.
        pose proof (report_call_run 0 ["verbose"] st1) as Hs.
        destruct (call _ _ _ _ st1) as [s2 [report|e|]]; simpl in Hs; subst s2;
          intros [= <- <-]; by left.
      * intros [= <- <-]. by left.
    + intros Hrun. change (removal cls timeout st1 = (st', r)) in Hrun. right.
      replace st' with (removal cls timeout st1).1 by (by rewrite Hrun).
      apply Hrem. intros ws' wid w Hw Hget. rewrite Hws1 in Hw.
      injection Hw as <-. apply Nat.ltb_ge in Hpos1.
      eapply running_none; [|done]. lia.
  - intros Hrun. change (removal cls timeout st = (st', r)) in Hrun. right.
    replace st' with (removal cls timeout st).1 by (by rewrite Hrun).
    apply Hrem. intros ws' wid w Hw Hget. rewrite Hws in Hw.
    injection Hw as <-. apply Nat.ltb_ge in Hpos.
    eapply running_none; [|done]. lia.
Qed.

Lemma finish_spares cls timeout verbose st st' r :
  finish B cwd cls timeout verbose st = (st', r) →
  deletions (hist st') = deletions (hist st) ∨ settled st'.
Proof.
  unfold finish. destruct cls; [apply launcher_finish_spares|].
  unfold bind at 1.
  destruct (launcher_finish B cwd VipSession timeout verbose st) as [s1 r1] eqn:Hl.
  apply launcher_finish_spares in Hl.
  destruct r1 as [[]|e|]; [|by intros [= <- <-]..].
  match goal with
  | |- ?m s1 = _ → _ =>
      assert (Hq : respects untouched m)
        by (pose proof untouched_exists; unfold _vip_dir; solve_respects);
      assert (Hi : respects (same (observed Inventory)) m)
        by (pose proof (respects_exists B cwd Inventory);
            pose proof (respects_vip_dir Inventory); solve_respects);
      specialize (Hq s1); specialize (Hi s1); unfold untouched, same in Hq, Hi;
      destruct (m s1) as [s2 r2]
  end.
  simpl in *. injection Hi as Hi. intros [= <- <-]. destruct Hl as [Hl|Hl].
  - left. by rewrite Hq.
  - right. intros ws' wid' w' Hw'. rewrite Hi in Hw'. by eapply Hl.
Qed.

(** X11. [finish] requests no deletion when it leaves a running workflow in
    the inventory: data are removed from VIP only once nothing is running. *)
Theorem finish_spares_running_workflows cls timeout verbose st st' r ws wid w :
  finish B cwd cls timeout verbose st = (st', r) →
  _workflows st' = Some ws → dict_get ws wid = Some w → status w = "Running" →
  deletions (hist st') = deletions (hist st).
Proof.
  intros Hrun Hws Hget Hstatus.
  destruct (finish_spares _ _ _ _ _ _ Hrun) as [H|H]; [done|].
  by destruct (H ws wid w Hws Hget).
Qed.

(** *** Start requests *)

Lemma starts_setters :
  (∀ v, respects (same (observed Starts)) (pipeline_id_setter v))
  ∧ (∀ v, respects (same (observed Starts)) (vip_output_dir_setter v))
  ∧ (∀ v, respects (same (observed Starts)) (input_settings_setter v))
  ∧ (∀ v, respects (same (observed Starts)) (_check_pipeline_id v)).
Proof.
  assert (Hm : ∀ f, (∀ st, hist (f st) = hist st) →
                    respects (same (observed Starts)) (modify f)).
  { intros f Hf. apply respects_modify. intros st. unfold same. simpl. by rewrite Hf. }
  assert (Hc : ∀ v, respects (same (observed Starts)) (_check_pipeline_id v)).
  { intros v. unfold _check_pipeline_id. solve_respects. }
  split_and!; [|
    |
    |done].
  - intros v. unfold pipeline_id_setter. solve_respects; apply Hm; by intros [].
  - intros v. unfold vip_output_dir_setter. solve_respects; apply Hm; by intros [].
  - intros v. unfold input_settings_setter. solve_respects; apply Hm; by intros [].
Qed.

Lemma starts_launch_checks cls pipeline_id input_settings output_dir :
  (∀ c loc, respects (same (observed Starts)) (check_settings c loc)) →
  respects (same (observed Starts))
    (launch_checks B cwd check_settings cls pipeline_id input_settings output_dir).
Proof.
  intros Hcheck. destruct starts_setters as (Hp & Ho & Hi & Hc).
  pose proof (respects_mkdirs B cwd Starts) as Hmk.
  unfold launch_checks. solve_respects.
Qed.

(** X12. [launch_pipeline] sends a start request only once every check has
    passed, and a launch that returns has sent exactly [nb_runs] of them
    (none when [nb_runs] is negative). *)
Theorem launch_starts_after_checks cls pipeline_id input_settings output_dir nb_runs st :
  (∀ c loc, respects (same (observed Starts)) (check_settings c loc)) →
  let checks :=
    launch_checks B cwd check_settings cls pipeline_id input_settings output_dir st in
  let r := launcher_launch_pipeline B cwd check_settings cls pipeline_id input_settings
             output_dir nb_runs st in
  (is_ok checks.2 = false → r = checks ∧ starts (hist r.1) = starts (hist st))
  ∧ (r.2 = Ok tt → starts (hist r.1) = starts (hist st) + Z.to_nat nb_runs).
Proof.
  intros Hcheck. simpl. unfold launcher_launch_pipeline, bind.
  pose proof (starts_launch_checks cls pipeline_id input_settings output_dir Hcheck st)
    as Hs.
  unfold same in Hs. simpl in Hs. injection Hs as Hs.
  destruct (launch_checks B cwd check_settings cls pipeline_id input_settings output_dir st)
    as [st1 [[]|e|]]; simpl in *.
  - split; [done|]. unfold launch_loop.
    destruct (for_each _ _ st1) as [st2 [[]|e|]] eqn:Hloop; [|done..]. intros _.
    apply launch_rounds in Hloop. rewrite length_seq in Hloop. simpl. lia.
  - by split.
  - by split.
Qed.

(** *** Confirmation of a deletion *)

Lemma exists_on_vip cls p st st' b :
  _exists B cwd cls p "vip" st = (st', Ok b) →
  vip_exists B st' (str p) = Ok b ∧ now st' = now st.
Proof.
  assert (H : launcher_exists B cls p "vip" st = (st', Ok b) →
              vip_exists B st' (str p) = Ok b ∧ now st' = now st).
  { unfold launcher_exists. simpl. unfold bind, request, modify, get. simpl.
    destruct (vip_exists B _ (str p)) as [b'|e|] eqn:Hans; simpl.
    - intros [= <- <-]. split; [done|]. by destruct st.
    - by destruct e.
    - done. }
  by destruct cls.
Qed.

(** X13. Whatever [timeout] it is given, [_delete_and_check] returns True only
    when the last answer of VIP was that the path does not exist, and
    returns False only once 300 seconds or more have passed since the
    deletion. *)
Theorem delete_and_check_confirms cls p timeout st st' (b : bool) :
  _delete_and_check B cwd cls p "vip" timeout st = (st', Ok b) →
  if b then vip_exists B st' (str p) = Ok false
  else (300 ≤ now st' - now st)%Z.
Proof.
  unfold _delete_and_check. unfold bind at 1.
  destruct (_delete_path B p "vip" st) as [st1 [[]|e|]] eqn:Hdel; [|done..].
  assert (Hnow : now st1 = now st).
  { unfold _delete_path in Hdel. simpl in Hdel.
    unfold bind, request, modify, get in Hdel. simpl in Hdel.
    destruct (vip_delete_path B _ _); [|done]. injection Hdel as <-. by destruct st. }
  unfold bind at 1, gets at 1. unfold bind at 1.
  destruct (while _ _ _ st1) as [st2 [[]|e|]] eqn:Hloop; [|done..].
  apply while_exit in Hloop as [s0 Hcond].
  unfold bind at 1, gets at 1. unfold ret. intros [= <- <-].
  unfold bind at 1, gets at 1 in Hcond. rewrite Hnow in *.
  destruct (Z.ltb_spec (now s0 - now st) 300) as [Hlt|Hge].
  - apply exists_on_vip in Hcond as [Hans Heq]. rewrite Heq.
    by destruct (Z.ltb_spec (now s0 - now st) 300); [|lia].
  - injection Hcond as <-. by destruct (Z.ltb_spec (now s0 - now st) 300); [lia|].
Qed.

End Calls.

(** *** Backup *)

Section Saving.

Variable B : backend.
Variable cwd : ppath.

Lemma walk_up_respects (R : relation state) `{!PreOrder R}
    (ex : ppath → M state bool) fuel p :
  (∀ q, respects R (ex q)) → respects R (walk_up ex fuel p).
Proof.
  intros Hex. revert p. induction fuel as [|fuel IH]; intros p; simpl; solve_respects.
Qed.

Lemma make_down_respects (R : relation state) `{!PreOrder R}
    (mk : ppath → M state unit) fuel path d :
  (∀ q, respects R (mk q)) → respects R (make_down mk fuel path d).
Proof.
  intros Hmk. revert d. induction fuel as [|fuel IH]; intros d; simpl; solve_respects.
Qed.

Section Untouched.

Context {X : Type} (proj : state → X).
Hypothesis proj_lfs : ∀ v st, proj (set_lfs v st) = proj st.

Lemma local_write_same p n : respects (same proj) (local_write cwd p n).
Proof. unfold local_write. apply respects_modify. intros st. apply proj_lfs. Qed.

Lemma local_mkdirs_same p : respects (same proj) (_mkdirs B cwd VipSession p "local").
Proof.
  pose proof local_write_same as Hw.
  assert (Hex : ∀ q, respects (same proj) (_exists B cwd VipSession q "local")).
  { intros q. unfold _exists. simpl. solve_respects. }
  assert (Hmk : ∀ q, respects (same proj) (_create_dir B cwd VipSession q "local")).
  { intros q. unfold _create_dir. simpl. unfold local_mkdir. solve_respects. }
  unfold _mkdirs, Dirs._mkdirs.
  apply respects_bind; [apply _|apply Hex|]. intros [|]; [solve_respects|].
  apply respects_bind;
    [apply _|apply walk_up_respects; [apply _|intros q; apply Hex]|]. intros first_node.
  apply respects_bind; [apply _|apply Hmk|]. intros _.
  apply respects_bind;
    [apply _|apply make_down_respects; [apply _|intros q; apply Hmk]|]. intros _.
  solve_respects.
Qed.

End Untouched.

Lemma local_lookup_parts st p :
  pparts (resolve cwd p) ≠ [] → local_lookup cwd st p = lfs st !! resolve cwd p.
Proof. unfold local_lookup. by destruct (pparts (resolve cwd p)). Qed.

Lemma save_file_parts d :
  pparts (resolve cwd (child d _SAVE_FILE)) ≠ [] ∧ parent (child d _SAVE_FILE) = d.
Proof.
  assert (Hc : child d _SAVE_FILE = entry d "session_data.json") by reflexivity.
  rewrite Hc. split.
  - unfold resolve, entry. simpl.
    destruct (is_absolute _); rewrite ?app_assoc, fold_left_app; simpl;
      unfold dotdot at 1; simpl; by destruct (fold_left _ _ _).
  - destruct d as [r ps]. unfold parent, entry. simpl. by rewrite removelast_last.
Qed.

(** X14. What [_save_session] has written, the body of [_load_session] reads
    back: the saved dictionary, with the local output directory, as a path,
    under the key [local_output_dir]. *)
Theorem saved_session_is_loaded data st st' :
  _save_session B cwd (PDict data) st = (st', Ok true) →
  ∃ d, _local_output_dir st' = Some d
       ∧ _load_session cwd st'
         = (st', Ok (Some (dict_set data "local_output_dir" (PPathObj d)))).
Proof.
  unfold _save_session. unfold bind at 1, gets at 1.
  destruct (_local_output_dir st) as [d|] eqn:Hd; [|done].
  destruct (save_file_parts d) as [Hparts Hparent].
  unfold bind at 1.
  pose proof (local_mkdirs_same _local_output_dir ltac:(by intros ? [])
                (parent (child d _SAVE_FILE)) st) as Hsame.
  unfold same in Hsame.
  destruct (_mkdirs B cwd VipSession _ "local" st) as [s1 [is_new|e|]]; [|done..].
  simpl in Hsame. unfold bind at 1, get at 1.
  destruct (local_is_dir cwd s1 (child d _SAVE_FILE)); [done|].
  unfold bind at 1, local_write at 1, modify at 1.
  unfold bind at 1, lift.
  destruct (to_json (PDict data)) as [doc| |] eqn:Hdoc; [|done..].
  unfold bind, local_write, modify, ret. intros [= <-].
  exists d. split; [destruct s1; simpl in *; congruence|].
  unfold _load_session, bind, gets, get.
  replace (_local_output_dir (set_lfs _ (set_lfs _ s1))) with (Some d)
    by (destruct s1; simpl in *; congruence).
  rewrite (local_lookup_parts _ _ Hparts).
  replace (lfs (set_lfs _ (set_lfs _ s1)) !! resolve cwd (child d _SAVE_FILE))
    with (Some (File (Text doc))) by (destruct s1; simpl; by rewrite lookup_insert_eq).
  by rewrite (BackupFacts.of_to_json _ _ Hdoc), Hparent.
Qed.

End Saving.

End CallFacts.

Module CallExamples.
Import Settings Client DictFacts MonadFacts LifecycleFacts DeletionFacts
  LifecycleExamples CallFacts.

(** A session with one workflow that was running when it was last looked at *)
Definition busy : state :=
  State (Some "study_1") (Some "app/1.0") (Some (PurePosixPath "/vip/Home/out"))
        None (Some [("workflow-1", Workflow "Running" "" [])])
        None None None ["app/1.0"] true 0 [] ∅.

(** The session once the workflow is found finished, and once it is found
    still running *)
Definition over : state :=
  State (Some "study_1") (Some "app/1.0") (Some (PurePosixPath "/vip/Home/out"))
        None (Some [("workflow-1", Workflow "Finished" "" [])])
        None None None ["app/1.0"] true 0
        [EvExecutionInfo "workflow-1"; EvExecResults "workflow-1"] ∅.

Definition still_busy : state :=
  State (Some "study_1") (Some "app/1.0") (Some (PurePosixPath "/vip/Home/out"))
        None (Some [("workflow-1", Workflow "Running" "2023/01/01 00:00:00" [])])
        None None None ["app/1.0"] true 0
        [EvExecutionInfo "workflow-1"; EvExecResults "workflow-1"] ∅.

Lemma monitor_returns_when_nothing_runs_witness :
  is_Some (_workflows over) ∧ settled over.
Proof.
  apply (monitor_returns_when_nothing_runs slow_service root_dir VipLauncher 1 30 true
           busy over).
  vm_compute. reflexivity.
Defined.

Lemma session_monitor_never_returns_witness :
  is_ok (monitor_workflows slow_service root_dir VipSession 1 30 true busy).2 = false.
Proof.
  apply (session_monitor_never_returns slow_service root_dir 1 30 true busy
           ("workflow-1", Workflow "Running" "" []) []).
  reflexivity.
Defined.

Lemma finish_spares_running_workflows_witness :
  deletions (hist still_busy) = deletions (hist busy).
Proof.
  apply (finish_spares_running_workflows two_slots root_dir VipLauncher 300 false
           busy still_busy (Ok tt)
           [("workflow-1", Workflow "Running" "2023/01/01 00:00:00" [])]
           "workflow-1" (Workflow "Running" "2023/01/01 00:00:00" []));
    vm_compute; reflexivity.
Defined.

Lemma launch_starts_after_checks_witness :
  let checks := launch_checks two_slots root_dir accept_settings VipLauncher
                  None None None ready in
  let r := launcher_launch_pipeline two_slots root_dir accept_settings VipLauncher
             None None None 2 ready in
  (is_ok checks.2 = false → r = checks ∧ starts (hist r.1) = starts (hist ready))
  ∧ (r.2 = Ok tt → starts (hist r.1) = starts (hist ready) + Z.to_nat 2).
Proof.
  apply (launch_starts_after_checks two_slots root_dir accept_settings VipLauncher
           None None None 2 ready).
  intros c loc st. reflexivity.
Defined.

(** A service on which a deleted path is gone at once *)
Definition prompt_service : backend :=
  {| vip_exists := fun _ _ => Ok false;
     vip_create_dir := fun _ _ => Ok true;
     vip_delete_path := fun _ _ => true;
     vip_init_exec := fun _ => Ok "workflow-1";
     vip_execution_info := fun _ _ => Ok ("Finished", 0%Z);
     vip_get_exec_results := fun _ _ => Ok [];
     vip_download := fun _ _ _ => None;
     strftime := fun _ _ => "" |}.

Definition cleared : state :=
  State (Some "s1") None (Some (PurePosixPath "/vip/out")) None (Some [])
        None None None [] true 0 [EvDeletePath "/vip/out"; EvExists "/vip/out"] ∅.

Lemma delete_and_check_confirms_witness :
  vip_exists prompt_service cleared (str (PurePosixPath "/vip/out")) = Ok false.
Proof.
  apply (delete_and_check_confirms prompt_service root_dir VipLauncher
           (PurePosixPath "/vip/out") 10 idle cleared true).
  vm_compute. reflexivity.
Defined.

(** A session about to be saved in [/home/user/out], and the session once it
    is saved *)
Definition home : ppath := PurePosixPath "/home/user".

Definition unsaved : state :=
  State (Some "study_1") None None None (Some []) None
        (Some (PurePosixPath "out")) None [] true 0 []
        (list_to_map [(PurePosixPath "/home", Dir); (PurePosixPath "/home/user", Dir)]).

Definition session_data : list (string * pyobj) :=
  [("session_name", PStr "study_1"); ("local_output_dir", PStr "out");
   ("workflows", PDict [])].

Definition saved : state :=
  State (Some "study_1") None None None (Some []) None
        (Some (PurePosixPath "out")) None [] true 0 []
        (list_to_map
           [(PurePosixPath "/home", Dir); (PurePosixPath "/home/user", Dir);
            (PurePosixPath "/home/user/out", Dir);
            (PurePosixPath "/home/user/out/session_data.json",
             File (Text (JObj [("session_name", JStr "study_1");
                               ("local_output_dir", JStr "out");
                               ("workflows", JObj [])])))]).

Lemma session_data_saved :
  _save_session slow_service home (PDict session_data) unsaved = (saved, Ok true).
Proof. vm_compute. reflexivity. Qed.

Lemma saved_session_is_loaded_witness :
  ∃ d, _local_output_dir saved = Some d
       ∧ _load_session home saved
         = (saved, Ok (Some (dict_set session_data "local_output_dir" (PPathObj d)))).
Proof.
  exact (saved_session_is_loaded slow_service home session_data unsaved saved
           session_data_saved).
Defined.

End CallExamples.

(** ** The outcome of an extraction *)

Module OutputFacts.
Import Settings Client DictFacts MonadFacts PathFacts.

(** *** Resolved paths *)

Lemma resolve_fixed cwd p :
  proot p = "/" → ".." ∉ pparts p → resolve cwd p = p.
Proof.
  destruct p as [r ps]. simpl. intros -> Hno. unfold resolve, is_absolute. simpl.
  by rewrite (SettingsFacts.fold_dotdot [] ps Hno).
Qed.

Lemma resolved_inv cwd p :
  resolve cwd p = p → proot p = "/" ∧ ".." ∉ pparts p.
Proof.
  intros H. split; [by rewrite <- H|].
  rewrite <- H. apply SettingsFacts.resolve_no_dotdot.
Qed.

Lemma removelast_not_elem {A} (x : A) l : x ∉ l → x ∉ removelast l.
Proof.
  intros Hno Hin. apply Hno.
  destruct (decide (l = [])) as [->|Hne]; [done|].
  rewrite (app_removelast_last x Hne). apply elem_of_app. by left.
Qed.

Lemma resolve_parent cwd p : resolve cwd p = p → resolve cwd (parent p) = parent p.
Proof.
  intros H. destruct (resolved_inv _ _ H) as [Hr Hno].
  apply resolve_fixed; [done|]. by apply removelast_not_elem.
Qed.

Lemma resolve_entry cwd p n :
  resolve cwd p = p → n ≠ ".." → resolve cwd (entry p n) = entry p n.
Proof.
  intros H Hn. destruct (resolved_inv _ _ H) as [Hr Hno].
  apply resolve_fixed; [done|]. simpl. rewrite not_elem_of_app, not_elem_of_cons.
  split; [done|]. split; [congruence|apply not_elem_of_nil].
Qed.

Lemma below_inv d k :
  below d k = true → ∃ x rest, pparts k = pparts d ++ x :: rest.
Proof.
  unfold below. destruct (strip_prefix (pparts d) (pparts k)) as [[|x rest]|] eqn:Hs;
    [done| |done].
  intros _. exists x, rest. by apply SettingsFacts.strip_prefix_Some.
Qed.

Lemma below_longer d k : below d k = true → length (pparts d) < length (pparts k).
Proof.
  intros H. destruct (below_inv _ _ H) as (x & rest & ->).
  rewrite length_app. simpl. lia.
Qed.

(** One missing directory in an existing one *)
Lemma mkdirs_one {St} (exists_ : ppath → M St bool) (create_dir : ppath → M St unit)
    f s s' :
  pparts f ≠ [] →
  exists_ f s = (s, Ok false) →
  exists_ (parent f) s = (s, Ok true) →
  create_dir f s = (s', Ok tt) →
  Dirs._mkdirs exists_ create_dir f s
  = (s', Ok (str {| proot := ""; pparts := [name f] |})).
Proof.
  intros Hne Hf Hp Hc.
  assert (Hrel : relative_to f (parent f)
                 = Ok {| proot := ""; pparts := [name f] |}).
  { unfold relative_to, parent, name. simpl. rewrite String.eqb_refl.
    rewrite (app_removelast_last "" Hne) at 2.
    by rewrite SyncFacts.strip_prefix_app. }
  unfold Dirs._mkdirs. unfold bind at 1. rewrite Hf.
  destruct (length (pparts f)) as [|n] eqn:Hlen.
  { destruct (pparts f); [done|discriminate]. }
  unfold bind at 1. simpl Dirs.walk_up. unfold bind at 1. rewrite Hp.
  unfold ret at 1. unfold bind at 1. rewrite Hc.
  unfold bind at 1. simpl Dirs.make_down. rewrite bool_decide_true by done.
  unfold ret at 1. unfold bind at 1, lift at 1. rewrite Hrel. reflexivity.
Qed.

Section Extraction.

Variable B : backend.
Variable cwd : ppath.

(** The file system after the members of an archive are written below [dest] *)
Definition extracted (dest : ppath) (members : list (ppath * string))
    (fs : gmap ppath lnode) : gmap ppath lnode :=
  fold_left (fun acc m => <[resolve cwd (joinpath dest m.1) := File (Data m.2)]> acc)
            members fs.

Lemma lfs_set v st : lfs (set_lfs v st) = v.
Proof. reflexivity. Qed.

Lemma write_members dest members st :
  for_each members
    (fun m => local_write cwd (joinpath dest m.1) (File (Data m.2))) st
  = (set_lfs (extracted dest members (lfs st)) st, Ok tt).
Proof.
  revert st. induction members as [|m members IH]; intros st; simpl.
  - by destruct st.
  - unfold bind at 1. unfold local_write at 1, modify. rewrite IH. reflexivity.
Qed.

Lemma extracted_other dest members fs k :
  Forall (fun m => resolve cwd (joinpath dest m.1) ≠ k) members →
  extracted dest members fs !! k = fs !! k.
Proof.
  unfold extracted. revert fs. induction members as [|m members IH]; intros fs H; simpl.
  - done.
  - apply Forall_cons in H as [Hm H]. rewrite IH by done. by rewrite lookup_insert_ne.
Qed.

Lemma extracted_member dest members fs k :
  Exists (fun m => resolve cwd (joinpath dest m.1) = k) members →
  ∃ text, extracted dest members fs !! k = Some (File (Data text)).
Proof.
  unfold extracted. revert fs. induction members as [|m members IH]; intros fs Hex.
  - by apply Exists_nil in Hex.
  - simpl.
    destruct (decide (Exists (fun m => resolve cwd (joinpath dest m.1) = k) members))
      as [Hlater|Hno]; [by apply IH|].
    apply Exists_cons in Hex as [Hk|]; [|done].
    apply not_Exists_Forall in Hno; [|apply _].
    exists m.2.
    fold (extracted dest members
            (<[resolve cwd (joinpath dest m.1) := File (Data m.2)]> fs)).
    rewrite extracted_other by done. rewrite Hk. by rewrite lookup_insert_eq.
Qed.

(** The outcome of [_extract_tarball] on a sound archive *)
Definition unpacked (f : ppath) (c : content) (members : list (ppath * string))
    (st : state) : state :=
  let archive := child (parent f) "tmp.tgz" in
  set_lfs (delete archive
             (extracted f members
                (<[f := Dir]> (<[archive := File c]> (delete f (lfs st)))))) st.

Section Sound.

Variables (f : ppath) (members : list (ppath * string)) (st : state).

Let archive := child (parent f) "tmp.tgz".

Hypothesis resolved : resolve cwd f = f.
Hypothesis downloaded :
  local_lookup cwd st f = Some (File (Tarball members true)).
Hypothesis in_directory : local_is_dir cwd st (parent f) = true.
Hypothesis other_name : name f ≠ "tmp.tgz".
Hypothesis no_directory : local_is_dir cwd st archive = false.
Hypothesis inside :
  Forall (fun m => below f (resolve cwd (joinpath f m.1)) = true) members.

Lemma archive_entry : archive = entry (parent f) "tmp.tgz".
Proof. reflexivity. Qed.

Lemma f_parts : pparts f ≠ [].
Proof.
  intros H. generalize downloaded. unfold local_lookup. rewrite resolved, H. done.
Qed.

Lemma archive_resolved : resolve cwd archive = archive.
Proof.
  rewrite archive_entry. apply resolve_entry; [|done]. by apply resolve_parent.
Qed.

Lemma archive_parts : pparts archive ≠ [].
Proof. rewrite archive_entry. simpl. by destruct (removelast (pparts f)). Qed.

Lemma archive_parent : parent archive = parent f.
Proof. rewrite archive_entry. apply SyncFacts.parent_entry. Qed.

Lemma archive_differs : f ≠ archive.
Proof.
  intros H. apply other_name. rewrite H at 1. rewrite archive_entry.
  apply SyncFacts.name_entry.
Qed.

Lemma archive_length : length (pparts archive) = length (pparts f).
Proof.
  rewrite archive_entry. simpl. pose proof f_parts as H.
  destruct (exists_last H) as [l [x ->]].
  by rewrite removelast_last, !length_app.
Qed.

Lemma parent_length : length (pparts (parent f)) < length (pparts f).
Proof.
  pose proof f_parts as H. simpl.
  destruct (exists_last H) as [l [x ->]].
  rewrite removelast_last, length_app. simpl. lia.
Qed.

Lemma lookup_parts st0 p :
  resolve cwd p = p → pparts p ≠ [] → local_lookup cwd st0 p = lfs st0 !! p.
Proof.
  intros Hp Hne. unfold local_lookup. rewrite Hp. by destruct (pparts p).
Qed.

Lemma members_not k :
  below f k = false →
  Forall (fun m => resolve cwd (joinpath f m.1) ≠ k) members.
Proof.
  intros Hk. eapply Forall_impl; [exact inside|]. simpl. intros m Hm Heq.
  rewrite Heq in Hm. congruence.
Qed.

Lemma not_below_self : below f f = false.
Proof.
  unfold below. replace (pparts f) with (pparts f ++ []) at 2 by apply app_nil_r.
  by rewrite SyncFacts.strip_prefix_app.
Qed.

Lemma not_below_archive : below f archive = false.
Proof.
  destruct (below f archive) eqn:E; [|done].
  apply below_longer in E. rewrite archive_length in E. lia.
Qed.

(** The renaming of the archive *)
Lemma rename_run :
  os_rename cwd f archive st
  = (set_lfs (<[archive := File (Tarball members true)]> (delete f (lfs st))) st, Ok tt).
Proof.
  unfold os_rename, bind, get. rewrite downloaded, resolved, archive_resolved.
  assert (Hdst : match local_lookup cwd st archive with Some Dir => False | _ => True end).
  { generalize no_directory. unfold local_is_dir. by destruct (local_lookup cwd st archive) as [[]|]. }
  rewrite archive_parent, in_directory. simpl.
  rewrite bool_decide_false by apply archive_differs.
  by destruct (local_lookup cwd st archive) as [[]|].
Qed.

Lemma parent_is_dir fs :
  fs !! parent f = lfs st !! parent f →
  local_is_dir cwd (set_lfs fs st) (parent f) = true.
Proof.
  intros H. generalize in_directory. unfold local_is_dir, local_lookup.
  rewrite (resolve_parent _ _ resolved). destruct (pparts (parent f)); [done|].
  by rewrite lfs_set, H.
Qed.

Lemma parent_kept v :
  <[archive := v]> (delete f (lfs st)) !! parent f = lfs st !! parent f.
Proof.
  rewrite lookup_insert_ne, lookup_delete_ne; [done| |].
  - intros H. pose proof parent_length as Hl. rewrite <- H in Hl. lia.
  - intros H. pose proof parent_length as Hl. rewrite <- H, archive_length in Hl. lia.
Qed.

(** The creation of the directory *)
Lemma mkdirs_run c :
  let st1 := set_lfs (<[archive := File c]> (delete f (lfs st))) st in
  ∃ created,
    _mkdirs B cwd VipSession f "local" st1
    = (set_lfs (<[f := Dir]> (lfs st1)) st, Ok created).
Proof.
  intros st1. pose proof f_parts as Hne.
  assert (Hex : local_exists cwd st1 f = false).
  { unfold local_exists. rewrite lookup_parts by done. unfold st1. rewrite lfs_set.
    rewrite lookup_insert_ne by (intros H; by apply archive_differs).
    rewrite lookup_delete_eq. apply bool_decide_false. by intros [? ?]. }
  assert (Hdir : local_is_dir cwd st1 (parent f) = true).
  { apply parent_is_dir, parent_kept. }
  assert (Hpar : local_exists cwd st1 (parent f) = true).
  { revert Hdir. unfold local_is_dir, local_exists.
    destruct (local_lookup cwd st1 (parent f)) as [[]|]; [|done..].
    intros _. apply bool_decide_true. by eexists. }
  exists (str {| proot := ""; pparts := [name f] |}).
  apply mkdirs_one; [done| | |].
  - unfold _exists. simpl. unfold gets. by rewrite Hex.
  - unfold _exists. simpl. unfold gets. by rewrite Hpar.
  - unfold _create_dir. simpl. unfold bind, get. rewrite Hdir.
    unfold local_mkdir, bind, get. rewrite Hex, resolved, Hdir. simpl.
    unfold local_write, modify. by rewrite resolved.
Qed.

(** [_extract_tarball] on a sound archive *)
Lemma extract_run :
  _extract_tarball B cwd f st
  = (unpacked f (Tarball members true) members st, Ok true).
Proof.
  unfold _extract_tarball. fold archive.
  rewrite (bind_ok _ _ _ _ _ rename_run).
  destruct (mkdirs_run (Tarball members true)) as [created Hmk]. simpl in Hmk.
  rewrite (bind_ok _ _ _ _ _ Hmk).
  set (fs2 := <[f := Dir]> (<[archive := File (Tarball members true)]> (delete f (lfs st)))).
  assert (Hex : succeeds (extractall cwd archive f) (set_lfs fs2 st)
                = (set_lfs (extracted f members fs2) st, Ok true)).
  { unfold succeeds, extractall, bind at 1, get at 1.
    rewrite (lookup_parts _ archive archive_resolved archive_parts), lfs_set.
    unfold fs2 at 1. rewrite lookup_insert_ne by apply archive_differs.
    rewrite lookup_insert_eq.
    assert (Hf : local_is_file cwd (set_lfs fs2 st) f = false).
    { unfold local_is_file. rewrite (lookup_parts _ f resolved f_parts), lfs_set.
      unfold fs2. by rewrite lookup_insert_eq. }
    rewrite Hf. unfold bind. rewrite write_members. reflexivity. }
  rewrite (bind_ok _ _ _ _ _ Hex).
  assert (Hrm : os_remove cwd archive (set_lfs (extracted f members fs2) st)
                = (unpacked f (Tarball members true) members st, Ok tt)).
  { unfold os_remove, bind, get.
    rewrite (lookup_parts _ archive archive_resolved archive_parts), lfs_set.
    rewrite extracted_other by (apply members_not, not_below_archive).
    unfold fs2. rewrite lookup_insert_ne by apply archive_differs.
    rewrite lookup_insert_eq. unfold modify. rewrite archive_resolved. reflexivity. }
  rewrite (bind_ok _ _ _ _ _ Hrm). reflexivity.
Qed.

(** X16. A sound archive in an existing directory, whose members are all
    extracted below its own path, is replaced by a directory: the call returns
    True, the path of the archive is a directory, every member is a file
    below it, nothing named tmp.tgz is left beside it, and every other path
    of the file system is as before. *)
Theorem sound_archive_becomes_a_directory :
  ∃ st',
    _extract_tarball B cwd f st = (st', Ok true)
    ∧ local_is_dir cwd st' f = true
    ∧ Forall (fun m => local_is_file cwd st' (joinpath f m.1) = true) members
    ∧ local_lookup cwd st' archive = None
    ∧ ∀ q, resolve cwd q ≠ f → resolve cwd q ≠ archive →
           below f (resolve cwd q) = false →
           local_lookup cwd st' q = local_lookup cwd st q.
Proof.
  exists (unpacked f (Tarball members true) members st).
  split; [by apply extract_run|].
  pose proof archive_resolved as Har.
  pose proof archive_parts as Hap.
  pose proof archive_differs as Hdiff.
  pose proof f_parts as Hfp.
  repeat split.
  - unfold local_is_dir. rewrite (lookup_parts _ f resolved Hfp). unfold unpacked.
    rewrite lfs_set. fold archive. rewrite lookup_delete_ne by done.
    rewrite extracted_other by (apply members_not, not_below_self).
    by rewrite lookup_insert_eq.
  - apply Forall_forall. intros m Hm. unfold local_is_file, local_lookup.
    pose proof inside as Hin.
    rewrite Forall_forall in Hin. specialize (Hin m Hm).
    destruct (below_inv _ _ Hin) as (x & rest & Hparts).
    rewrite Hparts. destruct (pparts f ++ x :: rest) eqn:E.
    { by destruct (pparts f). }
    unfold unpacked. rewrite lfs_set. fold archive.
    rewrite lookup_delete_ne; last first.
    { intros H. rewrite <- H in Hin. by rewrite not_below_archive in Hin. }
    destruct (extracted_member f members
                (<[f := Dir]> (<[archive := File (Tarball members true)]>
                                 (delete f (lfs st))))
                (resolve cwd (joinpath f m.1))) as [text ->]; [|done].
    apply Exists_exists. by exists m.
  - unfold local_lookup. rewrite Har. destruct (pparts archive); [done|].
    unfold unpacked. rewrite lfs_set. fold archive. by rewrite lookup_delete_eq.
  - intros q Hqf Hqa Hqb. unfold local_lookup.
    destruct (pparts (resolve cwd q)); [done|].
    unfold unpacked. rewrite lfs_set. fold archive.
    rewrite lookup_delete_ne by done.
    rewrite extracted_other by (by apply members_not).
    rewrite !lookup_insert_ne by done. by rewrite lookup_delete_ne.
Qed.

End Sound.

(** X15. When [_extract_tarball] returns True, nothing named tmp.tgz is left
    in the directory of the archive, whatever was there under that name
    before the call. *)
Theorem extraction_leaves_no_tmp_tgz f st st' :
  _extract_tarball B cwd f st = (st', Ok true) →
  local_lookup cwd st' (child (parent f) "tmp.tgz") = None.
Proof.
  unfold _extract_tarball. set (archive := child (parent f) "tmp.tgz").
  unfold bind at 1. destruct (os_rename cwd f archive st) as [st1 [[]|e|]]; [|done..].
  unfold bind at 1.
  destruct (_mkdirs B cwd VipSession f "local" st1) as [st2 [created|e|]]; [|done..].
  unfold bind at 1.
  destruct (succeeds (extractall cwd archive f) st2) as [st3 [[]|e|]]; [| |done..].
  - unfold bind at 1. unfold os_remove at 1. unfold bind at 1, get at 1.
    unfold local_lookup at 1.
    destruct (pparts (resolve cwd archive)) as [|x l] eqn:Hparts; [done|].
    destruct (lfs st3 !! resolve cwd archive) as [[|c]|]; [done| |done].
    unfold modify, ret. intros [= <-]. unfold local_lookup. rewrite Hparts, lfs_set.
    by rewrite lookup_delete_eq.
  - unfold bind. by destruct (os_rename cwd archive f st3) as [st4 [[]|e|]].
Qed.

End Extraction.


End OutputFacts.

Module OutputExamples.
Import Settings Client PathFacts OutputFacts.

Definition home : ppath := PurePosixPath "/home/user".
Definition res : ppath := PurePosixPath "/home/user/out/res.tgz".
Definition tmp : ppath := PurePosixPath "/home/user/out/tmp.tgz".

Definition members : list (ppath * string) :=
  [(PurePosixPath "a.txt", "first member"); (PurePosixPath "b.txt", "second member")].

(** A file system with a downloaded archive beside a file named tmp.tgz *)
Definition with_notes : state :=
  State (Some "study_1") None (Some (PurePosixPath "/vip/out")) None (Some []) None
        (Some (PurePosixPath "out")) None [] true 0 []
        (list_to_map
           [(PurePosixPath "/home", Dir);
            (PurePosixPath "/home/user", Dir);
            (PurePosixPath "/home/user/out", Dir);
            (tmp, File (Data "notes"));
            (res, File (Tarball members true))]).

Definition without_notes : state :=
  State (Some "study_1") None (Some (PurePosixPath "/vip/out")) None (Some []) None
        (Some (PurePosixPath "out")) None [] true 0 []
        (list_to_map
           [(PurePosixPath "/home", Dir);
            (PurePosixPath "/home/user", Dir);
            (PurePosixPath "/home/user/out", Dir);
            (res, Dir);
            (PurePosixPath "/home/user/out/res.tgz/a.txt", File (Data "first member"));
            (PurePosixPath "/home/user/out/res.tgz/b.txt", File (Data "second member"))]).

Lemma notes_are_lost :
  _extract_tarball DeletionFacts.slow_service home res with_notes
  = (without_notes, Ok true).
Proof. vm_cast_no_check (eq_refl (without_notes, @Ok bool true)). Qed.

Lemma extraction_leaves_no_tmp_tgz_witness :
  local_lookup home with_notes tmp = Some (File (Data "notes"))
  ∧ local_lookup home without_notes (child (parent res) "tmp.tgz") = None.
Proof.
  split; [reflexivity|].
  apply (extraction_leaves_no_tmp_tgz DeletionFacts.slow_service home res with_notes).
  apply notes_are_lost.
Defined.

Lemma sound_archive_becomes_a_directory_witness :
  ∃ st',
    _extract_tarball DeletionFacts.slow_service home res with_notes = (st', Ok true)
    ∧ local_is_dir home st' res = true
    ∧ Forall (fun m => local_is_file home st' (joinpath res m.1) = true) members
    ∧ local_lookup home st' (child (parent res) "tmp.tgz") = None
    ∧ ∀ q, resolve home q ≠ res → resolve home q ≠ child (parent res) "tmp.tgz" →
           below res (resolve home q) = false →
           local_lookup home st' q = local_lookup home with_notes q.
Proof.
  apply (sound_archive_becomes_a_directory DeletionFacts.slow_service home res
           members with_notes).
  - reflexivity.
  - reflexivity.
  - reflexivity.
  - discriminate.
  - reflexivity.
  - repeat constructor.
Defined.

End OutputExamples.

(** ** Checks of the input settings *)

Module InputFacts.
Import Settings Client Inputs DictFacts MonadFacts.

Lemma elem_of_defined {A} (o : option A) k x :
  x ∈ defined o k ↔ x = k ∧ is_Some o.
Proof.
  destruct o; simpl.
  - rewrite list_elem_of_singleton. split; [by eauto|by intros []].
  - split; [by intros ?%elem_of_nil|by intros [_ [? ?]]].
Qed.

Lemma defined_pipeline_id w :
  bool_decide ("_pipeline_id" ∈ instance_dict w)
  = bool_decide (is_Some (_pipeline_id (session w))).
Proof.
  apply bool_decide_ext. unfold instance_dict.
  rewrite !elem_of_app, !elem_of_defined. split.
  - intros [[? _]|[[_ ?]|[[? _]|[[? _]|[[? _]|[[? _]|[[? _]|[[? _]|[? _]]]]]]]]];
      done.
  - intros H. right. left. done.
Qed.

Lemma defined_input_settings w :
  bool_decide ("_input_settings" ∈ instance_dict w)
  = bool_decide (is_Some (_input_settings (session w))).
Proof.
  apply bool_decide_ext. unfold instance_dict.
  rewrite !elem_of_app, !elem_of_defined. split.
  - intros [[? _]|[[? _]|[[? _]|[[_ ?]|[[? _]|[[? _]|[[? _]|[[? _]|[? _]]]]]]]]];
      done.
  - intros H. do 3 right. left. done.
Qed.

(** No attribute of a session has the name that the property looks for. *)
Lemma never_stored w : bool_decide ("__pipeline_def" ∈ instance_dict w) = false.
Proof.
  apply bool_decide_false. unfold instance_dict.
  rewrite !elem_of_app, !elem_of_defined.
  intros [[? _]|[[? _]|[[? _]|[[? _]|[[? _]|[[? _]|[[? _]|[[? _]|[? _]]]]]]]]];
    done.
Qed.

Section Checks.

Variable vip_pipeline_def : world → string → result (list parameter).
Variable _exists : value → string → M world bool.
Variable truth : Z → bool.

(** The world once the descriptor of [pid] has been asked for *)
Definition asking (pid : string) (w : world) : world :=
  World (session w) (_VipLauncher__pipeline_def w) (asked w ++ [pid]).

(** The world once the descriptor [d] of [pid] has been read *)
Definition reading (pid : string) (d : list parameter) (w : world) : world :=
  World (session w) (Some d) (asked w ++ [pid]).

(** What a read of the property gives *)
Lemma pipeline_def_eq cls w :
  _pipeline_def vip_pipeline_def cls w
  = match _pipeline_id (session w) with
    | None => (w, Raise TypeError)
    | Some pid =>
        match vip_pipeline_def (asking pid w) pid with
        | Ok d => (reading pid d w, Ok d)
        | Raise (RuntimeError m) =>
            (asking pid w, Raise (RuntimeError (interpret cls m)))
        | Raise e => (asking pid w, Raise e)
        | Unfinished => (asking pid w, Unfinished)
        end
    end.
Proof.
  unfold _pipeline_def, _get_pipeline_def, bind, _is_defined, gets, self_attr,
    modify, get.
  cbv beta iota. rewrite defined_pipeline_id.
  destruct (_pipeline_id (session w)) as [pid|] eqn:Hpid.
  - rewrite bool_decide_true by (by eexists). cbv beta iota delta [negb].
    rewrite never_stored, Hpid. cbv beta iota.
    fold (asking pid w). unfold on_session, answered.
    destruct (vip_pipeline_def (asking pid w) pid) as [d|e|] eqn:Hd; simpl;
      [done| |done].
    by destruct e.
  - by rewrite bool_decide_false by (by intros [? ?]).
Qed.

Lemma pipeline_def_inv cls w w' d :
  _pipeline_def vip_pipeline_def cls w = (w', Ok d) →
  ∃ pid, _pipeline_id (session w) = Some pid
         ∧ vip_pipeline_def (asking pid w) pid = Ok d
         ∧ w' = reading pid d w.
Proof.
  rewrite pipeline_def_eq.
  destruct (_pipeline_id (session w)) as [pid|]; [|done].
  destruct (vip_pipeline_def (asking pid w) pid) as [d'|e|] eqn:Hd;
    [|by destruct e|done].
  intros [= <- <-]. by exists pid.
Qed.

Lemma pipeline_def_run cls w pid d :
  _pipeline_id (session w) = Some pid →
  vip_pipeline_def (asking pid w) pid = Ok d →
  _pipeline_def vip_pipeline_def cls w = (reading pid d w, Ok d).
Proof. intros Hpid Hd. by rewrite pipeline_def_eq, Hpid, Hd. Qed.

Lemma bind_returns {St A C} (m : M St A) (f : A → M St C) s s' c :
  bind m f s = (s', Ok c) →
  ∃ s1 a, m s = (s1, Ok a) ∧ f a s1 = (s', Ok c).
Proof.
  unfold bind. destruct (m s) as [s1 [a|e|]]; [|done..]. intros H. by exists s1, a.
Qed.

Lemma filter_nil_forallb {A} (f : A → bool) l :
  List.filter f l = [] ↔ forallb (fun x => negb (f x)) l = true.
Proof.
  induction l as [|x l IH]; simpl; [done|].
  destruct (f x); simpl; [done|]. exact IH.
Qed.

(** The settings that [_check_input_settings] checks: the argument, or the
    property of the session when the argument is empty *)
Definition checked_settings (w : world) (input_settings : dict value)
  : option (dict value) :=
  match input_settings with
  | [] => _input_settings (session w)
  | _ => Some input_settings
  end.

(** Every parameter that the pipeline needs has a value. *)
Definition complete (d : list parameter) (settings : dict value) : Prop :=
  ∀ param, param ∈ d → required param = true →
           p_name param ∈ dict_keys settings.

(** Every parameter of type String has a string or a list of strings. *)
Definition typed (d : list parameter) (settings : dict value) : Prop :=
  ∀ param v, param ∈ d → p_type param = "String" →
             dict_get settings (p_name param) = Some v →
             _is_input_string v = true.

Lemma complete_forallb d settings :
  forallb (fun n => negb (negb (bool_decide (n ∈ dict_keys settings))))
          (map p_name (List.filter required d)) = true
  ↔ complete d settings.
Proof.
  rewrite forallb_forall. unfold complete. split.
  - intros H param Hin Hreq.
    assert (Hn : In (p_name param) (map p_name (List.filter required d))).
    { apply in_map, filter_In. split; [by apply list_elem_of_In|done]. }
    specialize (H _ Hn). rewrite negb_involutive in H. by apply bool_decide_eq_true in H.
  - intros H n Hn. apply in_map_iff in Hn as (param & <- & Hp).
    apply filter_In in Hp as [Hin Hreq]. rewrite negb_involutive.
    apply bool_decide_eq_true. apply H; [by apply list_elem_of_In|done].
Qed.

(** [_check_input_keys] once the descriptor is read *)
Lemma keys_inv cls settings w w' :
  _check_input_keys vip_pipeline_def cls settings w = (w', Ok tt) →
  ∃ pid d1 d2,
    _pipeline_id (session w) = Some pid
    ∧ vip_pipeline_def (asking pid w) pid = Ok d1
    ∧ vip_pipeline_def (asking pid (reading pid d1 w)) pid = Ok d2
    ∧ complete d1 settings
    ∧ w' = reading pid d2 (reading pid d1 w).
Proof.
  unfold _check_input_keys. intros H.
  apply bind_returns in H as (w1 & d1 & Hread & H).
  apply pipeline_def_inv in Hread as (pid & Hpid & Hd1 & ->).
  destruct (List.filter _ (map p_name (List.filter required d1))) as [|n l] eqn:Hmiss;
    [|done].
  apply bind_returns in H as (w2 & d2 & Hread & H).
  apply pipeline_def_inv in Hread as (pid' & Hpid' & Hd2 & ->).
  simpl in Hpid'. rewrite Hpid in Hpid'. injection Hpid' as <-.
  injection H as <-. exists pid, d1, d2. repeat split; try done.
  apply complete_forallb, filter_nil_forallb. exact Hmiss.
Qed.

Lemma keys_missing cls settings w pid d param :
  _pipeline_id (session w) = Some pid →
  vip_pipeline_def (asking pid w) pid = Ok d →
  param ∈ d → required param = true → p_name param ∉ dict_keys settings →
  _check_input_keys vip_pipeline_def cls settings w
  = (reading pid d w, Raise TypeError).
Proof.
  intros Hpid Hd Hin Hreq Hno. unfold _check_input_keys.
  rewrite (bind_ok _ _ _ _ _ (pipeline_def_run cls w pid d Hpid Hd)).
  destruct (List.filter _ (map p_name (List.filter required d))) as [|n l] eqn:Hmiss;
    [|done].
  apply filter_nil_forallb, complete_forallb in Hmiss.
  destruct Hno. by apply Hmiss.
Qed.

(** The settings to be checked are found. *)
Lemma settings_found input_settings w settings :
  checked_settings w input_settings = Some settings →
  (match input_settings with
   | [] =>
       let* has_settings := _is_defined "_input_settings" in
       if (has_settings : bool)
       then self_attr (fun w => _input_settings (session w))
       else raise AttributeError
   | _ => ret input_settings
   end) w = (w, Ok settings).
Proof.
  destruct input_settings as [|kv l]; simpl.
  - intros H. unfold bind, _is_defined, gets. rewrite defined_input_settings, H.
    rewrite bool_decide_true by (by eexists). unfold self_attr. by rewrite H.
  - by intros [= <-].
Qed.

Lemma settings_inv input_settings w w' settings :
  (match input_settings with
   | [] =>
       let* has_settings := _is_defined "_input_settings" in
       if (has_settings : bool)
       then self_attr (fun w => _input_settings (session w))
       else raise AttributeError
   | _ => ret input_settings
   end) w = (w', Ok settings) →
  w' = w ∧ checked_settings w input_settings = Some settings.
Proof.
  destruct input_settings as [|kv l]; simpl.
  - unfold bind, _is_defined, gets. rewrite defined_input_settings.
    destruct (_input_settings (session w)) as [stored|] eqn:Hs.
    + rewrite bool_decide_true by (by eexists). unfold self_attr. rewrite Hs.
      by intros [= <- <-].
    + by rewrite bool_decide_false by (by intros [? ?]).
  - by intros [= <- <-].
Qed.

(** X17. When the settings lack a parameter that the descriptor makes
    compulsory, the check raises TypeError as soon as the descriptor is
    read: no value is looked at, no file is looked for, and the session is
    as before. *)
Theorem missing_parameter_is_a_type_error cls input_settings location w
    settings pid d param :
  checked_settings w input_settings = Some settings →
  _pipeline_id (session w) = Some pid →
  vip_pipeline_def (asking pid w) pid = Ok d →
  param ∈ d → required param = true → p_name param ∉ dict_keys settings →
  launcher_check_input_settings vip_pipeline_def _exists truth cls
    input_settings location w
  = (reading pid d w, Raise TypeError).
Proof.
  intros Hs Hpid Hd Hin Hreq Hno. unfold launcher_check_input_settings.
  rewrite (bind_ok _ _ _ _ _ (settings_found _ _ _ Hs)).
  unfold bind at 1, _is_defined at 1, gets at 1.
  rewrite defined_pipeline_id, Hpid, bool_decide_true by (by eexists).
  cbv beta iota delta [negb].
  by rewrite (bind_raise _ _ _ _ _
                (keys_missing cls settings w pid d param Hpid Hd Hin Hreq Hno)).
Qed.

(** The loop on the values *)
Lemma values_typed settings location d w w' :
  for_each d (check_value _exists truth settings location) w = (w', Ok tt) →
  typed d settings.
Proof.
  revert w. induction d as [|param d IH]; intros w H.
  - intros param v Hin. by apply elem_of_nil in Hin.
  - simpl in H. apply bind_returns in H as (w1 & [] & Hone & H).
    intros p v Hin Htype Hv. apply elem_of_cons in Hin as [->|Hin].
    + unfold check_value in Hone. rewrite Hv, Htype in Hone. simpl in Hone.
      by destruct (_is_input_string v).
    + by apply (IH _ H p v).
Qed.

(** X18. Settings that the check accepts fit the descriptor that a steady
    catalogue gives: every compulsory parameter has a value, and the value
    of every parameter of type String is a string or a list of strings. *)
Theorem accepted_settings_fit_the_descriptor cls input_settings location w w' b
    settings pid d :
  checked_settings w input_settings = Some settings →
  _pipeline_id (session w) = Some pid →
  (∀ w0, vip_pipeline_def w0 pid = Ok d) →
  launcher_check_input_settings vip_pipeline_def _exists truth cls
    input_settings location w = (w', Ok b) →
  b = true ∧ complete d settings ∧ typed d settings.
Proof.
  intros Hs Hpid Hd. unfold launcher_check_input_settings.
  rewrite (bind_ok _ _ _ _ _ (settings_found _ _ _ Hs)).
  unfold bind at 1, _is_defined at 1, gets at 1.
  rewrite defined_pipeline_id, Hpid, bool_decide_true by (by eexists).
  cbv beta iota delta [negb]. intros H.
  apply bind_returns in H as (w1 & [] & Hkeys & H).
  apply bind_returns in H as (w2 & [] & Hvalues & H).
  injection H as _ <-. split; [done|].
  apply keys_inv in Hkeys as (pid' & d1 & d2 & Hpid' & Hd1 & Hd2 & Hcomplete & ->).
  rewrite Hpid in Hpid'. injection Hpid' as <-.
  rewrite Hd in Hd1. injection Hd1 as <-. split; [done|].
  unfold _check_input_values in Hvalues.
  apply bind_returns in Hvalues as (w3 & d3 & Hread & Hloop).
  apply pipeline_def_inv in Hread as (pid3 & Hpid3 & Hd3 & _).
  simpl in Hpid3. rewrite Hpid in Hpid3. injection Hpid3 as <-.
  rewrite Hd in Hd3. injection Hd3 as <-.
  by apply values_typed in Hloop.
Qed.

(** *** The descriptor requests *)

Section Requests.

Hypothesis exists_asks_nothing :
  ∀ v location w, asked (_exists v location w).1 = asked w.

Lemma first_missing_asked files location w :
  asked (first_missing _exists files location w).1 = asked w.
Proof.
  revert w. induction files as [|file files IH]; intros w; simpl; [done|].
  unfold bind. pose proof (exists_asks_nothing file location w) as H.
  destruct (_exists file location w) as [w1 [[]|e|]]; simpl in *; [|done..].
  by rewrite IH.
Qed.

Lemma first_missing_file_asked v location w :
  asked (_first_missing_file _exists v location w).1 = asked w.
Proof.
  destruct v as [s|p|l|i]; simpl; try apply first_missing_asked;
    unfold bind;
    match goal with
    | |- context [_exists ?v location w] =>
        pose proof (exists_asks_nothing v location w) as H;
        by destruct (_exists v location w) as [w1 [[]|e|]]
    end.
Qed.

Lemma check_value_asked settings location param w :
  asked (check_value _exists truth settings location param w).1 = asked w.
Proof.
  unfold check_value. destruct (dict_get settings (p_name param)) as [v|]; [|done].
  destruct (String.eqb (p_type param) "String" && negb (_is_input_string v)); [done|].
  destruct (String.eqb (p_type param) "File"); [|done].
  destruct (truthy location); [|done].
  unfold bind. pose proof (first_missing_file_asked v location w) as H.
  destruct (_first_missing_file _exists v location w) as [w1 [x|e|]]; simpl in *;
    [|done..].
  by destruct (truthy_value truth x).
Qed.

Lemma values_asked settings location d w :
  asked (for_each d (check_value _exists truth settings location) w).1 = asked w.
Proof.
  revert w. induction d as [|param d IH]; intros w; simpl; [done|].
  unfold bind. pose proof (check_value_asked settings location param w) as H.
  destruct (check_value _exists truth settings location param w) as [w1 [[]|e|]];
    simpl in *; [|done..].
  by rewrite IH.
Qed.

(** X19. The descriptor is never kept: a check of the settings that
    succeeds has asked the catalogue three times for the descriptor of the
    pipeline, also when the session holds a descriptor already. *)
Theorem each_check_asks_for_the_descriptor_thrice cls input_settings location
    w w' b :
  launcher_check_input_settings vip_pipeline_def _exists truth cls
    input_settings location w = (w', Ok b) →
  ∃ pid, _pipeline_id (session w) = Some pid
         ∧ asked w' = asked w ++ [pid; pid; pid].
Proof.
  unfold launcher_check_input_settings. intros H.
  apply bind_returns in H as (w0 & settings & Hs & H).
  apply settings_inv in Hs as [-> _].
  apply bind_returns in H as (w0 & has_id & Hid & H).
  unfold _is_defined, gets in Hid. injection Hid as <- <-.
  destruct (negb _); [done|].
  apply bind_returns in H as (w1 & [] & Hkeys & H).
  apply bind_returns in H as (w2 & [] & Hvalues & H).
  injection H as <- _.
  apply keys_inv in Hkeys as (pid & d1 & d2 & Hpid & _ & _ & _ & ->).
  exists pid. split; [done|].
  unfold _check_input_values in Hvalues.
  apply bind_returns in Hvalues as (w3 & d3 & Hread & Hloop).
  apply pipeline_def_inv in Hread as (pid3 & Hpid3 & _ & ->).
  simpl in Hpid3. rewrite Hpid in Hpid3. injection Hpid3 as <-.
  pose proof (values_asked settings location d3
                (reading pid d3 (reading pid d2 (reading pid d1 w)))) as Hasked.
  rewrite Hloop in Hasked. simpl in Hasked. rewrite Hasked.
  by rewrite <- !app_assoc.
Qed.

End Requests.

End Checks.

(** The requests of [VipLauncher._exists] are none for a descriptor. *)
Lemma launcher_exists_asks_nothing B py_str cls v location w :
  asked (launcher_exists_value B py_str cls v location w).1 = asked w.
Proof.
  unfold launcher_exists_value, on_session.
  by destruct (_ (session w)) as [st r].
Qed.

End InputFacts.

Module InputExamples.
Import Settings Client Inputs InputFacts.

Definition descriptor : list parameter :=
  [Param "image" false (JStr "$input.getDefaultValue()") "File";
   Param "mode" false (JStr "$input.getDefaultValue()") "String";
   Param "threads" true (JStr "1") "String"].

Definition catalogue : world → string → result (list parameter) :=
  fun _ _ => Ok descriptor.

Definition repr : value → string := fun _ => "<object>".
Definition truth : Z → bool := fun _ => true.

Definition on_vip : value → string → M world bool :=
  launcher_exists_value DeletionFacts.stuck_service repr VipLauncher.

Definition with_settings (settings : dict value) (h : list event) : state :=
  State (Some "study_1") (Some "app/1.0") (Some (PurePosixPath "/vip/out"))
        (Some settings) (Some []) None None None ["app/1.0"] true 0 h ∅.

Definition partial : dict value := [("image", VStr "/vip/in/a.nii")].
Definition full : dict value :=
  [("image", VStr "/vip/in/a.nii"); ("mode", VList [VStr "fast"; VStr "slow"])].

(** A session that holds the descriptor already *)
Definition informed : world :=
  World (with_settings full []) (Some descriptor) ["app/1.0"].

Definition checked : world :=
  World (with_settings full [EvExists "/vip/in/a.nii"]) (Some descriptor)
        ["app/1.0"; "app/1.0"; "app/1.0"; "app/1.0"].

Lemma informed_checked :
  launcher_check_input_settings catalogue on_vip truth VipLauncher [] "vip" informed
  = (checked, Ok true).
Proof. vm_cast_no_check (eq_refl (checked, @Ok bool true)). Qed.

Lemma missing_parameter_is_a_type_error_witness :
  launcher_check_input_settings catalogue on_vip truth VipLauncher [] "vip"
    (World (with_settings partial []) None [])
  = (World (with_settings partial []) (Some descriptor) ["app/1.0"], Raise TypeError).
Proof.
  apply (missing_parameter_is_a_type_error catalogue on_vip truth VipLauncher []
           "vip" (World (with_settings partial []) None []) partial "app/1.0"
           descriptor (Param "mode" false (JStr "$input.getDefaultValue()") "String")).
  - reflexivity.
  - reflexivity.
  - reflexivity.
  - apply elem_of_cons. right. apply elem_of_cons. by left.
  - reflexivity.
  - apply (bool_decide_unpack _). vm_compute. exact I.
Defined.

Lemma accepted_settings_fit_the_descriptor_witness :
  complete descriptor full ∧ typed descriptor full.
Proof.
  apply (accepted_settings_fit_the_descriptor catalogue on_vip truth VipLauncher []
           "vip" informed checked true full "app/1.0" descriptor).
  - reflexivity.
  - reflexivity.
  - intros w0. reflexivity.
  - apply informed_checked.
Defined.

Lemma each_check_asks_for_the_descriptor_thrice_witness :
  _VipLauncher__pipeline_def informed = Some descriptor
  ∧ ∃ pid, _pipeline_id (session informed) = Some pid
           ∧ asked checked = asked informed ++ [pid; pid; pid].
Proof.
  split; [reflexivity|].
  apply (each_check_asks_for_the_descriptor_thrice catalogue on_vip truth
           (launcher_exists_asks_nothing _ _ _) VipLauncher [] "vip" informed checked
           true).
  apply informed_checked.
Defined.

End InputExamples.

(** ** Descriptions without markup *)

Module HtmlFacts.
Import Html.

(** [c in s] *)
Fixpoint has (c : ascii) (s : string) : bool :=
  match s with
  | EmptyString => false
  | String d s' => Ascii.eqb d c || has c s'
  end.

(** What follows the sign that closes a tag *)
Definition closing (s : string) : option string :=
  match_at (Char (Only ">")) s Some.

(** A text at the head of which a tag can go on and be closed *)
Definition opens (s : string) : bool :=
  match s with
  | String d _ => negb (Ascii.eqb d ">") && has ">" s
  | EmptyString => false
  end.

(** A text in which the pattern matches nowhere *)
Fixpoint unmatched (s : string) : Prop :=
  match s with
  | EmptyString => True
  | String c rest => match_at tag_or_newline s Some = None ∧ unmatched rest
  end.

Lemma string_length_app (u v : string) :
  String.length (u +:+ v) = String.length u + String.length v.
Proof. induction u as [|c u IH]; simpl; [done|]. by rewrite IH. Qed.

Lemma match_eq c rest :
  match_at tag_or_newline (String c rest) Some
  = if Ascii.eqb c "<" then many (Except ">") rest closing
    else if Ascii.eqb c newline then Some rest else None.
Proof.
  unfold tag_or_newline, closing. simpl. destruct (Ascii.eqb_spec c "<") as [->|Hc].
  - by destruct (many (Except ">") rest _).
  - done.
Qed.

Lemma many_none s : has ">" s = false → many (Except ">") s closing = None.
Proof.
  induction s as [|c s IH]; simpl; [done|].
  intros H. apply orb_false_iff in H as [Hc Hs]. rewrite Hc. simpl.
  rewrite (IH Hs). destruct s as [|d s]; [done|].
  simpl in Hs. apply orb_false_iff in Hs as [Hd _].
  unfold closing. simpl. by rewrite Hd.
Qed.

Lemma many_head s : opens s = false → many (Except ">") s closing = None.
Proof.
  destruct s as [|d s]; [done|]. unfold opens.
  destruct (Ascii.eqb d ">") eqn:Hd.
  - intros _. simpl. by rewrite Hd.
  - simpl negb. rewrite andb_true_l. apply many_none.
Qed.

Lemma many_some s : opens s = true → is_Some (many (Except ">") s closing).
Proof.
  induction s as [|c s IH]; [done|]. unfold opens. simpl.
  destruct (Ascii.eqb c ">") eqn:Hc; simpl; [done|]. intros Hs.
  destruct s as [|d s]; [done|].
  destruct (Ascii.eqb d ">") eqn:Hd.
  - simpl. rewrite Hd. simpl. unfold closing. simpl. rewrite Hd. by eexists.
  - destruct IH as [after ->]; [|by eexists].
    unfold opens. by rewrite Hd.
Qed.

Lemma many_opens s : many (Except ">") s closing = None ↔ opens s = false.
Proof.
  split; [|apply many_head].
  destruct (opens s) eqn:H; [|done].
  destruct (many_some s H) as [after ->]. done.
Qed.

Lemma opens_has s : has ">" s = false → opens s = false.
Proof. destruct s as [|d s]; [done|]. unfold opens. intros ->. apply andb_false_r. Qed.

(** What is kept comes from the text. *)
Lemma re_sub_has r c text n : has c text = false → has c (re_sub r n text) = false.
Proof.
  revert n. induction text as [|d text IH]; intros n; simpl; [done|].
  intros H. apply orb_false_iff in H as [Hd Ht].
  destruct n as [|n]; [|by apply IH].
  destruct (match_at r (String d text) Some); [by apply IH|].
  simpl. rewrite Hd. by apply IH.
Qed.

Lemma clean_head text :
  opens text = false → opens (re_sub tag_or_newline 0 text) = false.
Proof.
  destruct text as [|d text]; [done|]. unfold opens at 1.
  destruct (Ascii.eqb_spec d ">") as [->|Hd]; simpl negb; simpl andb.
  - intros _. by cbv [re_sub]; fold re_sub; rewrite match_eq.
  - intros H. by apply opens_has, re_sub_has.
Qed.

(** Nothing is left to remove. *)
Lemma cleaned_unmatched text n : unmatched (re_sub tag_or_newline n text).
Proof.
  revert n. induction text as [|c text IH]; intros n; [done|].
  cbn [re_sub]. destruct n as [|n]; [|apply IH].
  destruct (match_at tag_or_newline (String c text) Some) as [after|] eqn:Hm;
    [apply IH|].
  split; [|apply IH]. rewrite match_eq in Hm. rewrite match_eq.
  destruct (Ascii.eqb c "<"); [|by destruct (Ascii.eqb c newline)].
  apply many_opens. apply clean_head. by apply many_opens.
Qed.

Lemma unmatched_fixed s : unmatched s → re_sub tag_or_newline 0 s = s.
Proof.
  induction s as [|c s IH]; [done|]. intros [Hm Hs].
  cbn [re_sub]. rewrite Hm. by rewrite IH.
Qed.

Lemma unmatched_lines s : unmatched s → has newline s = false.
Proof.
  induction s as [|c s IH]; [done|]. intros [Hm Hs]. simpl.
  rewrite (IH Hs), orb_false_r. rewrite match_eq in Hm.
  destruct (Ascii.eqb_spec c "<") as [->|_]; [done|].
  by destruct (Ascii.eqb c newline).
Qed.

(** X20. Cleaning a text that was cleaned changes nothing: no tag is left
    that a second reading would find, and none is made of what the first
    reading kept. *)
Theorem clean_html_twice text :
  _clean_html (_clean_html text) = _clean_html text.
Proof. apply unmatched_fixed, cleaned_unmatched. Qed.

(** X21. The cleaned text holds no newline character. *)
Theorem clean_html_is_one_line text :
  has newline (_clean_html text) = false.
Proof. apply unmatched_lines, cleaned_unmatched. Qed.

(** *** What is removed *)

Lemma re_sub_skip r u v : re_sub r (String.length u) (u +:+ v) = re_sub r 0 v.
Proof.
  induction u as [|c u IH]; simpl; [|done].
  destruct v as [|d v]; [done|]. reflexivity.
Qed.

Lemma many_tag t b :
  t ≠ "" → has ">" t = false →
  many (Except ">") (t +:+ String ">" b) closing = Some b.
Proof.
  induction t as [|c t IH]; [done|]. intros _ H. simpl in H.
  apply orb_false_iff in H as [Hc Ht]. simpl. rewrite Hc. simpl.
  destruct t as [|d t].
  - simpl. reflexivity.
  - by rewrite IH.
Qed.

Lemma clean_prefix a text :
  has "<" a = false →
  _clean_html (a +:+ text) = _clean_html a +:+ _clean_html text.
Proof.
  unfold _clean_html. induction a as [|c a IH]; [done|]. simpl has.
  intros H. apply orb_false_iff in H as [Hc Ha].
  change (String c a +:+ text) with (String c (a +:+ text)).
  cbn [re_sub]. rewrite !match_eq, Hc.
  destruct (Ascii.eqb c newline).
  - replace (String.length (String c (a +:+ text)) - String.length (a +:+ text) - 1)
      with 0 by (simpl; lia).
    replace (String.length (String c a) - String.length a - 1)
      with 0 by (simpl; lia).
    by apply IH.
  - simpl. by rewrite IH.
Qed.

(** X22. A tag is removed whole: from a sign [<] that nothing opens before
    it to the first sign [>] after it, with the newlines and the signs [<]
    in between, when at least one character stands between them. *)
Theorem clean_html_drops_a_tag a t b :
  has "<" a = false → t ≠ "" → has ">" t = false →
  _clean_html (a +:+ String "<" (t +:+ String ">" b))
  = _clean_html a +:+ _clean_html b.
Proof.
  intros Ha Ht Hgt. rewrite (clean_prefix a _ Ha). f_equal.
  unfold _clean_html. cbn [re_sub]. rewrite match_eq. simpl Ascii.eqb. cbv iota.
  rewrite (many_tag t b Ht Hgt).
  replace (String.length (String "<" (t +:+ String ">" b)) - String.length b - 1)
    with (String.length (t +:+ ">")).
  - replace (t +:+ String ">" b) with ((t +:+ ">") +:+ b).
    + apply re_sub_skip.
    + clear. induction t as [|c t IH]; [done|].
      change (String c ((t +:+ ">") +:+ b) = String c (t +:+ String ">" b)).
      by rewrite IH.
  - simpl. rewrite !string_length_app. simpl. lia.
Qed.

End HtmlFacts.

Module HtmlExamples.
Import Html HtmlFacts.

Lemma clean_html_drops_a_tag_witness :
  _clean_html ("[File] Input " +:+ String "<" ("a href='x'" +:+ String ">" "image</a>"))
  = _clean_html "[File] Input " +:+ _clean_html "image</a>".
Proof.
  apply clean_html_drops_a_tag.
  - reflexivity.
  - discriminate.
  - reflexivity.
Defined.

(** Signs that close no tag are kept. *)
Lemma clean_html_keeps_lone_signs :
  _clean_html ("a <> b <" +:+ String newline "c") = "a <> b <c".
Proof. reflexivity. Qed.

End HtmlExamples.
